(** * Snapshot capture, diff and restore of gemctl (internal/client/snapshot.go)

    Shallow embedding of the snapshot subsystem of the Go client:
    the data model ([SnapshotMetadata], [EngineConfigSnapshot],
    [EngineSnapshot], [Agent]), the structural differ ([DiffSnapshots] and
    its helpers) and the reconciler ([RestoreEngineSnapshot]) run against an
    abstract external API that records every write call it receives.

    Go conventions used throughout:
    - a Go slice is [option (list A)]: [None] is the nil slice;
    - a Go map is [option (gmap string V)]: [None] is the nil map, read as
      the empty map (lookups give the zero value, [len] is 0);
    - a Go pointer to a struct that is only read is [option] of the struct
      ([None] is nil);
    - a [range] loop over a Go map visits its entries in an order chosen by
      the runtime: the embedding takes that order as an explicit argument,
      and [go_range m l] says that [l] is an order the runtime may choose
      (a permutation of the entries of [m]). *)

From Stdlib Require Import String Ascii ZArith Sorting.Sorted.
From stdpp Require Import gmap strings list fin_maps pretty.

Open Scope string_scope.
Open Scope list_scope.
Set Warnings "-register-all".

Abbreviation goslice A := (option (list A)).
Abbreviation gomap V := (option (gmap string V)).

(** Elements of a slice ([len(nil) = 0]). *)
Definition elems {A} (s : goslice A) : list A :=
  match s with Some l => l | None => [] end.

(** The entries of a map; the nil map reads as the empty map. *)
Definition mentries {V} (m : gomap V) : gmap string V :=
  match m with Some m' => m' | None => ∅ end.

(** [m[k]] on a [map[string]string]: the zero value [""] when absent. *)
Definition lookup_str (m : gomap string) (k : string) : string :=
  match mentries m !! k with Some v => v | None => "" end.

(** ** Values held in [interface{}]-typed fields (CommonConfig and the
    passthrough maps of an agent). Numbers are integral: [GInt] is a Go
    [int] built by Go code, [GFloat] a [float64], which is what
    [encoding/json] produces for every JSON number. A nested
    [map[string]interface{}] is kept as its entry list; [encoding/json]
    builds it in increasing key order. *)
Inductive goval : Type :=
| GInt (z : Z)
| GFloat (z : Z)
| GString (s : string)
| GBool (b : bool)
| GNil
| GSlice (l : list goval)
| GObject (m : list (string * goval)).

(** ** Data model (types of snapshot.go and of the agent client) *)

Record AgentIcon := { URI : string; Content : string }.

Record DialogflowAgentDefinition := { DialogflowAgent : string }.

Record Agent := {
  a_Name : string;
  a_DisplayName : string;
  a_Description : string;
  a_Icon : option AgentIcon;
  a_DialogflowAgentDefinition : option DialogflowAgentDefinition;
  a_ReasoningEngine : string;
  a_CreateTime : string;
  a_UpdateTime : string;
  a_ConnectorDefinition : gomap goval;
  a_AdditionalAgentProperties : gomap goval;
  a_Annotations : gomap string;
  a_Labels : gomap string;
  a_EnvironmentConfigurations : goslice (gomap goval);
  a_AgentMonitoringState : gomap goval;
  a_Capabilities : goslice string;
  a_Metadata : gomap goval
}.

Record SearchEngineConfig := {
  SearchTier : string;
  SearchAddOns : goslice string
}.

(** The live engine as returned by [GetEngineDetails]: the fields that
    snapshot.go reads from it. *)
Record Engine := {
  e_Name : string;
  e_DisplayName : string;
  e_SolutionType : string;
  e_IndustryVertical : string;
  e_AppType : string;
  e_DataStoreIds : goslice string;
  e_CommonConfig : gomap goval;
  e_Features : gomap string;
  e_SearchEngineConfig : option SearchEngineConfig
}.

Record SnapshotMetadata := {
  md_Version : string;
  md_OriginalEngineName : string;
  md_OriginalEngineID : string;
  md_SourceProjectID : string;
  md_SourceLocation : string;
  md_SourceCollection : string;
  md_TakenAt : string;
  md_DisplayName : string;
  md_Description : string;
  md_Notes : string
}.

Record EngineConfigSnapshot := {
  ec_DisplayName : string;
  ec_SolutionType : string;
  ec_IndustryVertical : string;
  ec_AppType : string;
  ec_DataStoreIds : goslice string;
  ec_CommonConfig : gomap goval;
  ec_Features : gomap string;
  ec_SearchConfig : option SearchEngineConfig
}.

Record EngineSnapshot := {
  Metadata : SnapshotMetadata;
  EngineCfg : EngineConfigSnapshot;
  Agents : goslice (option Agent)
}.

(** [FieldDiff.Old/New] are [interface{}]; the differ stores strings,
    string slices, the common-config map or a search-config pointer. *)
Inductive fval : Type :=
| FStr (s : string)
| FSlice (s : goslice string)
| FMap (m : gomap goval)
| FSearch (c : option SearchEngineConfig).

Record FieldDiff := { Field : string; fd_Old : fval; fd_New : fval }.

Record FeatureDiff := { Feature : string; ft_Old : string; ft_New : string }.

Inductive AgentDiffKind := AgentDiffAdded | AgentDiffRemoved | AgentDiffUpdated.

Record AgentDiff := {
  Key : string;
  ChangeType : AgentDiffKind;
  ad_Old : option Agent;
  ad_New : option Agent
}.

Record SnapshotDiff := {
  MetadataChanges : list FieldDiff;
  EngineChanges : list FieldDiff;
  FeatureChanges : list FeatureDiff;
  AgentChanges : list AgentDiff
}.

Definition emptyDiff : SnapshotDiff :=
  {| MetadataChanges := []; EngineChanges := []; FeatureChanges := [];
     AgentChanges := [] |}.

(** [SnapshotDiff.IsEmpty] *)
Definition IsEmpty (d : SnapshotDiff) : bool :=
  match MetadataChanges d, EngineChanges d, FeatureChanges d, AgentChanges d with
  | [], [], [], [] => true
  | _, _, _, _ => false
  end.

(** ** String helpers *)

(** *** [unicode/utf8] *)

Section Runes.
Local Open Scope Z_scope.

Definition RuneError : Z := 0xFFFD.
Definition RuneSelf : Z := 0x80.
Definition MaxRune : Z := 0x10FFFF.

(** A byte as the number it holds, and [byte(x)]: the low 8 bits of [x]. *)
Definition byte_val (b : ascii) : Z := Z.of_N (N_of_ascii b).
Definition byte_of (x : Z) : ascii := ascii_of_N (Z.to_N (Z.land x 0xFF)).

(** The [first] table of [utf8] for a byte that is not ASCII: [None] for
    the bytes that never start a sequence ([xx]), else the size of the
    sequence and the [acceptRanges] bounds of its second byte. *)
Definition first (s0 : Z) : option (nat * Z * Z) :=
  if s0 <? 0xC2 then None
  else if s0 <=? 0xDF then Some (2%nat, 0x80, 0xBF)
  else if s0 =? 0xE0 then Some (3%nat, 0xA0, 0xBF)
  else if s0 <=? 0xEC then Some (3%nat, 0x80, 0xBF)
  else if s0 =? 0xED then Some (3%nat, 0x80, 0x9F)
  else if s0 <=? 0xEF then Some (3%nat, 0x80, 0xBF)
  else if s0 =? 0xF0 then Some (4%nat, 0x90, 0xBF)
  else if s0 <=? 0xF3 then Some (4%nat, 0x80, 0xBF)
  else if s0 =? 0xF4 then Some (4%nat, 0x80, 0x8F)
  else None.

(** [locb <= b && b <= hicb] *)
Definition cont_byte (b : Z) : bool := (0x80 <=? b) && (b <=? 0xBF).

(** [s[n:]] and [s[:n]] *)
Fixpoint str_drop (n : nat) (s : string) : string :=
  match n, s with
  | S n', String _ r => str_drop n' r
  | _, _ => s
  end.

Fixpoint str_take (n : nat) (s : string) : string :=
  match n, s with
  | S n', String c r => String c (str_take n' r)
  | _, _ => EmptyString
  end.

(** [utf8.DecodeRuneInString(s)]: the first rune of [s] and its size in
    bytes. An invalid or truncated sequence reads as [RuneError] of size 1,
    the empty string as [RuneError] of size 0. *)
Definition decodeRune (s : string) : Z * nat :=
  match s with
  | EmptyString => (RuneError, 0%nat)
  | String b0 r =>
      let s0 := byte_val b0 in
      if s0 <? RuneSelf then (s0, 1%nat) else
      match first s0 with
      | None => (RuneError, 1%nat)
      | Some (sz, lo, hi) =>
          if (String.length s <? sz)%nat then (RuneError, 1%nat) else
          match r with
          | EmptyString => (RuneError, 1%nat)
          | String b1 r1 =>
              let s1 := byte_val b1 in
              if (s1 <? lo) || (hi <? s1) then (RuneError, 1%nat)
              else if (sz <=? 2)%nat then
                (Z.lor (Z.shiftl (Z.land s0 0x1F) 6) (Z.land s1 0x3F), 2%nat)
              else match r1 with
              | EmptyString => (RuneError, 1%nat)
              | String b2 r2 =>
                  let s2 := byte_val b2 in
                  if negb (cont_byte s2) then (RuneError, 1%nat)
                  else if (sz <=? 3)%nat then
                    (Z.lor (Z.lor (Z.shiftl (Z.land s0 0x0F) 12) (Z.shiftl (Z.land s1 0x3F) 6))
                       (Z.land s2 0x3F), 3%nat)
                  else match r2 with
                  | EmptyString => (RuneError, 1%nat)
                  | String b3 _ =>
                      let s3 := byte_val b3 in
                      if negb (cont_byte s3) then (RuneError, 1%nat)
                      else (Z.lor (Z.lor (Z.lor (Z.shiftl (Z.land s0 0x07) 18)
                                           (Z.shiftl (Z.land s1 0x3F) 12))
                                    (Z.shiftl (Z.land s2 0x3F) 6)) (Z.land s3 0x3F), 4%nat)
                  end
              end
          end
      end
  end.

(** The runes a [for _, c := range s] loop visits; each step consumes at
    least one byte, so [length s] steps reach the end. *)
Fixpoint runes_fuel (fuel : nat) (s : string) : list Z :=
  match fuel, s with
  | S n, String _ _ => let '(c, size) := decodeRune s in c :: runes_fuel n (str_drop size s)
  | _, _ => []
  end.

Definition runes (s : string) : list Z := runes_fuel (String.length s) s.

(** [utf8.EncodeRune] (and [utf8.AppendRune], which [Builder.WriteRune]
    uses); [i] is [uint32(r)]. *)
Definition encodeRune (r : Z) : string :=
  let i := Z.land r 0xFFFFFFFF in
  if i <=? 0x7F then String (byte_of r) EmptyString
  else if i <=? 0x7FF then
    String (byte_of (Z.lor 0xC0 (Z.shiftr r 6)))
      (String (byte_of (Z.lor 0x80 (Z.land r 0x3F))) EmptyString)
  else
    let enc3 (r : Z) :=
      String (byte_of (Z.lor 0xE0 (Z.shiftr r 12)))
        (String (byte_of (Z.lor 0x80 (Z.land (Z.shiftr r 6) 0x3F)))
          (String (byte_of (Z.lor 0x80 (Z.land r 0x3F))) EmptyString)) in
    if (MaxRune <? i) || ((0xD800 <=? i) && (i <=? 0xDFFF)) then enc3 RuneError
    else if i <=? 0xFFFF then enc3 r
    else
      String (byte_of (Z.lor 0xF0 (Z.shiftr r 18)))
        (String (byte_of (Z.lor 0x80 (Z.land (Z.shiftr r 12) 0x3F)))
          (String (byte_of (Z.lor 0x80 (Z.land (Z.shiftr r 6) 0x3F)))
            (String (byte_of (Z.lor 0x80 (Z.land r 0x3F))) EmptyString))).

(** *** [unicode.ToLower] *)

(** The lower-case column of a [unicode.CaseRanges] entry: a constant
    delta, or [UpperLower] for a run of alternating upper/lower pairs. *)
Inductive CaseDelta := Delta (d : Z) | UpperLower.

(** The ranges of non-ASCII runes that [unicode.ToLower] changes, each
    [(Lo, Hi, delta)]: the simple lowercase mapping of the Unicode Character
    Database (field 13 of UnicodeData.txt, plus no other source), which is
    what [unicode.CaseRanges] is generated from. *)
Definition LowerRanges : list (Z * Z * CaseDelta) :=
  [(0x00C0, 0x00D6, (Delta 32)); (0x00D8, 0x00DE, (Delta 32)); (0x0100, 0x012F, UpperLower);
   (0x0130, 0x0130, (Delta (-199))); (0x0132, 0x0137, UpperLower); (0x0139, 0x0148, UpperLower);
   (0x014A, 0x0177, UpperLower); (0x0178, 0x0178, (Delta (-121))); (0x0179, 0x017E, UpperLower);
   (0x0181, 0x0181, (Delta 210)); (0x0182, 0x0185, UpperLower); (0x0186, 0x0186, (Delta 206));
   (0x0187, 0x0187, (Delta 1)); (0x0189, 0x018A, (Delta 205)); (0x018B, 0x018B, (Delta 1));
   (0x018E, 0x018E, (Delta 79)); (0x018F, 0x018F, (Delta 202)); (0x0190, 0x0190, (Delta 203));
   (0x0191, 0x0191, (Delta 1)); (0x0193, 0x0193, (Delta 205)); (0x0194, 0x0194, (Delta 207));
   (0x0196, 0x0196, (Delta 211)); (0x0197, 0x0197, (Delta 209)); (0x0198, 0x0198, (Delta 1));
   (0x019C, 0x019C, (Delta 211)); (0x019D, 0x019D, (Delta 213)); (0x019F, 0x019F, (Delta 214));
   (0x01A0, 0x01A5, UpperLower); (0x01A6, 0x01A6, (Delta 218)); (0x01A7, 0x01A7, (Delta 1));
   (0x01A9, 0x01A9, (Delta 218)); (0x01AC, 0x01AC, (Delta 1)); (0x01AE, 0x01AE, (Delta 218));
   (0x01AF, 0x01AF, (Delta 1)); (0x01B1, 0x01B2, (Delta 217)); (0x01B3, 0x01B6, UpperLower);
   (0x01B7, 0x01B7, (Delta 219)); (0x01B8, 0x01B8, (Delta 1)); (0x01BC, 0x01BC, (Delta 1));
   (0x01C4, 0x01C4, (Delta 2)); (0x01C5, 0x01C5, (Delta 1)); (0x01C7, 0x01C7, (Delta 2));
   (0x01C8, 0x01C8, (Delta 1)); (0x01CA, 0x01CA, (Delta 2)); (0x01CB, 0x01DC, UpperLower);
   (0x01DE, 0x01EF, UpperLower); (0x01F1, 0x01F1, (Delta 2)); (0x01F2, 0x01F5, UpperLower);
   (0x01F6, 0x01F6, (Delta (-97))); (0x01F7, 0x01F7, (Delta (-56))); (0x01F8, 0x021F, UpperLower);
   (0x0220, 0x0220, (Delta (-130))); (0x0222, 0x0233, UpperLower); (0x023A, 0x023A, (Delta 10795));
   (0x023B, 0x023B, (Delta 1)); (0x023D, 0x023D, (Delta (-163))); (0x023E, 0x023E, (Delta 10792));
   (0x0241, 0x0241, (Delta 1)); (0x0243, 0x0243, (Delta (-195))); (0x0244, 0x0244, (Delta 69));
   (0x0245, 0x0245, (Delta 71)); (0x0246, 0x024F, UpperLower); (0x0370, 0x0373, UpperLower);
   (0x0376, 0x0376, (Delta 1)); (0x037F, 0x037F, (Delta 116)); (0x0386, 0x0386, (Delta 38));
   (0x0388, 0x038A, (Delta 37)); (0x038C, 0x038C, (Delta 64)); (0x038E, 0x038F, (Delta 63));
   (0x0391, 0x03A1, (Delta 32)); (0x03A3, 0x03AB, (Delta 32)); (0x03CF, 0x03CF, (Delta 8));
   (0x03D8, 0x03EF, UpperLower); (0x03F4, 0x03F4, (Delta (-60))); (0x03F7, 0x03F7, (Delta 1));
   (0x03F9, 0x03F9, (Delta (-7))); (0x03FA, 0x03FA, (Delta 1)); (0x03FD, 0x03FF, (Delta (-130)));
   (0x0400, 0x040F, (Delta 80)); (0x0410, 0x042F, (Delta 32)); (0x0460, 0x0481, UpperLower);
   (0x048A, 0x04BF, UpperLower); (0x04C0, 0x04C0, (Delta 15)); (0x04C1, 0x04CE, UpperLower);
   (0x04D0, 0x052F, UpperLower); (0x0531, 0x0556, (Delta 48)); (0x10A0, 0x10C5, (Delta 7264));
   (0x10C7, 0x10C7, (Delta 7264)); (0x10CD, 0x10CD, (Delta 7264)); (0x13A0, 0x13EF, (Delta 38864));
   (0x13F0, 0x13F5, (Delta 8)); (0x1C90, 0x1CBA, (Delta (-3008))); (0x1CBD, 0x1CBF, (Delta (-3008)));
   (0x1E00, 0x1E95, UpperLower); (0x1E9E, 0x1E9E, (Delta (-7615))); (0x1EA0, 0x1EFF, UpperLower);
   (0x1F08, 0x1F0F, (Delta (-8))); (0x1F18, 0x1F1D, (Delta (-8))); (0x1F28, 0x1F2F, (Delta (-8)));
   (0x1F38, 0x1F3F, (Delta (-8))); (0x1F48, 0x1F4D, (Delta (-8))); (0x1F59, 0x1F59, (Delta (-8)));
   (0x1F5B, 0x1F5B, (Delta (-8))); (0x1F5D, 0x1F5D, (Delta (-8))); (0x1F5F, 0x1F5F, (Delta (-8)));
   (0x1F68, 0x1F6F, (Delta (-8))); (0x1F88, 0x1F8F, (Delta (-8))); (0x1F98, 0x1F9F, (Delta (-8)));
   (0x1FA8, 0x1FAF, (Delta (-8))); (0x1FB8, 0x1FB9, (Delta (-8))); (0x1FBA, 0x1FBB, (Delta (-74)));
   (0x1FBC, 0x1FBC, (Delta (-9))); (0x1FC8, 0x1FCB, (Delta (-86))); (0x1FCC, 0x1FCC, (Delta (-9)));
   (0x1FD8, 0x1FD9, (Delta (-8))); (0x1FDA, 0x1FDB, (Delta (-100))); (0x1FE8, 0x1FE9, (Delta (-8)));
   (0x1FEA, 0x1FEB, (Delta (-112))); (0x1FEC, 0x1FEC, (Delta (-7))); (0x1FF8, 0x1FF9, (Delta (-128)));
   (0x1FFA, 0x1FFB, (Delta (-126))); (0x1FFC, 0x1FFC, (Delta (-9))); (0x2126, 0x2126, (Delta (-7517)));
   (0x212A, 0x212A, (Delta (-8383))); (0x212B, 0x212B, (Delta (-8262))); (0x2132, 0x2132, (Delta 28));
   (0x2160, 0x216F, (Delta 16)); (0x2183, 0x2183, (Delta 1)); (0x24B6, 0x24CF, (Delta 26));
   (0x2C00, 0x2C2F, (Delta 48)); (0x2C60, 0x2C60, (Delta 1)); (0x2C62, 0x2C62, (Delta (-10743)));
   (0x2C63, 0x2C63, (Delta (-3814))); (0x2C64, 0x2C64, (Delta (-10727))); (0x2C67, 0x2C6C, UpperLower);
   (0x2C6D, 0x2C6D, (Delta (-10780))); (0x2C6E, 0x2C6E, (Delta (-10749))); (0x2C6F, 0x2C6F, (Delta (-10783)));
   (0x2C70, 0x2C70, (Delta (-10782))); (0x2C72, 0x2C72, (Delta 1)); (0x2C75, 0x2C75, (Delta 1));
   (0x2C7E, 0x2C7F, (Delta (-10815))); (0x2C80, 0x2CE3, UpperLower); (0x2CEB, 0x2CEE, UpperLower);
   (0x2CF2, 0x2CF2, (Delta 1)); (0xA640, 0xA66D, UpperLower); (0xA680, 0xA69B, UpperLower);
   (0xA722, 0xA72F, UpperLower); (0xA732, 0xA76F, UpperLower); (0xA779, 0xA77C, UpperLower);
   (0xA77D, 0xA77D, (Delta (-35332))); (0xA77E, 0xA787, UpperLower); (0xA78B, 0xA78B, (Delta 1));
   (0xA78D, 0xA78D, (Delta (-42280))); (0xA790, 0xA793, UpperLower); (0xA796, 0xA7A9, UpperLower);
   (0xA7AA, 0xA7AA, (Delta (-42308))); (0xA7AB, 0xA7AB, (Delta (-42319))); (0xA7AC, 0xA7AC, (Delta (-42315)));
   (0xA7AD, 0xA7AD, (Delta (-42305))); (0xA7AE, 0xA7AE, (Delta (-42308))); (0xA7B0, 0xA7B0, (Delta (-42258)));
   (0xA7B1, 0xA7B1, (Delta (-42282))); (0xA7B2, 0xA7B2, (Delta (-42261))); (0xA7B3, 0xA7B3, (Delta 928));
   (0xA7B4, 0xA7C3, UpperLower); (0xA7C4, 0xA7C4, (Delta (-48))); (0xA7C5, 0xA7C5, (Delta (-42307)));
   (0xA7C6, 0xA7C6, (Delta (-35384))); (0xA7C7, 0xA7CA, UpperLower); (0xA7D0, 0xA7D0, (Delta 1));
   (0xA7D6, 0xA7D9, UpperLower); (0xA7F5, 0xA7F5, (Delta 1)); (0xFF21, 0xFF3A, (Delta 32));
   (0x10400, 0x10427, (Delta 40)); (0x104B0, 0x104D3, (Delta 40)); (0x10570, 0x1057A, (Delta 39));
   (0x1057C, 0x1058A, (Delta 39)); (0x1058C, 0x10592, (Delta 39)); (0x10594, 0x10595, (Delta 39));
   (0x10C80, 0x10CB2, (Delta 64)); (0x118A0, 0x118BF, (Delta 32)); (0x16E40, 0x16E5F, (Delta 32));
   (0x1E900, 0x1E921, (Delta 34))].

(** The entry of a sorted, disjoint table that contains [r] (Go finds it by
    binary search). *)
Fixpoint findCaseRange (r : Z) (l : list (Z * Z * CaseDelta)) : option (Z * Z * CaseDelta) :=
  match l with
  | [] => None
  | (lo, hi, d) :: rest => if (lo <=? r) && (r <=? hi) then Some (lo, hi, d) else findCaseRange r rest
  end.

(** [unicode.ToLower(r)]: ASCII by hand, otherwise [To(LowerCase, r)]. In
    an [UpperLower] run the even offsets from [Lo] are upper case, and the
    low bit of the offset is set ([LowerCase] is odd). *)
Definition unicode_ToLower (r : Z) : Z :=
  if r <=? 0x7F then (if (65 <=? r) && (r <=? 90) then r + 32 else r)
  else match findCaseRange r LowerRanges with
       | Some (lo, _, Delta d) => r + d
       | Some (lo, _, UpperLower) => lo + Z.lor (Z.land (r - lo) (Z.lnot 1)) 1
       | None => r
       end.

End Runes.

(** *** [strings] *)

(** [strings.Map(mapping, s)]: every rune of [s] (an invalid byte reads as
    [RuneError]) replaced by [mapping] of it, dropped when that is
    negative. The function copies the prefix of runes it leaves unchanged
    (and returns [s] itself when nothing changes) and writes each rune
    from the first change on; a copied valid rune is its own encoding, so
    the bytes are the encodings of the mapped runes either way. *)
Definition Map (mapping : Z -> Z) (s : string) : string :=
  fold_right (fun c acc => let r := mapping c in
                           if (0 <=? r)%Z then (encodeRune r ++ acc)%string else acc)
             EmptyString (runes s).

(** The ASCII path of [strings.ToLower]: bytes 'A'..'Z' are mapped to
    'a'..'z', every other byte is kept (with no upper-case byte this is [s]
    itself, which the code returns as is). *)
Definition ascii_lower (c : ascii) : ascii :=
  let n := nat_of_ascii c in
  if (65 <=? n)%nat && (n <=? 90)%nat then ascii_of_nat (n + 32) else c.

Fixpoint ascii_lower_string (s : string) : string :=
  match s with
  | EmptyString => EmptyString
  | String c r => String (ascii_lower c) (ascii_lower_string r)
  end.

(** [isASCII]: no byte is [>= utf8.RuneSelf]. *)
Fixpoint isASCII (s : string) : bool :=
  match s with
  | EmptyString => true
  | String c r => (byte_val c <? RuneSelf)%Z && isASCII r
  end.

(** [strings.ToLower]: the byte loop for an ASCII string, else
    [Map(unicode.ToLower, s)]. *)
Definition ToLower (s : string) : string :=
  if isASCII s then ascii_lower_string s else Map unicode_ToLower s.

(** [sort.Strings]: byte-wise order, here by insertion. *)
Fixpoint insert_sorted (s : string) (l : list string) : list string :=
  match l with
  | [] => [s]
  | t :: r => if String.leb s t then s :: l else t :: insert_sorted s r
  end.

Definition sortStrings (l : list string) : list string :=
  fold_right insert_sorted [] l.

(** ** Identity key of an agent ([agentSnapshotKey]) *)
Definition agentSnapshotKey (agent : option Agent) : string :=
  match agent with
  | None => ""
  | Some a =>
      let link := match a_DialogflowAgentDefinition a with
                  | Some d => DialogflowAgent d
                  | None => ""
                  end in
      if negb (String.eqb link "") then ToLower link
      else if negb (String.eqb (a_DisplayName a) "") then ToLower (a_DisplayName a)
      else ToLower (a_Name a)
  end.

(** ** Structural differ *)

(** A Go [range] over a map may visit the entries in any order. *)
Definition go_range {V} (m : gmap string V) (l : list (string * V)) : Prop :=
  l ≡ₚ map_to_list m.

(** The iteration orders of the two [range] loops of [diffAgents]
    (and of [syncAgentsWithSnapshot]): first over [desiredMap], then over
    [currentMap]. *)
Record RangeOrder := {
  ord_desired : list (string * option Agent);
  ord_current : list (string * option Agent)
}.

(** [stringSlicesEqual]: same length and equal element by element. *)
Definition stringSlicesEqual (a b : goslice string) : bool :=
  bool_decide (elems a = elems b).

(** [compareSearchConfigs] *)
Definition compareSearchConfigs (a b : option SearchEngineConfig) : bool :=
  match a, b with
  | None, None => true
  | Some a', Some b' =>
      String.eqb (SearchTier a') (SearchTier b') &&
      stringSlicesEqual (SearchAddOns a') (SearchAddOns b')
  | _, _ => false
  end.

Definition emit_if (changed : bool) (d : FieldDiff) : list FieldDiff :=
  if changed then [d] else [].

(** [diffMetadata] *)
Definition diffMetadata (a b : SnapshotMetadata) : list FieldDiff :=
  emit_if (negb (String.eqb (md_DisplayName a) (md_DisplayName b)))
    {| Field := "displayName"; fd_Old := FStr (md_DisplayName a); fd_New := FStr (md_DisplayName b) |} ++
  emit_if (negb (String.eqb (md_Description a) (md_Description b)))
    {| Field := "description"; fd_Old := FStr (md_Description a); fd_New := FStr (md_Description b) |} ++
  emit_if (negb (String.eqb (md_Notes a) (md_Notes b)))
    {| Field := "notes"; fd_Old := FStr (md_Notes a); fd_New := FStr (md_Notes b) |}.

(** [diffFeatures]: the union of the keys of both maps, sorted, and one
    entry per key whose values (zero value [""] when absent) differ. The
    keys are gathered by a [range] over a map and then [sort.Strings]-ed,
    which erases the iteration order: [elements] stands for that gathering. *)
Definition diffFeatures (a b : gomap string) : list FeatureDiff :=
  let keys := sortStrings (elements (dom (mentries a) ∪ dom (mentries b))) in
  flat_map (fun key =>
    let oldVal := lookup_str a key in
    let newVal := lookup_str b key in
    if negb (String.eqb oldVal newVal)
    then [{| Feature := key; ft_Old := oldVal; ft_New := newVal |}]
    else []) keys.

(** [diffAgentsFields]: the update mask and whether it is non-empty. *)
Definition diffAgentsFields (current desired : option Agent) : list string * bool :=
  match current, desired with
  | Some c, Some d =>
      let link (x : Agent) := match a_DialogflowAgentDefinition x with
                              | Some df => DialogflowAgent df | None => "" end in
      let iconURI (x : Agent) := match a_Icon x with Some i => URI i | None => "" end in
      let iconContent (x : Agent) := match a_Icon x with Some i => Content i | None => "" end in
      let mask :=
        (if negb (String.eqb (a_DisplayName c) (a_DisplayName d)) then ["displayName"] else []) ++
        (if negb (String.eqb (a_Description c) (a_Description d)) then ["description"] else []) ++
        (if negb (String.eqb (a_ReasoningEngine c) (a_ReasoningEngine d)) &&
            negb (String.eqb (a_ReasoningEngine d) "")
         then ["reasoningEngine"] else []) ++
        (if negb (String.eqb (link c) (link d)) && negb (String.eqb (link d) "")
         then ["dialogflowAgentDefinition.dialogflowAgent"] else []) ++
        (if negb (String.eqb (iconURI c) (iconURI d)) ||
            negb (String.eqb (iconContent c) (iconContent d))
         then ["icon"] else []) in
      (mask, negb (Nat.eqb (length mask) 0))
  | _, _ => ([], false)
  end.

(** The key -> agent map built by [for _, agent := range list { m[key] = agent }]:
    a later agent with the same key replaces an earlier one. *)
Definition agent_map (l : goslice (option Agent)) : gmap string (option Agent) :=
  foldl (fun m agent => <[agentSnapshotKey agent := agent]> m) ∅ (elems l).

(** The two loops of [diffAgents], visiting the maps in the given orders. *)
Definition diffAgents_loops (currentMap desiredMap : gmap string (option Agent))
    (od oc : list (string * option Agent)) : list AgentDiff :=
  flat_map (fun kv =>
    let '(key, desiredAgent) := kv in
    match currentMap !! key with
    | Some existing =>
        if (diffAgentsFields existing desiredAgent).2
        then [{| Key := key; ChangeType := AgentDiffUpdated;
                 ad_Old := existing; ad_New := desiredAgent |}]
        else []
    | None =>
        [{| Key := key; ChangeType := AgentDiffAdded; ad_Old := None; ad_New := desiredAgent |}]
    end) od ++
  flat_map (fun kv =>
    let '(key, existing) := kv in
    match desiredMap !! key with
    | Some _ => []
    | None => [{| Key := key; ChangeType := AgentDiffRemoved; ad_Old := existing; ad_New := None |}]
    end) oc.

(** [diffAgents(current, desired)] under the iteration orders [o]. *)
Definition diffAgents (current desired : goslice (option Agent)) (o : RangeOrder) : list AgentDiff :=
  diffAgents_loops (agent_map current) (agent_map desired) (ord_desired o) (ord_current o).

(** [o] is an order the Go runtime may choose for [diffAgents(current, desired)]. *)
Definition valid_order (current desired : goslice (option Agent)) (o : RangeOrder) : Prop :=
  go_range (agent_map desired) (ord_desired o) /\ go_range (agent_map current) (ord_current o).

(** The order in which [map_to_list] happens to list the entries. *)
Definition canonical_order (current desired : goslice (option Agent)) : RangeOrder :=
  {| ord_desired := map_to_list (agent_map desired);
     ord_current := map_to_list (agent_map current) |}.

Section Differ.
(** [fmt.Sprintf("%v", v)], the formatting [mapsEqual] compares values by. *)
Variable fmt_v : goval -> string.

(** [mapsEqual]: equal length and every key of [a] present in [b] with a
    value printing the same way. *)
Definition mapsEqual (a b : gomap goval) : bool :=
  Nat.eqb (size (mentries a)) (size (mentries b)) &&
  forallb (fun kv => match mentries b !! kv.1 with
                     | Some bv => String.eqb (fmt_v kv.2) (fmt_v bv)
                     | None => false
                     end) (map_to_list (mentries a)).

(** [diffEngineConfig] *)
Definition diffEngineConfig (a b : EngineConfigSnapshot) : list FieldDiff :=
  emit_if (negb (String.eqb (ec_DisplayName a) (ec_DisplayName b)))
    {| Field := "displayName"; fd_Old := FStr (ec_DisplayName a); fd_New := FStr (ec_DisplayName b) |} ++
  emit_if (negb (String.eqb (ec_SolutionType a) (ec_SolutionType b)))
    {| Field := "solutionType"; fd_Old := FStr (ec_SolutionType a); fd_New := FStr (ec_SolutionType b) |} ++
  emit_if (negb (String.eqb (ec_IndustryVertical a) (ec_IndustryVertical b)))
    {| Field := "industryVertical"; fd_Old := FStr (ec_IndustryVertical a); fd_New := FStr (ec_IndustryVertical b) |} ++
  emit_if (negb (String.eqb (ec_AppType a) (ec_AppType b)))
    {| Field := "appType"; fd_Old := FStr (ec_AppType a); fd_New := FStr (ec_AppType b) |} ++
  emit_if (negb (stringSlicesEqual (ec_DataStoreIds a) (ec_DataStoreIds b)))
    {| Field := "dataStoreIds"; fd_Old := FSlice (ec_DataStoreIds a); fd_New := FSlice (ec_DataStoreIds b) |} ++
  emit_if (negb (mapsEqual (ec_CommonConfig a) (ec_CommonConfig b)))
    {| Field := "commonConfig"; fd_Old := FMap (ec_CommonConfig a); fd_New := FMap (ec_CommonConfig b) |} ++
  emit_if (negb (compareSearchConfigs (ec_SearchConfig a) (ec_SearchConfig b)))
    {| Field := "searchConfig"; fd_Old := FSearch (ec_SearchConfig a); fd_New := FSearch (ec_SearchConfig b) |}.

(** [DiffSnapshots(a, b)]; [o] is the iteration order of the agent maps. *)
Definition DiffSnapshots (a b : EngineSnapshot) (o : RangeOrder) : SnapshotDiff :=
  {| MetadataChanges := diffMetadata (Metadata a) (Metadata b);
     EngineChanges := diffEngineConfig (EngineCfg a) (EngineCfg b);
     FeatureChanges := diffFeatures (ec_Features (EngineCfg a)) (ec_Features (EngineCfg b));
     AgentChanges := diffAgents (Agents a) (Agents b) o |}.
End Differ.

(** ** External API and errors *)

(** Errors as the code builds them: [Errorf] is [fmt.Errorf] without [%w]
    (a check made by the function itself), [Wrapf] is [fmt.Errorf("ctx: %w",
    err)], [ApiError] is a [*googleapi.Error] coming from the transport. *)
Inductive GoErr : Type :=
| Errorf (msg : string)
| Wrapf (context : string) (inner : GoErr)
| ApiError (code : Z) (msg : string).

(** [isNotFound]: [errors.As] to a [*googleapi.Error] along the [%w] chain,
    then [Code == 404]. *)
Fixpoint isNotFound (e : GoErr) : bool :=
  match e with
  | Errorf _ => false
  | Wrapf _ inner => isNotFound inner
  | ApiError code _ => Z.eqb code 404
  end.

(** Result of a read of the external API. *)
Inductive res (A : Type) : Type :=
| Ok (a : A)
| Err (e : GoErr).
Arguments Ok {A} a.
Arguments Err {A} e.

(** Payloads of the write calls. *)
Record EnginePayload := {
  p_DisplayName : string;
  p_SolutionType : string;
  p_IndustryVertical : string;
  p_AppType : string;
  p_DataStoreIds : goslice string;
  p_Features : gomap string;
  p_SearchEngineConfig : option SearchEngineConfig;
  p_CompanyName : option string
}.

Record AgentInput := {
  in_DisplayName : string;
  in_Description : string;
  in_Icon : option AgentIcon;
  in_DialogflowAgentDefinition : option DialogflowAgentDefinition;
  in_ReasoningEngine : string
}.

(** Every write-capable call the snapshot code issues. *)
Inductive WriteCall : Type :=
| WCreateEngine (parent engineId : string) (engine : EnginePayload)
| WPatchEngine (name : string) (patch : EnginePayload) (updateMask : list string)
| WUpdateFeatures (name : string) (features : gmap string string)
| WCreateAgent (engineName : string) (input : AgentInput)
| WUpdateAgent (agentName : string) (input : AgentInput) (updateMask : list string)
| WDeleteAgent (agentName : string).

(** The client: the two reads, the answer of the API to each write call
    ([None] for success), the configured project/location/collection, and
    the clock ([time.Now().UTC().Format(time.RFC3339)]). *)
Record GeminiClient := {
  GetEngineDetails : string -> res Engine;
  ListAgents : string -> res (goslice (option Agent));
  write_resp : WriteCall -> option GoErr;
  ProjectID : string;
  Location : string;
  Collection : string;
  clock_now : string
}.

(** Outcome of a computation that issues write calls: a value, a returned
    error, or a run-time panic (nil pointer dereference). *)
Inductive outcome (A : Type) : Type :=
| Done (a : A)
| Failed (e : GoErr)
| Crashed.
Arguments Done {A} a.
Arguments Failed {A} e.
Arguments Crashed {A}.

(** State passing: the list of write calls issued so far. *)
Definition M (A : Type) : Type := list WriteCall -> outcome A * list WriteCall.

Definition ret {A} (a : A) : M A := fun tr => (Done a, tr).
Definition fail {A} (e : GoErr) : M A := fun tr => (Failed e, tr).
Definition crash {A} : M A := fun tr => (Crashed, tr).
Definition bind {A B} (m : M A) (k : A -> M B) : M B :=
  fun tr => match m tr with
            | (Done a, tr') => k a tr'
            | (Failed e, tr') => (Failed e, tr')
            | (Crashed, tr') => (Crashed, tr')
            end.
Notation "'let*' x ':=' m 'in' k" := (bind m (fun x => k))
  (at level 200, x name, m at level 100, right associativity).

(** [if err := f(); err != nil { return fmt.Errorf("ctx: %w", err) }] *)
Definition wrap {A} (ctx : string) (m : M A) : M A :=
  fun tr => match m tr with
            | (Failed e, tr') => (Failed (Wrapf ctx e), tr')
            | r => r
            end.

(** [extractResourceID]: the part after the last '/'. *)
Fixpoint last_segment (s acc : string) : string :=
  match s with
  | EmptyString => acc
  | String ch r => if Ascii.eqb ch "/"%char then last_segment r "" else last_segment r (acc ++ String ch EmptyString)%string
  end.

Definition extractResourceID (resourceName : string) : string :=
  if String.eqb resourceName "" then "" else last_segment resourceName "".

(** [cloneAgents]: nil entries dropped, every agent copied. *)
Definition cloneAgents (src : goslice (option Agent)) : goslice (option Agent) :=
  Some (map Some (omap id (elems src))).

(** [existingEngineFeatures] *)
Definition existingEngineFeatures (engine : option Engine) : gomap string :=
  match engine with
  | None => Some ∅
  | Some e => e_Features e
  end.

Definition snapshotVersion : string := "v1".

(** Restore options and result. *)
Record SnapshotRestoreOptions := {
  TargetEngineName : string;
  CreateIfMissing : bool;
  UpdateExisting : bool;
  DryRun : bool
}.

Record SnapshotRestoreResult := {
  EngineName : string;
  Created : bool;
  EnginePatched : bool;
  r_FeatureChanges : list FeatureDiff;
  r_AgentChanges : list AgentDiff
}.

(** What [RestoreEngineSnapshot] returns: [(result, diff, err)], or a panic. *)
Inductive RestoreOut : Type :=
| Returned (result : option SnapshotRestoreResult) (diff : SnapshotDiff) (err : option GoErr)
| Panicked.

Section Restore.
Variable c : GeminiClient.
Variable fmt_v : goval -> string.

(** One write call; the API's answer decides success. *)
Definition call (w : WriteCall) : M unit :=
  fun tr => (match write_resp c w with None => Done tt | Some e => Failed e end, tr ++ [w]).

(** The live state as the snapshot shape built in [RestoreEngineSnapshot]
    (and [DiffSnapshotWithEngine]) before diffing. *)
Definition liveSnapshot (engine : Engine) (agents : goslice (option Agent)) : EngineSnapshot :=
  {| Metadata := {| md_Version := snapshotVersion;
                    md_OriginalEngineName := e_Name engine;
                    md_OriginalEngineID := extractResourceID (e_Name engine);
                    md_SourceProjectID := ""; md_SourceLocation := "";
                    md_SourceCollection := "";
                    md_TakenAt := clock_now c;
                    md_DisplayName := e_DisplayName engine;
                    md_Description := ""; md_Notes := "" |};
     EngineCfg := {| ec_DisplayName := e_DisplayName engine;
                     ec_SolutionType := e_SolutionType engine;
                     ec_IndustryVertical := e_IndustryVertical engine;
                     ec_AppType := e_AppType engine;
                     ec_DataStoreIds := Some (elems (e_DataStoreIds engine));
                     ec_CommonConfig := e_CommonConfig engine;
                     ec_Features := e_Features engine;
                     ec_SearchConfig := e_SearchEngineConfig engine |};
     Agents := cloneAgents agents |}.

(** [createEngineFromSnapshot] *)
Definition createEngineFromSnapshot (engineName : string) (cfg : EngineConfigSnapshot) : M unit :=
  let engineID := extractResourceID engineName in
  let parent := ("projects/" ++ ProjectID c ++ "/locations/" ++ Location c ++
                 "/collections/" ++ Collection c)%string in
  let company := match mentries (ec_CommonConfig cfg) !! "companyName" with
                 | Some (GString s) => if String.eqb s "" then None else Some s
                 | _ => None
                 end in
  let engine := {| p_DisplayName := ec_DisplayName cfg;
                   p_SolutionType := ec_SolutionType cfg;
                   p_IndustryVertical := ec_IndustryVertical cfg;
                   p_AppType := ec_AppType cfg;
                   p_DataStoreIds := Some (elems (ec_DataStoreIds cfg));
                   p_Features := ec_Features cfg;
                   p_SearchEngineConfig :=
                     match ec_SearchConfig cfg with
                     | Some sc => Some {| SearchTier := SearchTier sc;
                                          SearchAddOns := Some (elems (SearchAddOns sc)) |}
                     | None => None
                     end;
                   p_CompanyName := company |} in
  wrap "failed to create engine" (call (WCreateEngine parent engineID engine)).

(** The update mask and patch body computed by [patchEngineFromSnapshot]. *)
Definition engineUpdateMask (current : Engine) (cfg : EngineConfigSnapshot) : list string :=
  (if negb (String.eqb (ec_DisplayName cfg) "") &&
      negb (String.eqb (ec_DisplayName cfg) (e_DisplayName current))
   then ["displayName"] else []) ++
  (if negb (String.eqb (ec_IndustryVertical cfg) "") &&
      negb (String.eqb (ec_IndustryVertical cfg) (e_IndustryVertical current))
   then ["industryVertical"] else []) ++
  (if negb (String.eqb (ec_AppType cfg) "") &&
      negb (String.eqb (ec_AppType cfg) (e_AppType current))
   then ["appType"] else []) ++
  (if negb (stringSlicesEqual (ec_DataStoreIds cfg) (e_DataStoreIds current))
   then ["dataStoreIds"] else []) ++
  (match ec_SearchConfig cfg with
   | Some sc =>
       let '(currentTier, currentAddOns) :=
         match e_SearchEngineConfig current with
         | Some cs => (SearchTier cs, SearchAddOns cs)
         | None => ("", Some [])
         end in
       if negb (String.eqb (SearchTier sc) currentTier) ||
          negb (stringSlicesEqual (SearchAddOns sc) currentAddOns)
       then ["searchEngineConfig"] else []
   | None => []
   end).

Definition enginePatch (current : Engine) (cfg : EngineConfigSnapshot) : EnginePayload :=
  let mask := engineUpdateMask current cfg in
  let has f := bool_decide (f ∈ mask) in
  {| p_DisplayName := if has "displayName" then ec_DisplayName cfg else "";
     p_SolutionType := "";
     p_IndustryVertical := if has "industryVertical" then ec_IndustryVertical cfg else "";
     p_AppType := if has "appType" then ec_AppType cfg else "";
     p_DataStoreIds := if has "dataStoreIds" then Some (elems (ec_DataStoreIds cfg)) else None;
     p_Features := None;
     p_SearchEngineConfig :=
       if has "searchEngineConfig" then
         match ec_SearchConfig cfg with
         | Some sc => Some {| SearchTier := SearchTier sc; SearchAddOns := Some (elems (SearchAddOns sc)) |}
         | None => None
         end
       else None;
     p_CompanyName := None |}.

(** [patchEngineFromSnapshot]: no call at all when the mask is empty. *)
Definition patchEngineFromSnapshot (engineName : string) (current : option Engine)
    (cfg : EngineConfigSnapshot) : M unit :=
  match current with
  | None => fail (Errorf "current engine is nil")
  | Some cur =>
      let updateMask := engineUpdateMask cur cfg in
      match updateMask with
      | [] => ret tt
      | _ => wrap "failed to patch engine" (call (WPatchEngine engineName (enginePatch cur cfg) updateMask))
      end
  end.

(** [applyFeatureSnapshot]: [UpdateEngineFeatures] (a write of the
    client) unless the desired map is nil; its error is returned as is. *)
Definition applyFeatureSnapshot (engineName : string) (desired : gomap string) : M unit :=
  match desired with
  | None => ret tt
  | Some m => call (WUpdateFeatures engineName m)
  end.

(** [createAgentFromSnapshot] *)
Definition createAgentFromSnapshot (engineName : string) (agent : option Agent) : M unit :=
  match agent with
  | None => ret tt
  | Some a =>
      let missingLink := match a_DialogflowAgentDefinition a with
                         | Some d => String.eqb (DialogflowAgent d) ""
                         | None => false
                         end in
      if missingLink then
        fail (Errorf ("snapshot agent " ++ a_DisplayName a ++ " missing dialogflow agent resource")%string)
      else
        let input := {| in_DisplayName := a_DisplayName a;
                        in_Description := a_Description a;
                        in_Icon := a_Icon a;
                        in_DialogflowAgentDefinition := a_DialogflowAgentDefinition a;
                        in_ReasoningEngine := if String.eqb (a_ReasoningEngine a) ""
                                              then engineName else a_ReasoningEngine a |} in
        wrap ("failed to create agent " ++ a_DisplayName a)%string
          (call (WCreateAgent engineName input))
  end.

(** [updateAgentFromSnapshot]; [existing] and [desired] are dereferenced. *)
Definition updateAgentFromSnapshot (existing desired : option Agent) (mask : list string) : M unit :=
  match mask with
  | [] => ret tt
  | _ =>
      match existing, desired with
      | Some e, Some d =>
          let input := {| in_DisplayName := a_DisplayName d;
                          in_Description := a_Description d;
                          in_Icon := a_Icon d;
                          in_DialogflowAgentDefinition := a_DialogflowAgentDefinition d;
                          in_ReasoningEngine := a_ReasoningEngine d |} in
          wrap ("failed to update agent " ++ a_Name e)%string
            (call (WUpdateAgent (a_Name e) input mask))
      | _, _ => crash
      end
  end.

(** First loop of [syncAgentsWithSnapshot], over [desiredMap] in order [od]. *)
Fixpoint syncDesired (engineName : string) (currentMap : gmap string (option Agent))
    (od : list (string * option Agent)) (changes : list AgentDiff) : M (list AgentDiff) :=
  match od with
  | [] => ret changes
  | (key, desiredAgent) :: rest =>
      match currentMap !! key with
      | Some existing =>
          let '(updateMask, needsUpdate) := diffAgentsFields existing desiredAgent in
          if needsUpdate then
            let* _ := updateAgentFromSnapshot existing desiredAgent updateMask in
            syncDesired engineName currentMap rest
              (changes ++ [{| Key := key; ChangeType := AgentDiffUpdated;
                              ad_Old := existing; ad_New := desiredAgent |}])
          else syncDesired engineName currentMap rest changes
      | None =>
          let* _ := createAgentFromSnapshot engineName desiredAgent in
          syncDesired engineName currentMap rest
            (changes ++ [{| Key := key; ChangeType := AgentDiffAdded;
                            ad_Old := None; ad_New := desiredAgent |}])
      end
  end.

(** Second loop of [syncAgentsWithSnapshot], over [currentMap] in order [oc]. *)
Fixpoint syncCurrent (desiredMap : gmap string (option Agent))
    (oc : list (string * option Agent)) (changes : list AgentDiff) : M (list AgentDiff) :=
  match oc with
  | [] => ret changes
  | (key, existing) :: rest =>
      match desiredMap !! key with
      | Some _ => syncCurrent desiredMap rest changes
      | None =>
          match existing with
          | None => crash
          | Some e =>
              let* _ := wrap ("failed to delete agent " ++ a_Name e)%string
                          (call (WDeleteAgent (a_Name e))) in
              syncCurrent desiredMap rest
                (changes ++ [{| Key := key; ChangeType := AgentDiffRemoved;
                                ad_Old := existing; ad_New := None |}])
          end
      end
  end.

(** [syncAgentsWithSnapshot(engineName, current, desired)] *)
Definition syncAgentsWithSnapshot (engineName : string) (current desired : goslice (option Agent))
    (o : RangeOrder) : M (list AgentDiff) :=
  let currentMap := agent_map current in
  let desiredMap := agent_map desired in
  let* changes := syncDesired engineName currentMap (ord_desired o) [] in
  syncCurrent desiredMap (ord_current o) changes.

(** The preview diff of [RestoreEngineSnapshot] ([currentDiff]). *)
Definition previewDiff (snapshot : EngineSnapshot) (existingEngine : option Engine)
    (existingAgents : goslice (option Agent)) (op : RangeOrder) : SnapshotDiff :=
  match existingEngine with
  | Some eng => DiffSnapshots fmt_v snapshot (liveSnapshot eng existingAgents) op
  | None =>
      {| MetadataChanges := [];
         EngineChanges := [{| Field := "engine"; fd_Old := FStr "missing";
                              fd_New := FStr "will be created" |}];
         FeatureChanges := diffFeatures (Some ∅) (ec_Features (EngineCfg snapshot));
         AgentChanges := diffAgents None (Agents snapshot) op |}
  end.

(** Steps 3a-3d of [RestoreEngineSnapshot] (after the dry-run return). *)
Definition applySnapshot (snapshot : EngineSnapshot) (opts : SnapshotRestoreOptions)
    (existingEngine : option Engine) (existingAgents : goslice (option Agent))
    (os : RangeOrder) : M SnapshotRestoreResult :=
  let name := TargetEngineName opts in
  let* flags :=
    match existingEngine with
    | None =>
        if negb (CreateIfMissing opts) then fail (Errorf ("engine " ++ name ++ " not found")%string)
        else let* _ := wrap "failed to create engine" (createEngineFromSnapshot name (EngineCfg snapshot)) in
             ret (true, false)
    | Some eng =>
        if UpdateExisting opts then
          let* _ := wrap "failed to patch engine"
                      (patchEngineFromSnapshot name existingEngine (EngineCfg snapshot)) in
          ret (false, true)
        else ret (false, false)
    end in
  let* _ := wrap "failed to apply feature snapshot"
              (applyFeatureSnapshot name (ec_Features (EngineCfg snapshot))) in
  let featureChanges := diffFeatures (existingEngineFeatures existingEngine)
                          (ec_Features (EngineCfg snapshot)) in
  let* agentChanges := wrap "failed to sync agents"
                         (syncAgentsWithSnapshot name existingAgents (Agents snapshot) os) in
  ret {| EngineName := name; Created := flags.1; EnginePatched := flags.2;
         r_FeatureChanges := featureChanges; r_AgentChanges := agentChanges |}.

(** Step 1 of [RestoreEngineSnapshot]: the target engine and its agents. *)
Definition resolveTarget (opts : SnapshotRestoreOptions)
    : res (option Engine * goslice (option Agent)) :=
  let name := TargetEngineName opts in
  match GetEngineDetails c name with
  | Err err =>
      if negb (isNotFound err) then Err (Wrapf "failed to get target engine" err)
      else if negb (CreateIfMissing opts)
      then Err (Errorf ("engine " ++ name ++ " not found and create option disabled")%string)
      else Ok (None, None)
  | Ok engine =>
      match ListAgents c name with
      | Err err => Err (Wrapf "failed to list agents for target engine" err)
      | Ok agents => Ok (Some engine, agents)
      end
  end.

(** [RestoreEngineSnapshot(snapshot, opts)]: [op] is the iteration order
    of the preview's agent maps, [os] the one of [syncAgentsWithSnapshot].
    Returns what the function returns and the write calls it issued. *)
Definition RestoreEngineSnapshot (snapshot : option EngineSnapshot)
    (opts : SnapshotRestoreOptions) (op os : RangeOrder) : RestoreOut * list WriteCall :=
  match snapshot with
  | None => (Returned None emptyDiff (Some (Errorf "snapshot is nil")), [])
  | Some snap =>
      if String.eqb (TargetEngineName opts) "" then
        (Returned None emptyDiff (Some (Errorf "target engine name is required")), [])
      else
        match resolveTarget opts with
        | Err e => (Returned None emptyDiff (Some e), [])
        | Ok (existingEngine, existingAgents) =>
            let currentDiff := previewDiff snap existingEngine existingAgents op in
            if DryRun opts then (Returned None currentDiff None, [])
            else
              match applySnapshot snap opts existingEngine existingAgents os [] with
              | (Done result, tr) => (Returned (Some result) currentDiff None, tr)
              | (Failed e, tr) => (Returned None currentDiff (Some e), tr)
              | (Crashed, tr) => (Panicked, tr)
              end
        end
  end.
(** [CreateEngineSnapshot(engineName)], read on values: the snapshot it
    returns (the sharing of references with the engine is the subject of
    [Heap.configSnapshot]). *)
Definition CreateEngineSnapshot (engineName : string) : res EngineSnapshot :=
  match GetEngineDetails c engineName with
  | Err err => Err (Wrapf "failed to get engine details" err)
  | Ok engine =>
      match ListAgents c engineName with
      | Err err => Err (Wrapf "failed to list agents" err)
      | Ok agents =>
          let engineID := extractResourceID (e_Name engine) in
          Ok {| Metadata := {| md_Version := snapshotVersion;
                               md_OriginalEngineName := e_Name engine;
                               md_OriginalEngineID := engineID;
                               md_SourceProjectID := ProjectID c;
                               md_SourceLocation := Location c;
                               md_SourceCollection := Collection c;
                               md_TakenAt := clock_now c;
                               md_DisplayName := e_DisplayName engine;
                               md_Description := ""; md_Notes := "" |};
                EngineCfg := {| ec_DisplayName := e_DisplayName engine;
                                ec_SolutionType := e_SolutionType engine;
                                ec_IndustryVertical := e_IndustryVertical engine;
                                ec_AppType := e_AppType engine;
                                ec_DataStoreIds := Some (elems (e_DataStoreIds engine));
                                ec_CommonConfig := e_CommonConfig engine;
                                ec_Features := e_Features engine;
                                ec_SearchConfig := e_SearchEngineConfig engine |};
                Agents := cloneAgents agents |}
      end
  end.

(** [DiffSnapshotWithEngine(snapshot, engineName)] for a non-nil snapshot;
    [o] is the iteration order of the agent maps of [diffAgents]. *)
Definition DiffSnapshotWithEngine (snapshot : EngineSnapshot) (engineName : string) (o : RangeOrder)
    : SnapshotDiff * option GoErr :=
  match GetEngineDetails c engineName with
  | Err err => (emptyDiff, Some (Wrapf "failed to get engine details" err))
  | Ok engine =>
      match ListAgents c engineName with
      | Err err => (emptyDiff, Some (Wrapf "failed to list agents" err))
      | Ok agents => (DiffSnapshots fmt_v snapshot (liveSnapshot engine agents) o, None)
      end
  end.
End Restore.

(** The value a [FieldDiff] of [diffEngineConfig] or [diffMetadata]
    reports for the field it names. *)
Definition engine_field (name : string) (cfg : EngineConfigSnapshot) : fval :=
  if String.eqb name "displayName" then FStr (ec_DisplayName cfg)
  else if String.eqb name "solutionType" then FStr (ec_SolutionType cfg)
  else if String.eqb name "industryVertical" then FStr (ec_IndustryVertical cfg)
  else if String.eqb name "appType" then FStr (ec_AppType cfg)
  else if String.eqb name "dataStoreIds" then FSlice (ec_DataStoreIds cfg)
  else if String.eqb name "commonConfig" then FMap (ec_CommonConfig cfg)
  else FSearch (ec_SearchConfig cfg).

Definition metadata_field (name : string) (md : SnapshotMetadata) : fval :=
  if String.eqb name "displayName" then FStr (md_DisplayName md)
  else if String.eqb name "description" then FStr (md_Description md)
  else FStr (md_Notes md).

(** The error classes of the spec's taxonomy, read on the errors the code
    builds: a 404 of the API (possibly wrapped) is NotFound, an error of the
    function's own checks ([fmt.Errorf] without [%w]) is
    PreconditionFailed, a wrapped failure of an API call is Transport. *)
Inductive ErrorClass := NotFoundClass | PreconditionFailedClass | TransportClass.

Definition error_class (e : GoErr) : ErrorClass :=
  if isNotFound e then NotFoundClass
  else match e with
       | Errorf _ => PreconditionFailedClass
       | _ => TransportClass
       end.

(** The identity key as the spec words it: the lowercase of the first
    non-empty of external-agent link, display name and server name, and
    the empty string when there is none (or no agent). *)
Fixpoint first_nonempty (l : list string) : string :=
  match l with
  | [] => ""
  | s :: r => if String.eqb s "" then first_nonempty r else s
  end.

Definition key_candidates (agent : option Agent) : list string :=
  match agent with
  | None => []
  | Some a =>
      [match a_DialogflowAgentDefinition a with Some d => DialogflowAgent d | None => "" end;
       a_DisplayName a; a_Name a]
  end.

Definition agent_key_spec (agent : option Agent) : string :=
  ToLower (first_nonempty (key_candidates agent)).

(** ** Concrete inputs *)

Definition engineName0 : string := "projects/p/locations/global/collections/default_collection/engines/e".

(** A live engine with one feature flag on. *)
Definition engine0 : Engine :=
  {| e_Name := engineName0; e_DisplayName := "Support"; e_SolutionType := "SOLUTION_TYPE_SEARCH";
     e_IndustryVertical := "GENERIC"; e_AppType := ""; e_DataStoreIds := None;
     e_CommonConfig := None; e_Features := Some {["agent-gallery" := "ON"]};
     e_SearchEngineConfig := None |}.

Definition metadata0 : SnapshotMetadata :=
  {| md_Version := "v1"; md_OriginalEngineName := engineName0; md_OriginalEngineID := "e";
     md_SourceProjectID := "p"; md_SourceLocation := "global";
     md_SourceCollection := "default_collection"; md_TakenAt := "2025-01-01T00:00:00Z";
     md_DisplayName := "Support"; md_Description := ""; md_Notes := "" |}.

(** A snapshot of [engine0] (no agents). *)
Definition snapshot0 : EngineSnapshot :=
  {| Metadata := metadata0;
     EngineCfg := {| ec_DisplayName := "Support"; ec_SolutionType := "SOLUTION_TYPE_SEARCH";
                     ec_IndustryVertical := "GENERIC"; ec_AppType := ""; ec_DataStoreIds := None;
                     ec_CommonConfig := None; ec_Features := Some {["agent-gallery" := "ON"]};
                     ec_SearchConfig := None |};
     Agents := None |}.

(** [snapshot0] with the flag turned off. *)
Definition snapshot_off : EngineSnapshot :=
  {| Metadata := metadata0;
     EngineCfg := {| ec_DisplayName := "Support"; ec_SolutionType := "SOLUTION_TYPE_SEARCH";
                     ec_IndustryVertical := "GENERIC"; ec_AppType := ""; ec_DataStoreIds := None;
                     ec_CommonConfig := None; ec_Features := Some {["agent-gallery" := "OFF"]};
                     ec_SearchConfig := None |};
     Agents := None |}.

(** A client whose target is [engine0] with no agents and whose writes all succeed. *)
Definition client0 : GeminiClient :=
  {| GetEngineDetails := fun _ => Ok engine0; ListAgents := fun _ => Ok None;
     write_resp := fun _ => None; ProjectID := "p"; Location := "global";
     Collection := "default_collection"; clock_now := "2025-01-02T00:00:00Z" |}.

(** A client whose target engine does not exist (the API answers 404). *)
Definition client_missing : GeminiClient :=
  {| GetEngineDetails := fun _ => Err (ApiError 404 "not found"); ListAgents := fun _ => Ok None;
     write_resp := fun _ => None; ProjectID := "p"; Location := "global";
     Collection := "default_collection"; clock_now := "2025-01-02T00:00:00Z" |}.

Definition no_order : RangeOrder := {| ord_desired := []; ord_current := [] |}.

Definition opts0 (createIfMissing updateExisting dryRun : bool) : SnapshotRestoreOptions :=
  {| TargetEngineName := engineName0; CreateIfMissing := createIfMissing;
     UpdateExisting := updateExisting; DryRun := dryRun |}.

(** A [%v] formatting of values, enough for the concrete inputs. *)
Definition fmt0 (v : goval) : string :=
  match v with
  | GString s => s
  | GBool true => "true"
  | GBool false => "false"
  | GNil => "<nil>"
  | _ => "?"
  end.

(** An agent with the given server name, display name, external link and
    reasoning engine, and nothing else set. *)
Definition agent_with (name display link reasoning : string) : Agent :=
  {| a_Name := name; a_DisplayName := display; a_Description := ""; a_Icon := None;
     a_DialogflowAgentDefinition :=
       if String.eqb link "" then None else Some {| DialogflowAgent := link |};
     a_ReasoningEngine := reasoning; a_CreateTime := ""; a_UpdateTime := "";
     a_ConnectorDefinition := None; a_AdditionalAgentProperties := None;
     a_Annotations := None; a_Labels := None; a_EnvironmentConfigurations := None;
     a_AgentMonitoringState := None; a_Capabilities := None; a_Metadata := None |}.

Definition with_agents (s : EngineSnapshot) (agents : goslice (option Agent)) : EngineSnapshot :=
  {| Metadata := Metadata s; EngineCfg := EngineCfg s; Agents := agents |}.

Definition reasoningEngine1 : string := "projects/p/locations/us-central1/reasoningEngines/1".

(** ** References: the engine as Go holds it in memory

    Slices, maps and pointers are references in Go. In this model each of
    them is a location of a heap; the record fields hold locations, [None]
    standing for nil. The element array behind a slice is one cell. *)
Module Heap.

Abbreviation loc := positive (only parsing).

Record SearchEngineConfigRef := {
  hs_SearchTier : string;
  hs_SearchAddOns : option loc
}.

Inductive cell :=
| CStrSlice (xs : list string)
| CStrMap (m : gmap string string)
| CIfaceMap (m : gmap string goval)
| CSearch (s : SearchEngineConfigRef).

Abbreviation heap := (gmap loc cell) (only parsing).

(** [make] / a composite literal: a cell at a location not in use. *)
Definition alloc (h : heap) (c : cell) : heap * loc :=
  let l := fresh (dom h) in (<[l := c]> h, l).

Record EngineRef := {
  he_Name : string;
  he_DisplayName : string;
  he_SolutionType : string;
  he_IndustryVertical : string;
  he_AppType : string;
  he_DataStoreIds : option loc;
  he_CommonConfig : option loc;
  he_Features : option loc;
  he_SearchEngineConfig : option loc
}.

Record EngineConfigSnapshotRef := {
  hc_DisplayName : string;
  hc_SolutionType : string;
  hc_IndustryVertical : string;
  hc_AppType : string;
  hc_DataStoreIds : option loc;
  hc_CommonConfig : option loc;
  hc_Features : option loc;
  hc_SearchConfig : option loc
}.

Definition read_slice (h : heap) (p : option loc) : list string :=
  match p with
  | Some l => match h !! l with Some (CStrSlice xs) => xs | _ => [] end
  | None => []
  end.

(** [append([]string{}, src...)]: a new slice, never nil. *)
Definition append_strings (h : heap) (src : option loc) : heap * option loc :=
  let '(h', l) := alloc h (CStrSlice (read_slice h src)) in (h', Some l).

(** [cloneStringMap] *)
Definition cloneStringMap (h : heap) (src : option loc) : heap * option loc :=
  match src with
  | None => (h, None)
  | Some l =>
      let m := match h !! l with Some (CStrMap m) => m | _ => ∅ end in
      let '(h', l') := alloc h (CStrMap m) in (h', Some l')
  end.

(** [cloneStringInterfaceMap]: the entries are copied one by one; the
    values themselves are not cloned. *)
Definition cloneStringInterfaceMap (h : heap) (src : option loc) : heap * option loc :=
  match src with
  | None => (h, None)
  | Some l =>
      let m := match h !! l with Some (CIfaceMap m) => m | _ => ∅ end in
      let '(h', l') := alloc h (CIfaceMap m) in (h', Some l')
  end.

(** The [configSnapshot] literal of [CreateEngineSnapshot]. *)
Definition configSnapshot (h : heap) (engine : EngineRef) : heap * EngineConfigSnapshotRef :=
  let '(h1, ds) := append_strings h (he_DataStoreIds engine) in
  let '(h2, cc) := cloneStringInterfaceMap h1 (he_CommonConfig engine) in
  let '(h3, fs) := cloneStringMap h2 (he_Features engine) in
  (h3, {| hc_DisplayName := he_DisplayName engine;
          hc_SolutionType := he_SolutionType engine;
          hc_IndustryVertical := he_IndustryVertical engine;
          hc_AppType := he_AppType engine;
          hc_DataStoreIds := ds;
          hc_CommonConfig := cc;
          hc_Features := fs;
          hc_SearchConfig := he_SearchEngineConfig engine |}).

(** [engine.SearchEngineConfig.SearchTier = tier] *)
Definition setSearchTier (h : heap) (p : option loc) (tier : string) : heap :=
  match p with
  | Some l => match h !! l with
              | Some (CSearch s) => <[l := CSearch {| hs_SearchTier := tier; hs_SearchAddOns := hs_SearchAddOns s |}]> h
              | _ => h
              end
  | None => h
  end.

(** What the snapshot holds when it is read (or serialized): the value of
    the earlier model. *)
Definition read_slice_go (h : heap) (p : option loc) : goslice string :=
  match p with
  | Some l => match h !! l with Some (CStrSlice xs) => Some xs | _ => None end
  | None => None
  end.

Definition view_config (h : heap) (c : EngineConfigSnapshotRef) : EngineConfigSnapshot :=
  {| ec_DisplayName := hc_DisplayName c;
     ec_SolutionType := hc_SolutionType c;
     ec_IndustryVertical := hc_IndustryVertical c;
     ec_AppType := hc_AppType c;
     ec_DataStoreIds := read_slice_go h (hc_DataStoreIds c);
     ec_CommonConfig :=
       match hc_CommonConfig c with
       | Some l => match h !! l with Some (CIfaceMap m) => Some m | _ => None end
       | None => None
       end;
     ec_Features :=
       match hc_Features c with
       | Some l => match h !! l with Some (CStrMap m) => Some m | _ => None end
       | None => None
       end;
     ec_SearchConfig :=
       match hc_SearchConfig c with
       | Some l => match h !! l with
                   | Some (CSearch s) =>
                       Some {| SearchTier := hs_SearchTier s;
                               SearchAddOns := read_slice_go h (hs_SearchAddOns s) |}
                   | _ => None
                   end
       | None => None
       end |}.

(** An engine in memory: its search config at location 3, with a
    data-store slice, a common-config map and a features map. *)
Definition heap0 : heap :=
  <[1%positive := CStrSlice ["ds1"]]> (
  <[2%positive := CIfaceMap {[ "k" := GString "v" ]}]> (
  <[3%positive := CSearch {| hs_SearchTier := "SEARCH_TIER_STANDARD"; hs_SearchAddOns := None |}]> (
  <[4%positive := CStrMap {[ "agent-gallery" := "ON" ]}]> ∅))).

Definition engine_h0 : EngineRef :=
  {| he_Name := engineName0; he_DisplayName := "Support"; he_SolutionType := "SOLUTION_TYPE_SEARCH";
     he_IndustryVertical := "GENERIC"; he_AppType := "APP_TYPE_INTRANET";
     he_DataStoreIds := Some 1%positive; he_CommonConfig := Some 2%positive;
     he_Features := Some 4%positive; he_SearchEngineConfig := Some 3%positive |}.

End Heap.

(** ** The JSON encoding of a snapshot

    [MarshalJSONBytes] is [json.MarshalIndent] and [LoadEngineSnapshot] is
    [json.Unmarshal]. Both are modelled on the JSON value the text stands
    for: the indentation is layout only, and the text of a string is taken
    to be the string itself (the strings are valid UTF-8). *)
Module Json.

Inductive json : Type :=
| JNull
| JBool (b : bool)
| JNum (z : Z)
| JStr (s : string)
| JArr (l : list json)
| JObj (kvs : list (string * json)).

(** *** Strings

    [encoding/json] writes a string byte by byte, and a byte that does not
    start a valid UTF-8 sequence ([utf8.DecodeRuneInString] gives
    [RuneError] of size 1) is written as U+FFFD ([encodeState.string]);
    [Unmarshal] treats every string and key it reads the same way
    ([unquote]). *)
Fixpoint coerceUTF8_fuel (fuel : nat) (s : string) : string :=
  match fuel, s with
  | S n, String _ _ =>
      let '(c, size) := decodeRune s in
      if (c =? RuneError)%Z && Nat.eqb size 1
      then (encodeRune RuneError ++ coerceUTF8_fuel n (str_drop 1 s))%string
      else (str_take size s ++ coerceUTF8_fuel n (str_drop size s))%string
  | _, _ => EmptyString
  end.

Definition coerceUTF8 (s : string) : string := coerceUTF8_fuel (String.length s) s.

(** [utf8.ValidString]: the same loop meets no invalid byte. *)
Fixpoint validUTF8_fuel (fuel : nat) (s : string) : bool :=
  match fuel, s with
  | S n, String _ _ =>
      let '(c, size) := decodeRune s in
      negb ((c =? RuneError)%Z && Nat.eqb size 1) && validUTF8_fuel n (str_drop size s)
  | _, _ => true
  end.

Definition ValidString (s : string) : bool := validUTF8_fuel (String.length s) s.

(** *** Encoding *)

(** The members of a map are written in increasing order of their keys
    compared as byte strings (the keys of a Go map are distinct). *)
Fixpoint insert_by_key {V} (kv : string * V) (l : list (string * V)) : list (string * V) :=
  match l with
  | [] => [kv]
  | kv' :: l' => if String.leb kv.1 kv'.1 then kv :: l else kv' :: insert_by_key kv l'
  end.

Definition sort_by_key {V} (l : list (string * V)) : list (string * V) :=
  fold_right insert_by_key [] l.

Definition enc_str (s : string) : json := JStr (coerceUTF8 s).

(** A Go value in an [interface{}]: numbers are written as they are. *)
Fixpoint encodeValue (v : goval) : json :=
  match v with
  | GInt z => JNum z
  | GFloat z => JNum z
  | GString s => enc_str s
  | GBool b => JBool b
  | GNil => JNull
  | GSlice l => JArr (map encodeValue l)
  | GObject kvs =>
      JObj (map (fun kv => (coerceUTF8 kv.1, kv.2))
              (sort_by_key (map (fun kv => (kv.1, encodeValue kv.2)) kvs)))
  end.

(** An object: its members in the order of the struct's fields, a member
    left out when its value is [None]. *)
Definition member (name : string) (o : option json) : list (string * json) :=
  match o with None => [] | Some j => [(name, j)] end.

Definition obj_fields (fs : list (string * option json)) : list (string * json) :=
  flat_map (fun f => member f.1 f.2) fs.

(** The values an optional member gives: none or one. *)
Definition opt_list {A} (o : option A) : list A :=
  match o with Some x => [x] | None => [] end.

(** [omitempty] on a string, a slice, a map and a pointer: left out when
    [""], of length 0, of length 0, and nil. *)
Definition omit_str (s : string) : option json :=
  if String.eqb s "" then None else Some (enc_str s).

Definition enc_slice {A} (f : A -> json) (s : goslice A) : json :=
  match s with None => JNull | Some l => JArr (map f l) end.

Definition omit_slice {A} (f : A -> json) (s : goslice A) : option json :=
  if Nat.eqb (length (elems s)) 0 then None else Some (enc_slice f s).

Definition enc_map {V} (f : V -> json) (m : gomap V) : json :=
  match m with
  | None => JNull
  | Some m' => JObj (map (fun kv => (coerceUTF8 kv.1, f kv.2)) (sort_by_key (map_to_list m')))
  end.

Definition omit_map {V} (f : V -> json) (m : gomap V) : option json :=
  if Nat.eqb (size (mentries m)) 0 then None else Some (enc_map f m).

Definition omit_ptr {A} (f : A -> json) (p : option A) : option json :=
  option_map f p.

Definition encodeIcon (i : AgentIcon) : json :=
  JObj (obj_fields [("uri", omit_str (URI i)); ("content", omit_str (Content i))]).

Definition encodeDialogflow (d : DialogflowAgentDefinition) : json :=
  JObj (obj_fields [("dialogflowAgent", omit_str (DialogflowAgent d))]).

Definition encodeAgent (a : Agent) : json :=
  JObj (obj_fields
    [("name", omit_str (a_Name a));
     ("displayName", omit_str (a_DisplayName a));
     ("description", omit_str (a_Description a));
     ("icon", omit_ptr encodeIcon (a_Icon a));
     ("dialogflowAgentDefinition", omit_ptr encodeDialogflow (a_DialogflowAgentDefinition a));
     ("reasoningEngine", omit_str (a_ReasoningEngine a));
     ("createTime", omit_str (a_CreateTime a));
     ("updateTime", omit_str (a_UpdateTime a));
     ("connectorDefinition", omit_map encodeValue (a_ConnectorDefinition a));
     ("additionalAgentProperties", omit_map encodeValue (a_AdditionalAgentProperties a));
     ("annotations", omit_map enc_str (a_Annotations a));
     ("labels", omit_map enc_str (a_Labels a));
     ("environmentConfigurations", omit_slice (enc_map encodeValue) (a_EnvironmentConfigurations a));
     ("agentMonitoringState", omit_map encodeValue (a_AgentMonitoringState a));
     ("capabilities", omit_slice enc_str (a_Capabilities a));
     ("metadata", omit_map encodeValue (a_Metadata a))]).

(** The value the field list gives a member name: the first field of that
    name. *)
Fixpoint field_of (n : string) (fs : list (string * option json)) : option json :=
  match fs with
  | [] => None
  | (k, o) :: fs' => if String.eqb k n then o else field_of n fs'
  end.

(** An element of [[]*Agent]. *)
Definition encodeAgentPtr (p : option Agent) : json :=
  match p with None => JNull | Some a => encodeAgent a end.

Definition encodeMetadata (m : SnapshotMetadata) : json :=
  JObj (obj_fields
    [("version", Some (enc_str (md_Version m)));
     ("originalEngineName", Some (enc_str (md_OriginalEngineName m)));
     ("originalEngineId", Some (enc_str (md_OriginalEngineID m)));
     ("sourceProjectId", Some (enc_str (md_SourceProjectID m)));
     ("sourceLocation", Some (enc_str (md_SourceLocation m)));
     ("sourceCollection", Some (enc_str (md_SourceCollection m)));
     ("takenAt", Some (enc_str (md_TakenAt m)));
     ("displayName", omit_str (md_DisplayName m));
     ("description", omit_str (md_Description m));
     ("notes", omit_str (md_Notes m))]).

(** *** Decoding

    [json.Unmarshal] decodes into an existing Go value: each decoder below
    takes the value decoded into and gives the value after decoding
    ([None] is a decode error; [Unmarshal] goes on after a type error but
    still fails at the end). *)

Definition traverse {A B} (f : A -> option B) : list A -> option (list B) :=
  fix go l := match l with
              | [] => Some []
              | x :: l' => match f x, go l' with
                           | Some y, Some ys => Some (y :: ys)
                           | _, _ => None
                           end
              end.

(** A JSON number read into an [interface{}]: the nearest [float64]
    (ties to even), and an error when it is out of range. *)
Definition float64_of (z : Z) : option Z :=
  (if Z.abs z <=? 2 ^ 53 then Some z else
   let m := Z.abs z in
   let sh := Z.log2 m - 52 in
   let q := m / 2 ^ sh in
   let r := m mod 2 ^ sh in
   let half := 2 ^ (sh - 1) in
   let q' := if (half <? r) || ((r =? half) && Z.odd q) then q + 1 else q in
   let v := q' * 2 ^ sh in
   if 2 ^ 1024 <=? v then None else Some (Z.sgn z * v))%Z.

(** Setting key [k] of the [map[string]interface{}] an object becomes,
    its entries listed in increasing key order. *)
Fixpoint assoc_insert (k : string) (v : goval) (l : list (string * goval)) : list (string * goval) :=
  match l with
  | [] => [(k, v)]
  | (k', v') :: l' =>
      if String.eqb k k' then (k, v) :: l'
      else if String.ltb k k' then (k, v) :: l
      else (k', v') :: assoc_insert k v l'
  end.

(** [json.Unmarshal] into a nil [interface{}] ([valueInterface]): an
    array becomes a new [[]interface{}], an object a new
    [map[string]interface{}] filled member by member (a repeated key keeps
    its last value). *)
Fixpoint decodeValue (j : json) : option goval :=
  match j with
  | JNull => Some GNil
  | JBool b => Some (GBool b)
  | JNum z => option_map GFloat (float64_of z)
  | JStr s => Some (GString (coerceUTF8 s))
  | JArr l => option_map GSlice (traverse decodeValue l)
  | JObj kvs =>
      option_map (fun vs => GObject (fold_left (fun acc kv => assoc_insert (coerceUTF8 kv.1) kv.2 acc) vs []))
        (traverse (fun kv => option_map (fun y => (kv.1, y)) (decodeValue kv.2)) kvs)
  end.

(** An element of a [map[string]interface{}] starts as a nil
    [interface{}], which decoding replaces by a new value. *)
Definition dec_iface (_ : goval) (j : json) : option goval := decodeValue j.

(** A string: [null] leaves it as it is. *)
Definition dec_str (cur : string) (j : json) : option string :=
  match j with
  | JNull => Some cur
  | JStr s => Some (coerceUTF8 s)
  | _ => None
  end.

(** Decoding the members that go to one field, one after the other, into
    that field. *)
Fixpoint dec_all {A} (f : A -> json -> option A) (cur : A) (js : list json) : option A :=
  match js with
  | [] => Some cur
  | j :: js' => match f cur j with Some x => dec_all f x js' | None => None end
  end.

(** A map: [null] makes it nil; an object keeps the map when it is not
    nil (a new one otherwise) and sets the key of each member, the element
    decoded into a new zero value. *)
Definition dec_map {V} (zero : V) (f : V -> json -> option V) (cur : gomap V) (j : json) : option (gomap V) :=
  match j with
  | JNull => Some None
  | JObj kvs =>
      option_map (fun vs => Some (foldl (fun m kv => <[coerceUTF8 kv.1 := kv.2]> m) (mentries cur) vs))
        (traverse (fun kv => option_map (fun v => (kv.1, v)) (f zero kv.2)) kvs)
  | _ => None
  end.

(** A pointer: [null] makes it nil; anything else is decoded into the
    value it points to, a new zero value when it is nil. *)
Definition dec_ptr {A} (zero : A) (f : A -> json -> option A) (cur : option A) (j : json) : option (option A) :=
  match j with
  | JNull => Some None
  | _ => option_map Some (f (match cur with Some x => x | None => zero end) j)
  end.

(** A slice as [encoding/json] fills it: its elements, and the slots of
    its backing array past its length, which decoding an array into the
    same slice reuses. *)
Record slice_st (A : Type) := mk_slice { sl : goslice A; stale : list A }.
Arguments mk_slice {A}.
Arguments sl {A}.
Arguments stale {A}.

(** [grow size c] is the capacity [reflect.Value.Grow(1)] gives a full
    slice of capacity [c] whose elements take [size] bytes; the runtime
    guarantees room for one more element. *)
Definition grown (grow : nat -> nat -> nat) (size c : nat) : nat := Nat.max (grow size c) (S c).

(** The loop of [decodeState.array] on a slice: element [i] is decoded
    into slot [i] of the backing array, which grows when [i] reaches its
    capacity (new slots are zero values). *)
Fixpoint dec_elems {A} (grow : nat -> nat -> nat) (size : nat) (zero : A) (f : A -> json -> option A)
    (i : nat) (backing : list A) (js : list json) : option (list A) :=
  match js with
  | [] => Some backing
  | j :: js' =>
      let backing := if Nat.ltb i (length backing) then backing
                     else backing ++ replicate (grown grow size (length backing) - length backing) zero in
      match f (default zero (backing !! i)) j with
      | Some x => dec_elems grow size zero f (S i) (<[i := x]> backing) js'
      | None => None
      end
  end.

(** A slice: [null] makes it nil, [[]] a new empty slice; otherwise its
    length becomes the number of elements, the slots past it stay in the
    backing array. *)
Definition dec_slice {A} (grow : nat -> nat -> nat) (size : nat) (zero : A) (f : A -> json -> option A)
    (cur : slice_st A) (j : json) : option (slice_st A) :=
  match j with
  | JNull => Some (mk_slice None [])
  | JArr [] => Some (mk_slice (Some []) [])
  | JArr js =>
      option_map (fun b => mk_slice (Some (take (length js) b)) (drop (length js) b))
        (dec_elems grow size zero f 0 (elems (sl cur) ++ stale cur) js)
  | _ => None
  end.

(** The struct field a member goes to ([decodeState.object]): the field
    of exactly that name, else the first whose name equals the key up to
    case folding ([foldName]). The field names here are ASCII, and the only
    runes that fold to an ASCII letter are the ASCII letters, U+212A
    (Kelvin sign, to [K]) and U+017F (long s, to [S]); every other
    non-ASCII rune folds to a non-ASCII rune, shown as [None]. *)
Definition foldRuneAscii (r : Z) : option Z :=
  if (r <? RuneSelf)%Z then Some (if (97 <=? r)%Z && (r <=? 122)%Z then (r - 32)%Z else r)
  else if (r =? 0x212A)%Z then Some 75%Z
  else if (r =? 0x17F)%Z then Some 83%Z
  else None.

Definition foldName (s : string) : list (option Z) := map foldRuneAscii (runes s).

Definition fieldFor (names : list string) (key : string) : option string :=
  if existsb (String.eqb key) names then Some key
  else List.find (fun n => bool_decide (foldName n = foldName key)) names.

(** The values of the members of an object that go to field [n] of a
    struct with field names [names], in order; a member of no field is
    skipped. Decoding field by field gives what [Unmarshal]'s single pass
    over the members gives: a member only writes its own field. *)
Definition members (names : list string) (n : string) (kvs : list (string * json)) : list json :=
  map snd (List.filter (fun kv => bool_decide (fieldFor names (coerceUTF8 kv.1) = Some n)) kvs).

Definition iconFields : list string := ["uri"; "content"].

Definition iconZero : AgentIcon := {| URI := ""; Content := "" |}.

(** A struct: [null] leaves it as it is. *)
Definition decodeIconInto (cur : AgentIcon) (j : json) : option AgentIcon :=
  match j with
  | JNull => Some cur
  | JObj kvs =>
      match dec_all dec_str (URI cur) (members iconFields "uri" kvs),
            dec_all dec_str (Content cur) (members iconFields "content" kvs) with
      | Some u, Some c => Some {| URI := u; Content := c |}
      | _, _ => None
      end
  | _ => None
  end.

Definition dialogflowFields : list string := ["dialogflowAgent"].

Definition dialogflowZero : DialogflowAgentDefinition := {| DialogflowAgent := "" |}.

Definition decodeDialogflowInto (cur : DialogflowAgentDefinition) (j : json)
    : option DialogflowAgentDefinition :=
  match j with
  | JNull => Some cur
  | JObj kvs =>
      option_map (fun d => {| DialogflowAgent := d |})
        (dec_all dec_str (DialogflowAgent cur) (members dialogflowFields "dialogflowAgent" kvs))
  | _ => None
  end.

(** An [Agent] being decoded, with the spare slots of its two slices. *)
Record AgentSt := mkAgentSt {
  ag : Agent;
  envStale : list (gomap goval);
  capStale : list string
}.

Definition agentZero : AgentSt :=
  mkAgentSt {| a_Name := ""; a_DisplayName := ""; a_Description := ""; a_Icon := None;
               a_DialogflowAgentDefinition := None; a_ReasoningEngine := ""; a_CreateTime := "";
               a_UpdateTime := ""; a_ConnectorDefinition := None; a_AdditionalAgentProperties := None;
               a_Annotations := None; a_Labels := None; a_EnvironmentConfigurations := None;
               a_AgentMonitoringState := None; a_Capabilities := None; a_Metadata := None |} [] [].

Definition agentFields : list string :=
  ["name"; "displayName"; "description"; "icon"; "dialogflowAgentDefinition"; "reasoningEngine";
   "createTime"; "updateTime"; "connectorDefinition"; "additionalAgentProperties"; "annotations";
   "labels"; "environmentConfigurations"; "agentMonitoringState"; "capabilities"; "metadata"].

(** Element sizes in bytes: a string takes 16, a pointer or a map 8. *)
Definition decodeAgentInto (grow : nat -> nat -> nat) (cur : AgentSt) (j : json) : option AgentSt :=
  match j with
  | JNull => Some cur
  | JObj kvs =>
      let a := ag cur in
      match dec_all dec_str (a_Name a) (members agentFields "name" kvs),
            dec_all dec_str (a_DisplayName a) (members agentFields "displayName" kvs),
            dec_all dec_str (a_Description a) (members agentFields "description" kvs),
            dec_all (dec_ptr iconZero decodeIconInto) (a_Icon a) (members agentFields "icon" kvs),
            dec_all (dec_ptr dialogflowZero decodeDialogflowInto) (a_DialogflowAgentDefinition a)
              (members agentFields "dialogflowAgentDefinition" kvs),
            dec_all dec_str (a_ReasoningEngine a) (members agentFields "reasoningEngine" kvs),
            dec_all dec_str (a_CreateTime a) (members agentFields "createTime" kvs),
            dec_all dec_str (a_UpdateTime a) (members agentFields "updateTime" kvs) with
      | Some nm, Some dn, Some ds, Some ic, Some df, Some re, Some ct, Some ut =>
          match dec_all (dec_map GNil dec_iface) (a_ConnectorDefinition a)
                  (members agentFields "connectorDefinition" kvs),
                dec_all (dec_map GNil dec_iface) (a_AdditionalAgentProperties a)
                  (members agentFields "additionalAgentProperties" kvs),
                dec_all (dec_map "" dec_str) (a_Annotations a) (members agentFields "annotations" kvs),
                dec_all (dec_map "" dec_str) (a_Labels a) (members agentFields "labels" kvs),
                dec_all (dec_slice grow 8 None (dec_map GNil dec_iface))
                  (mk_slice (a_EnvironmentConfigurations a) (envStale cur))
                  (members agentFields "environmentConfigurations" kvs),
                dec_all (dec_map GNil dec_iface) (a_AgentMonitoringState a)
                  (members agentFields "agentMonitoringState" kvs),
                dec_all (dec_slice grow 16 "" dec_str) (mk_slice (a_Capabilities a) (capStale cur))
                  (members agentFields "capabilities" kvs),
                dec_all (dec_map GNil dec_iface) (a_Metadata a) (members agentFields "metadata" kvs) with
          | Some cd, Some ap, Some an, Some lb, Some ev, Some ms, Some cp, Some md =>
              Some (mkAgentSt
                {| a_Name := nm; a_DisplayName := dn; a_Description := ds; a_Icon := ic;
                   a_DialogflowAgentDefinition := df; a_ReasoningEngine := re;
                   a_CreateTime := ct; a_UpdateTime := ut; a_ConnectorDefinition := cd;
                   a_AdditionalAgentProperties := ap; a_Annotations := an; a_Labels := lb;
                   a_EnvironmentConfigurations := sl ev; a_AgentMonitoringState := ms;
                   a_Capabilities := sl cp; a_Metadata := md |} (stale ev) (stale cp))
          | _, _, _, _, _, _, _, _ => None
          end
      | _, _, _, _, _, _, _, _ => None
      end
  | _ => None
  end.

Definition metadataFields : list string :=
  ["version"; "originalEngineName"; "originalEngineId"; "sourceProjectId"; "sourceLocation";
   "sourceCollection"; "takenAt"; "displayName"; "description"; "notes"].

Definition metadataZero : SnapshotMetadata :=
  {| md_Version := ""; md_OriginalEngineName := ""; md_OriginalEngineID := "";
     md_SourceProjectID := ""; md_SourceLocation := ""; md_SourceCollection := "";
     md_TakenAt := ""; md_DisplayName := ""; md_Description := ""; md_Notes := "" |}.

Definition decodeMetadataInto (cur : SnapshotMetadata) (j : json) : option SnapshotMetadata :=
  match j with
  | JNull => Some cur
  | JObj kvs =>
      match dec_all dec_str (md_Version cur) (members metadataFields "version" kvs),
            dec_all dec_str (md_OriginalEngineName cur) (members metadataFields "originalEngineName" kvs),
            dec_all dec_str (md_OriginalEngineID cur) (members metadataFields "originalEngineId" kvs),
            dec_all dec_str (md_SourceProjectID cur) (members metadataFields "sourceProjectId" kvs),
            dec_all dec_str (md_SourceLocation cur) (members metadataFields "sourceLocation" kvs) with
      | Some v, Some en, Some ei, Some pr, Some lo =>
          match dec_all dec_str (md_SourceCollection cur) (members metadataFields "sourceCollection" kvs),
                dec_all dec_str (md_TakenAt cur) (members metadataFields "takenAt" kvs),
                dec_all dec_str (md_DisplayName cur) (members metadataFields "displayName" kvs),
                dec_all dec_str (md_Description cur) (members metadataFields "description" kvs),
                dec_all dec_str (md_Notes cur) (members metadataFields "notes" kvs) with
          | Some co, Some ta, Some dn, Some de, Some no =>
              Some {| md_Version := v; md_OriginalEngineName := en; md_OriginalEngineID := ei;
                      md_SourceProjectID := pr; md_SourceLocation := lo; md_SourceCollection := co;
                      md_TakenAt := ta; md_DisplayName := dn; md_Description := de; md_Notes := no |}
          | _, _, _, _, _ => None
          end
      | _, _, _, _, _ => None
      end
  | _ => None
  end.

(** *** The search config

    [SearchConfig] has the type [GoogleCloudDiscoveryengineV1EngineSearchEngineConfig]
    of the Discovery Engine client library, whose JSON methods and fields
    are not part of this repository: the embedding takes its codec as a
    parameter. [encodeSearch] is the JSON the library writes for a config;
    [decodeSearchInto] decodes into a value of the library's type
    ([SearchSt]), of which snapshot.go reads the fields [search_view]
    gives. *)
Record SearchCodec := {
  SearchSt : Type;
  search_zero : SearchSt;
  search_view : SearchSt -> SearchEngineConfig;
  encodeSearch : SearchEngineConfig -> json;
  decodeSearchInto : SearchSt -> json -> option SearchSt
}.

Definition encodeEngineConfig (c : SearchCodec) (e : EngineConfigSnapshot) : json :=
  JObj (obj_fields
    [("displayName", Some (enc_str (ec_DisplayName e)));
     ("solutionType", Some (enc_str (ec_SolutionType e)));
     ("industryVertical", Some (enc_str (ec_IndustryVertical e)));
     ("appType", Some (enc_str (ec_AppType e)));
     ("dataStoreIds", omit_slice enc_str (ec_DataStoreIds e));
     ("commonConfig", omit_map encodeValue (ec_CommonConfig e));
     ("features", omit_map enc_str (ec_Features e));
     ("searchConfig", omit_ptr (encodeSearch c) (ec_SearchConfig e))]).

(** [MarshalJSONBytes] ([json.MarshalIndent]; the layout of the text is
    not modelled). *)
Definition MarshalJSONBytes (c : SearchCodec) (s : EngineSnapshot) : json :=
  JObj (obj_fields
    [("metadata", Some (encodeMetadata (Metadata s)));
     ("engine", Some (encodeEngineConfig c (EngineCfg s)));
     ("agents", omit_slice encodeAgentPtr (Agents s))]).

(** An [EngineConfigSnapshot] being decoded. *)
Record EngineSt (SS : Type) := mkEngineSt {
  es_DisplayName : string;
  es_SolutionType : string;
  es_IndustryVertical : string;
  es_AppType : string;
  es_DataStoreIds : slice_st string;
  es_CommonConfig : gomap goval;
  es_Features : gomap string;
  es_SearchConfig : option SS
}.
Arguments mkEngineSt {SS}.
Arguments es_DisplayName {SS}.
Arguments es_SolutionType {SS}.
Arguments es_IndustryVertical {SS}.
Arguments es_AppType {SS}.
Arguments es_DataStoreIds {SS}.
Arguments es_CommonConfig {SS}.
Arguments es_Features {SS}.
Arguments es_SearchConfig {SS}.

Definition engineFields : list string :=
  ["displayName"; "solutionType"; "industryVertical"; "appType"; "dataStoreIds"; "commonConfig";
   "features"; "searchConfig"].

Definition engineZero (c : SearchCodec) : EngineSt (SearchSt c) :=
  mkEngineSt "" "" "" "" (mk_slice None []) None None None.

Definition decodeEngineInto (c : SearchCodec) (grow : nat -> nat -> nat) (cur : EngineSt (SearchSt c))
    (j : json) : option (EngineSt (SearchSt c)) :=
  match j with
  | JNull => Some cur
  | JObj kvs =>
      match dec_all dec_str (es_DisplayName cur) (members engineFields "displayName" kvs),
            dec_all dec_str (es_SolutionType cur) (members engineFields "solutionType" kvs),
            dec_all dec_str (es_IndustryVertical cur) (members engineFields "industryVertical" kvs),
            dec_all dec_str (es_AppType cur) (members engineFields "appType" kvs),
            dec_all (dec_slice grow 16 "" dec_str) (es_DataStoreIds cur) (members engineFields "dataStoreIds" kvs),
            dec_all (dec_map GNil dec_iface) (es_CommonConfig cur) (members engineFields "commonConfig" kvs),
            dec_all (dec_map "" dec_str) (es_Features cur) (members engineFields "features" kvs),
            dec_all (dec_ptr (search_zero c) (decodeSearchInto c)) (es_SearchConfig cur)
              (members engineFields "searchConfig" kvs) with
      | Some dn, Some st, Some iv, Some apt, Some ds, Some cc, Some fs, Some sc =>
          Some (mkEngineSt dn st iv apt ds cc fs sc)
      | _, _, _, _, _, _, _, _ => None
      end
  | _ => None
  end.

Definition viewEngine (c : SearchCodec) (e : EngineSt (SearchSt c)) : EngineConfigSnapshot :=
  {| ec_DisplayName := es_DisplayName e; ec_SolutionType := es_SolutionType e;
     ec_IndustryVertical := es_IndustryVertical e; ec_AppType := es_AppType e;
     ec_DataStoreIds := sl (es_DataStoreIds e); ec_CommonConfig := es_CommonConfig e;
     ec_Features := es_Features e; ec_SearchConfig := option_map (search_view c) (es_SearchConfig e) |}.

(** An [EngineSnapshot] being decoded. *)
Record SnapshotSt (SS : Type) := mkSnapshotSt {
  ss_Metadata : SnapshotMetadata;
  ss_Engine : EngineSt SS;
  ss_Agents : slice_st (option AgentSt)
}.
Arguments mkSnapshotSt {SS}.
Arguments ss_Metadata {SS}.
Arguments ss_Engine {SS}.
Arguments ss_Agents {SS}.

Definition snapshotFields : list string := ["metadata"; "engine"; "agents"].

Definition decodeSnapshotInto (c : SearchCodec) (grow : nat -> nat -> nat) (cur : SnapshotSt (SearchSt c))
    (j : json) : option (SnapshotSt (SearchSt c)) :=
  match j with
  | JNull => Some cur
  | JObj kvs =>
      match dec_all decodeMetadataInto (ss_Metadata cur) (members snapshotFields "metadata" kvs),
            dec_all (decodeEngineInto c grow) (ss_Engine cur) (members snapshotFields "engine" kvs),
            dec_all (dec_slice grow 8 None (dec_ptr agentZero (decodeAgentInto grow))) (ss_Agents cur)
              (members snapshotFields "agents" kvs) with
      | Some md, Some ec, Some ags => Some (mkSnapshotSt md ec ags)
      | _, _, _ => None
      end
  | _ => None
  end.

Definition viewSnapshot (c : SearchCodec) (s : SnapshotSt (SearchSt c)) : EngineSnapshot :=
  {| Metadata := ss_Metadata s; EngineCfg := viewEngine c (ss_Engine s);
     Agents := option_map (map (option_map ag)) (sl (ss_Agents s)) |}.

(** [LoadEngineSnapshot]: [json.Unmarshal] into a zero [EngineSnapshot];
    [None] is the decode error. [grow] is the growth policy of the
    runtime's slices. *)
Definition LoadEngineSnapshot (c : SearchCodec) (grow : nat -> nat -> nat) (j : json) : option EngineSnapshot :=
  option_map (viewSnapshot c)
    (decodeSnapshotInto c grow (mkSnapshotSt metadataZero (engineZero c) (mk_slice None [])) j).

(** *** What [load(serialize(S))] is, read off the encoding rules

    [omitempty] turns an empty slice or map into nil, a number held in an
    [interface{}] comes back as a [float64], and the search config comes
    back as the library's own decoding of its encoding gives it. *)
Fixpoint loadedValue (v : goval) : goval :=
  match v with
  | GInt z => GFloat z
  | GSlice l => GSlice (map loadedValue l)
  | GObject kvs => GObject (map (fun kv => (kv.1, loadedValue kv.2)) kvs)
  | _ => v
  end.

Definition loaded_slice {A} (f : A -> A) (s : goslice A) : goslice A :=
  if Nat.eqb (length (elems s)) 0 then None else option_map (map f) s.

Definition loaded_map {V} (f : V -> V) (m : gomap V) : gomap V :=
  if Nat.eqb (size (mentries m)) 0 then None else option_map (fmap f) m.

Definition loadedAgent (a : Agent) : Agent :=
  {| a_Name := a_Name a; a_DisplayName := a_DisplayName a; a_Description := a_Description a;
     a_Icon := a_Icon a; a_DialogflowAgentDefinition := a_DialogflowAgentDefinition a;
     a_ReasoningEngine := a_ReasoningEngine a; a_CreateTime := a_CreateTime a;
     a_UpdateTime := a_UpdateTime a;
     a_ConnectorDefinition := loaded_map loadedValue (a_ConnectorDefinition a);
     a_AdditionalAgentProperties := loaded_map loadedValue (a_AdditionalAgentProperties a);
     a_Annotations := loaded_map id (a_Annotations a);
     a_Labels := loaded_map id (a_Labels a);
     a_EnvironmentConfigurations :=
       loaded_slice (option_map (fmap loadedValue)) (a_EnvironmentConfigurations a);
     a_AgentMonitoringState := loaded_map loadedValue (a_AgentMonitoringState a);
     a_Capabilities := loaded_slice id (a_Capabilities a);
     a_Metadata := loaded_map loadedValue (a_Metadata a) |}.

(** The library's decoding of its own encoding of a search config. *)
Definition search_reload (c : SearchCodec) (sc : SearchEngineConfig) : SearchEngineConfig :=
  match decodeSearchInto c (search_zero c) (encodeSearch c sc) with
  | Some st => search_view c st
  | None => sc
  end.

Definition loadedEngineCfg (c : SearchCodec) (e : EngineConfigSnapshot) : EngineConfigSnapshot :=
  {| ec_DisplayName := ec_DisplayName e; ec_SolutionType := ec_SolutionType e;
     ec_IndustryVertical := ec_IndustryVertical e; ec_AppType := ec_AppType e;
     ec_DataStoreIds := loaded_slice id (ec_DataStoreIds e);
     ec_CommonConfig := loaded_map loadedValue (ec_CommonConfig e);
     ec_Features := loaded_map id (ec_Features e);
     ec_SearchConfig := option_map (search_reload c) (ec_SearchConfig e) |}.

Definition loadedSnapshot (c : SearchCodec) (s : EngineSnapshot) : EngineSnapshot :=
  {| Metadata := Metadata s;
     EngineCfg := loadedEngineCfg c (EngineCfg s);
     Agents := loaded_slice (option_map loadedAgent) (Agents s) |}.

(** The library's codec is stable on [sc]: the config is written as a
    JSON value other than [null], is read back without error, and the
    value read back is written as [sc] is. *)
Definition search_ok (c : SearchCodec) (sc : SearchEngineConfig) : Prop :=
  encodeSearch c sc <> JNull /\
  exists st, decodeSearchInto c (search_zero c) (encodeSearch c sc) = Some st /\
             encodeSearch c (search_view c st) = encodeSearch c sc.

(** *** Well-formed snapshots

    Every string and map key is valid UTF-8; every number held in an
    [interface{}] is an integer a [float64] represents exactly (at most
    2^53 in absolute value); the entries of a nested object are listed in
    strictly increasing key order (the order the entries of a Go map are
    listed in here). *)
Fixpoint sorted_keys (l : list string) : bool :=
  match l with
  | [] => true
  | k :: l' => forallb (String.ltb k) l' && sorted_keys l'
  end.

Fixpoint wfValue (v : goval) : bool :=
  match v with
  | GInt z | GFloat z => (Z.abs z <=? 2 ^ 53)%Z
  | GString s => ValidString s
  | GSlice l => forallb wfValue l
  | GObject kvs => sorted_keys (map fst kvs) && forallb (fun kv => ValidString kv.1 && wfValue kv.2) kvs
  | _ => true
  end.

Definition wf_value_map (m : gomap goval) : bool :=
  forallb (fun kv => ValidString kv.1 && wfValue kv.2) (map_to_list (mentries m)).

Definition wf_str_map (m : gomap string) : bool :=
  forallb (fun kv => ValidString kv.1 && ValidString kv.2) (map_to_list (mentries m)).

Definition wfAgent (a : Agent) : bool :=
  forallb ValidString [a_Name a; a_DisplayName a; a_Description a; a_ReasoningEngine a;
                       a_CreateTime a; a_UpdateTime a] &&
  match a_Icon a with Some i => ValidString (URI i) && ValidString (Content i) | None => true end &&
  match a_DialogflowAgentDefinition a with Some d => ValidString (DialogflowAgent d) | None => true end &&
  wf_value_map (a_ConnectorDefinition a) && wf_value_map (a_AdditionalAgentProperties a) &&
  wf_str_map (a_Annotations a) && wf_str_map (a_Labels a) &&
  forallb wf_value_map (elems (a_EnvironmentConfigurations a)) &&
  wf_value_map (a_AgentMonitoringState a) && forallb ValidString (elems (a_Capabilities a)) &&
  wf_value_map (a_Metadata a).

Definition wf_snapshot (s : EngineSnapshot) : bool :=
  let m := Metadata s in
  let e := EngineCfg s in
  forallb ValidString [md_Version m; md_OriginalEngineName m; md_OriginalEngineID m;
                       md_SourceProjectID m; md_SourceLocation m; md_SourceCollection m;
                       md_TakenAt m; md_DisplayName m; md_Description m; md_Notes m] &&
  forallb ValidString [ec_DisplayName e; ec_SolutionType e; ec_IndustryVertical e; ec_AppType e] &&
  forallb ValidString (elems (ec_DataStoreIds e)) && wf_value_map (ec_CommonConfig e) &&
  wf_str_map (ec_Features e) &&
  forallb (fun p => match p with Some a => wfAgent a | None => true end) (elems (Agents s)).

(** Each name of a struct's field list is its own field: distinct, and
    resolved to itself. *)
Definition exact_names (names : list string) : bool :=
  bool_decide (NoDup names) &&
  forallb (fun k => bool_decide (fieldFor names (coerceUTF8 k) = Some k)) names.

(** *** Examples *)

(** The codec of the client library's type as its struct tags give it:
    [searchAddOns] and [searchTier], both [omitempty] (its [MarshalJSON]
    writes what [json.Marshal] does while [ForceSendFields] and
    [NullFields] are empty, and it has no [UnmarshalJSON]). *)
Record LibSearchSt := mkLibSearchSt { ls_AddOns : slice_st string; ls_Tier : string }.

Definition libSearchFields : list string := ["searchAddOns"; "searchTier"].

Definition decodeLibSearchInto (grow : nat -> nat -> nat) (cur : LibSearchSt) (j : json)
    : option LibSearchSt :=
  match j with
  | JNull => Some cur
  | JObj kvs =>
      match dec_all (dec_slice grow 16 "" dec_str) (ls_AddOns cur) (members libSearchFields "searchAddOns" kvs),
            dec_all dec_str (ls_Tier cur) (members libSearchFields "searchTier" kvs) with
      | Some ao, Some t => Some (mkLibSearchSt ao t)
      | _, _ => None
      end
  | _ => None
  end.

Definition discoveryengine_codec (grow : nat -> nat -> nat) : SearchCodec := {|
  SearchSt := LibSearchSt;
  search_zero := mkLibSearchSt (mk_slice None []) "";
  search_view := fun st => {| SearchTier := ls_Tier st; SearchAddOns := sl (ls_AddOns st) |};
  encodeSearch := fun s => JObj (obj_fields [("searchAddOns", omit_slice enc_str (SearchAddOns s));
                                             ("searchTier", omit_str (SearchTier s))]);
  decodeSearchInto := decodeLibSearchInto grow
|}.

(** A growth policy for the examples: double the capacity. *)
Definition grow_double (size c : nat) : nat := 2 * c.

(** A snapshot whose engine holds one data store list that is empty but
    not nil (what [append([]string{}, ...)] builds for an engine without
    data stores) and a common-config value set by Go code to the [int] 1. *)
Definition snapshot_int : EngineSnapshot :=
  {| Metadata := metadata0;
     EngineCfg := {| ec_DisplayName := "Support"; ec_SolutionType := "SOLUTION_TYPE_SEARCH";
                     ec_IndustryVertical := "GENERIC"; ec_AppType := ""; ec_DataStoreIds := Some [];
                     ec_CommonConfig := Some {[ "maxResults" := GInt 1 ]};
                     ec_Features := Some {["agent-gallery" := "ON"]};
                     ec_SearchConfig := Some {| SearchTier := "SEARCH_TIER_ENTERPRISE";
                                                SearchAddOns := Some ["SEARCH_ADD_ON_LLM"] |} |};
     Agents := None |}.

End Json.

(** Induction over [goval] through the lists it nests. *)
Section goval_ind'.
Variable P : goval -> Prop.
Hypothesis HInt : forall z, P (GInt z).
Hypothesis HFloat : forall z, P (GFloat z).
Hypothesis HString : forall s, P (GString s).
Hypothesis HBool : forall b, P (GBool b).
Hypothesis HNil : P GNil.
Hypothesis HSlice : forall l, Forall P l -> P (GSlice l).
Hypothesis HObject : forall kvs, Forall (fun kv => P kv.2) kvs -> P (GObject kvs).

Fixpoint goval_ind' (v : goval) : P v :=
  match v with
  | GInt z => HInt z
  | GFloat z => HFloat z
  | GString s => HString s
  | GBool b => HBool b
  | GNil => HNil
  | GSlice l => HSlice l ((fix go l := match l return Forall P l with
                                       | [] => @List.Forall_nil _ _
                                       | x :: l' => @List.Forall_cons _ P x l' (goval_ind' x) (go l')
                                       end) l)
  | GObject kvs => HObject kvs ((fix go kvs := match kvs return Forall (fun kv => P kv.2) kvs with
                                              | [] => @List.Forall_nil _ _
                                              | kv :: kvs' => @List.Forall_cons _ (fun kv => P kv.2) kv kvs' (goval_ind' kv.2) (go kvs')
                                              end) kvs)
  end.
End goval_ind'.

(** C7 as stated: loading the serialization of a snapshot gives it back
    (whatever the search-config codec and the growth policy of slices). *)
Definition roundtrip_claim : Prop :=
  forall c grow s, Json.LoadEngineSnapshot c grow (Json.MarshalJSONBytes c s) = Some s.

(** ** Auxiliary definitions of the proofs and the claims as stated *)

(** [m] only appends write calls satisfying [P] to the trace. *)
Definition writes_only {A} (P : WriteCall -> Prop) (m : M A) : Prop :=
  forall tr o tr', m tr = (o, tr') -> exists ws, tr' = tr ++ ws /\ Forall P ws.

(** Write calls on agents (create, update, delete). *)
Definition agent_call (w : WriteCall) : Prop :=
  match w with
  | WCreateAgent _ _ | WUpdateAgent _ _ _ | WDeleteAgent _ => True
  | _ => False
  end.

(** Write calls that create or patch the engine itself. *)
Definition engine_call (w : WriteCall) : bool :=
  match w with
  | WCreateEngine _ _ _ | WPatchEngine _ _ _ => true
  | _ => false
  end.

(** The write calls of [patchEngineFromSnapshot] when it succeeds. *)
Definition patch_calls (name : string) (eng : Engine) (cfg : EngineConfigSnapshot) : list WriteCall :=
  match engineUpdateMask eng cfg with
  | [] => []
  | mask => [WPatchEngine name (enginePatch eng cfg) mask]
  end.

(** The write call of [applyFeatureSnapshot]. *)
Definition feature_calls (name : string) (desired : gomap string) : list WriteCall :=
  match desired with
  | None => []
  | Some m => [WUpdateFeatures name m]
  end.

Definition swapFeature (x : FeatureDiff) : FeatureDiff :=
  {| Feature := Feature x; ft_Old := ft_New x; ft_New := ft_Old x |}.

(** The claim read on the embedding: against a target whose preview diff
    is empty, a non-dry-run restore issues no write call. *)
Definition restore_idempotent_claim : Prop :=
  forall c fmt snap opts op os eng ags,
    resolveTarget c opts = Ok (Some eng, ags) -> DryRun opts = false ->
    CreateIfMissing opts = false -> UpdateExisting opts = false ->
    IsEmpty (previewDiff c fmt snap (Some eng) ags op) = true ->
    snd (RestoreEngineSnapshot c fmt (Some snap) opts op os) = [].

(** The claim read on the embedding: a dry run issues no write call and
    returns the preview diff (no Result, no error). *)
Definition restore_dry_run_claim : Prop :=
  forall c fmt snap opts op os,
    DryRun opts = true ->
    snd (RestoreEngineSnapshot c fmt snap opts op os) = [] /\
    exists d, fst (RestoreEngineSnapshot c fmt snap opts op os) = Returned None d None.

(** The claim read on the embedding: every iteration order the Go runtime
    may choose gives the same diff. *)
Definition diff_deterministic_claim : Prop :=
  forall fmt A B o1 o2,
    valid_order (Agents A) (Agents B) o1 -> valid_order (Agents A) (Agents B) o2 ->
    DiffSnapshots fmt A B o1 = DiffSnapshots fmt A B o2.

Definition two_agents : goslice (option Agent) :=
  Some [Some (agent_with "" "Alpha" "" ""); Some (agent_with "" "Beta" "" "")].

Definition two_agent_snapshot : EngineSnapshot := with_agents snapshot_off two_agents.

Definition order_fwd : RangeOrder := canonical_order (Agents two_agent_snapshot) (cloneAgents None).

Definition order_rev : RangeOrder :=
  {| ord_desired := ord_desired order_fwd; ord_current := rev (ord_current order_fwd) |}.

Definition swapField (x : FieldDiff) : FieldDiff :=
  {| Field := Field x; fd_Old := fd_New x; fd_New := fd_Old x |}.

Definition added (k : string) (ag : option Agent) : AgentDiff :=
  {| Key := k; ChangeType := AgentDiffAdded; ad_Old := None; ad_New := ag |}.

Definition removed (k : string) (ag : option Agent) : AgentDiff :=
  {| Key := k; ChangeType := AgentDiffRemoved; ad_Old := ag; ad_New := None |}.

(** The same change seen from the other side. *)
Definition swapAgent (x : AgentDiff) : AgentDiff :=
  {| Key := Key x;
     ChangeType := match ChangeType x with
                   | AgentDiffAdded => AgentDiffRemoved
                   | AgentDiffRemoved => AgentDiffAdded
                   | AgentDiffUpdated => AgentDiffUpdated
                   end;
     ad_Old := ad_New x; ad_New := ad_Old x |}.

(** C5 as stated: every category of [DiffSnapshots(B, A)] is the one of
    [DiffSnapshots(A, B)] with Old and New exchanged. *)
Definition diff_symmetric_claim : Prop :=
  forall fmt A B o o',
    valid_order (Agents A) (Agents B) o -> valid_order (Agents B) (Agents A) o' ->
    MetadataChanges (DiffSnapshots fmt B A o') = map swapField (MetadataChanges (DiffSnapshots fmt A B o)) /\
    EngineChanges (DiffSnapshots fmt B A o') = map swapField (EngineChanges (DiffSnapshots fmt A B o)) /\
    FeatureChanges (DiffSnapshots fmt B A o') = map swapFeature (FeatureChanges (DiffSnapshots fmt A B o)) /\
    AgentChanges (DiffSnapshots fmt B A o') ≡ₚ map swapAgent (AgentChanges (DiffSnapshots fmt A B o)).

Definition helper_with (reasoning : string) : EngineSnapshot :=
  with_agents snapshot0 (Some [Some (agent_with "" "Helper" "" reasoning)]).

(** A step of [Heap.configSnapshot] that allocates: what it returns is
    nil or a location not in use before, and it keeps every cell. *)
Definition allocates (f : Heap.heap -> Heap.heap * option positive) : Prop :=
  forall h, dom h ⊆ dom (f h).1 /\
    (forall k v, h !! k = Some v -> (f h).1 !! k = Some v) /\
    (forall l, (f h).2 = Some l -> (l ∉ dom h) /\ l ∈ dom (f h).1).

(** The writes [syncAgentsWithSnapshot] may issue, read against the key
    maps [cm] (engine agents) and [dm] (snapshot agents). *)
Definition sync_write (name : string) (cm dm : gmap string (option Agent)) (w : WriteCall) : Prop :=
  match w with
  | WCreateAgent en inp =>
      en = name /\ exists k a, dm !! k = Some (Some a) /\ cm !! k = None /\ in_DisplayName inp = a_DisplayName a
  | WUpdateAgent n inp mask =>
      exists k e d, cm !! k = Some (Some e) /\ dm !! k = Some (Some d) /\ n = a_Name e /\
                    mask = (diffAgentsFields (Some e) (Some d)).1 /\ mask <> []
  | WDeleteAgent n => exists k e, cm !! k = Some (Some e) /\ dm !! k = None /\ n = a_Name e
  | _ => False
  end.

(** [a] with its display name replaced by [d]. *)
(** The display names "Apfel" with a capital A umlaut (U+00C4, UTF-8 C3 84)
    and "APFEL" with a small a umlaut (U+00E4, UTF-8 C3 A4) in front. *)
Definition Apfel : string := String (ascii_of_nat 195) (String (ascii_of_nat 132) "pfel").
Definition aPFEL : string := String (ascii_of_nat 195) (String (ascii_of_nat 164) "PFEL").

Definition with_display (a : Agent) (d : string) : Agent :=
  {| a_Name := a_Name a; a_DisplayName := d; a_Description := a_Description a; a_Icon := a_Icon a;
     a_DialogflowAgentDefinition := a_DialogflowAgentDefinition a;
     a_ReasoningEngine := a_ReasoningEngine a; a_CreateTime := a_CreateTime a;
     a_UpdateTime := a_UpdateTime a; a_ConnectorDefinition := a_ConnectorDefinition a;
     a_AdditionalAgentProperties := a_AdditionalAgentProperties a;
     a_Annotations := a_Annotations a; a_Labels := a_Labels a;
     a_EnvironmentConfigurations := a_EnvironmentConfigurations a;
     a_AgentMonitoringState := a_AgentMonitoringState a; a_Capabilities := a_Capabilities a;
     a_Metadata := a_Metadata a |}.

(** Agents of a live engine: "Old" (absent from [two_agents]) and "Alpha"
    (bound to a reasoning engine). *)
Definition cur1 : goslice (option Agent) :=
  Some [Some (agent_with "agents/1" "Old" "" ""); Some (agent_with "agents/2" "Alpha" "" "x")].

(** [snapshot0] with notes, as [snapshot restore --notes] leaves it. *)
Definition annotated0 : EngineSnapshot :=
  {| Metadata := {| md_Version := "v1"; md_OriginalEngineName := engineName0; md_OriginalEngineID := "e";
                    md_SourceProjectID := "p"; md_SourceLocation := "global";
                    md_SourceCollection := "default_collection"; md_TakenAt := "2025-01-01T00:00:00Z";
                    md_DisplayName := "Support"; md_Description := ""; md_Notes := "before upgrade" |};
     EngineCfg := EngineCfg snapshot0; Agents := None |}.

(** * Properties *)

(** ** The write trace of a computation *)

Create HintDb writes.

Section WritesOnly.
Context (P : WriteCall -> Prop).

Lemma wo_ret {A} (a : A) : writes_only P (ret a).
Proof. intros tr o tr' H. inversion H. exists []. rewrite app_nil_r. auto. Qed.

Lemma wo_fail {A} (e : GoErr) : writes_only P (@fail A e).
Proof. intros tr o tr' H. inversion H. exists []. rewrite app_nil_r. auto. Qed.

Lemma wo_crash {A} : writes_only P (@crash A).
Proof. intros tr o tr' H. inversion H. exists []. rewrite app_nil_r. auto. Qed.

Lemma wo_call c w : P w -> writes_only P (call c w).
Proof. intros HP tr o tr' H. inversion H. exists [w]. auto. Qed.

Lemma wo_wrap {A} ctx (m : M A) : writes_only P m -> writes_only P (wrap ctx m).
Proof.
  intros Hm tr o tr' H. unfold wrap in H.
  destruct (m tr) as [[a|e|] tr1] eqn:E; inversion H; subst; eauto.
Qed.

Lemma wo_bind {A B} (m : M A) (k : A -> M B) :
  writes_only P m -> (forall a, writes_only P (k a)) -> writes_only P (bind m k).
Proof.
  intros Hm Hk tr o tr' H. unfold bind in H.
  destruct (m tr) as [[a|e|] tr1] eqn:E.
  - destruct (Hm _ _ _ E) as [ws1 [-> F1]].
    destruct (Hk a _ _ _ H) as [ws2 [-> F2]].
    exists (ws1 ++ ws2). rewrite app_assoc. split; [done|]. by apply Forall_app.
  - inversion H; subst. eauto.
  - inversion H; subst. eauto.
Qed.
End WritesOnly.

Global Hint Resolve wo_ret wo_fail wo_crash wo_call wo_wrap wo_bind : writes.

Lemma createAgent_writes c n a : writes_only agent_call (createAgentFromSnapshot c n a).
Proof.
  unfold createAgentFromSnapshot. destruct a as [a|]; [|auto with writes].
  destruct (match a_DialogflowAgentDefinition a with
            | Some d => String.eqb (DialogflowAgent d) "" | None => false end);
    [auto with writes|]. apply wo_wrap, wo_call. exact I.
Qed.

Lemma updateAgent_writes c e d mask : writes_only agent_call (updateAgentFromSnapshot c e d mask).
Proof.
  unfold updateAgentFromSnapshot. destruct mask; [auto with writes|].
  destruct e, d; try apply wo_crash. apply wo_wrap, wo_call. exact I.
Qed.

Lemma syncDesired_writes c n cm od ch : writes_only agent_call (syncDesired c n cm od ch).
Proof.
  revert ch. induction od as [|[k d] od IH]; intros ch; simpl; [auto with writes|].
  destruct (cm !! k) as [e|].
  - destruct (diffAgentsFields e d) as [mask b]. destruct b; [|apply IH].
    apply wo_bind; [apply updateAgent_writes|intros; apply IH].
  - apply wo_bind; [apply createAgent_writes|intros; apply IH].
Qed.

Lemma syncCurrent_writes c dm oc ch : writes_only agent_call (syncCurrent c dm oc ch).
Proof.
  revert ch. induction oc as [|[k e] oc IH]; intros ch; simpl; [auto with writes|].
  destruct (dm !! k); [apply IH|]. destruct e; [|apply wo_crash].
  apply wo_bind; [apply wo_wrap, wo_call; exact I|intros; apply IH].
Qed.

Lemma syncAgents_writes c n cur des o : writes_only agent_call (syncAgentsWithSnapshot c n cur des o).
Proof.
  unfold syncAgentsWithSnapshot. apply wo_bind; [apply syncDesired_writes|intros; apply syncCurrent_writes].
Qed.

Lemma bind_done {A B} (m : M A) (k : A -> M B) tr a tr1 :
  m tr = (Done a, tr1) -> bind m k tr = k a tr1.
Proof. intros H. unfold bind. by rewrite H. Qed.

Lemma bind_Done_inv {A B} (m : M A) (k : A -> M B) tr b tr' :
  bind m k tr = (Done b, tr') -> exists a tr1, m tr = (Done a, tr1) /\ k a tr1 = (Done b, tr').
Proof. unfold bind. destruct (m tr) as [[a|e|] tr1]; intros H; inversion H; eauto. Qed.

Lemma wrap_Done_inv {A} ctx (m : M A) tr a tr' :
  wrap ctx m tr = (Done a, tr') -> m tr = (Done a, tr').
Proof. unfold wrap. destruct (m tr) as [[x|e|] tr1]; intros H; inversion H; auto. Qed.

Lemma call_Done_inv c w tr u tr' : call c w tr = (Done u, tr') -> tr' = tr ++ [w].
Proof. unfold call. destruct (write_resp c w); intros H; inversion H; auto. Qed.

Lemma applyFeature_Done_inv c n d tr u tr' :
  applyFeatureSnapshot c n d tr = (Done u, tr') -> tr' = tr ++ feature_calls n d.
Proof.
  unfold applyFeatureSnapshot, feature_calls. destruct d.
  - apply call_Done_inv.
  - intros H. inversion H. by rewrite app_nil_r.
Qed.

Lemma patchEngine_Done_inv c n eng cfg tr u tr' :
  patchEngineFromSnapshot c n (Some eng) cfg tr = (Done u, tr') -> tr' = tr ++ patch_calls n eng cfg.
Proof.
  unfold patchEngineFromSnapshot, patch_calls. destruct (engineUpdateMask eng cfg).
  - intros H. inversion H. by rewrite app_nil_r.
  - intros H. apply wrap_Done_inv, call_Done_inv in H. exact H.
Qed.

Lemma syncAgents_Done_inv c n cur des o tr ch tr' :
  wrap "failed to sync agents" (syncAgentsWithSnapshot c n cur des o) tr = (Done ch, tr') ->
  exists ws, tr' = tr ++ ws /\ Forall agent_call ws.
Proof. intros H. exact (wo_wrap _ _ _ (syncAgents_writes c n cur des o) _ _ _ H). Qed.

(** Apply against an existing engine, when it succeeds: the flags, the
    realized feature changes and the shape of the trace. *)
Lemma applySnapshot_existing c snap opts eng ags os r tr :
  applySnapshot c snap opts (Some eng) ags os [] = (Done r, tr) ->
  Created r = false /\ EnginePatched r = UpdateExisting opts /\
  r_FeatureChanges r = diffFeatures (e_Features eng) (ec_Features (EngineCfg snap)) /\
  exists ws, tr = (if UpdateExisting opts then patch_calls (TargetEngineName opts) eng (EngineCfg snap) else [])
                  ++ feature_calls (TargetEngineName opts) (ec_Features (EngineCfg snap)) ++ ws
             /\ Forall agent_call ws.
Proof.
  intros H. unfold applySnapshot in H.
  apply bind_Done_inv in H as (fl & tr1 & H1 & H).
  apply bind_Done_inv in H as (u & tr2 & H2 & H).
  apply wrap_Done_inv, applyFeature_Done_inv in H2.
  apply bind_Done_inv in H as (ch & tr3 & H3 & H).
  apply syncAgents_Done_inv in H3 as (ws & -> & F).
  inversion H; subst; simpl.
  destruct (UpdateExisting opts).
  - apply bind_Done_inv in H1 as (u1 & tr0 & H0 & H1).
    apply wrap_Done_inv, patchEngine_Done_inv in H0.
    inversion H1; subst. simpl. repeat split; auto.
    exists ws. split; [by rewrite ?app_assoc|exact F].
  - inversion H1; subst. simpl. repeat split; auto.
    exists ws. split; [by rewrite ?app_assoc|exact F].
Qed.

(** ** Restore against an existing engine *)

Lemma restore_existing_inv c fmt snap opts op os eng ags r d e tr :
  resolveTarget c opts = Ok (Some eng, ags) -> DryRun opts = false ->
  RestoreEngineSnapshot c fmt (Some snap) opts op os = (Returned (Some r) d e, tr) ->
  d = previewDiff c fmt snap (Some eng) ags op /\ e = None /\
  applySnapshot c snap opts (Some eng) ags os [] = (Done r, tr).
Proof.
  intros HR HD H. unfold RestoreEngineSnapshot in H.
  destruct (String.eqb (TargetEngineName opts) ""); [discriminate|].
  rewrite HR, HD in H.
  destruct (applySnapshot c snap opts (Some eng) ags os []) as [[x|x|] tr'] eqn:EA;
    inversion H; subst; auto.
Qed.

(** [diffFeatures] with its arguments exchanged lists the same keys with
    old and new values exchanged. *)
Lemma diffFeatures_swap a b : diffFeatures b a = map swapFeature (diffFeatures a b).
Proof.
  unfold diffFeatures. rewrite (union_comm_L (dom (mentries b))).
  induction (sortStrings _) as [|k ks IH]; [done|]. simpl.
  rewrite IH, map_app. f_equal.
  destruct (String.eqb_spec (lookup_str a k) (lookup_str b k)) as [E|E];
    destruct (String.eqb_spec (lookup_str b k) (lookup_str a k)) as [E'|E']; simpl;
    try done; congruence.
Qed.

Lemma diffFeatures_nil_swap a b : diffFeatures a b = [] -> diffFeatures b a = [].
Proof. intros H. by rewrite diffFeatures_swap, H. Qed.

(** Every feature change carries the value of the first map as Old and of
    the second as New. *)
Lemma diffFeatures_values a b x :
  In x (diffFeatures a b) -> ft_Old x = lookup_str a (Feature x) /\ ft_New x = lookup_str b (Feature x).
Proof.
  unfold diffFeatures. intros H. apply in_flat_map in H as (k & _ & H).
  destruct (negb _) in H; simpl in H; [|contradiction].
  destruct H as [<-|[]]. simpl. auto.
Qed.

Ltac split_emits H :=
  repeat (apply in_app_or in H; destruct H as [H|H]);
  unfold emit_if in H;
  match type of H with
  | In _ (if ?b then _ else _) =>
      destruct b; simpl in H; [destruct H as [<-|[]]; split; reflexivity|contradiction]
  end.

Lemma diffEngineConfig_values fmt a b x :
  In x (diffEngineConfig fmt a b) ->
  fd_Old x = engine_field (Field x) a /\ fd_New x = engine_field (Field x) b.
Proof. unfold diffEngineConfig. intros H. split_emits H. Qed.

Lemma diffMetadata_values a b x :
  In x (diffMetadata a b) ->
  fd_Old x = metadata_field (Field x) a /\ fd_New x = metadata_field (Field x) b.
Proof. unfold diffMetadata. intros H. split_emits H. Qed.

Lemma go_range_lookup {V} (m : gmap string V) l k v :
  go_range m l -> In (k, v) l -> m !! k = Some v.
Proof.
  intros Hp Hin. apply elem_of_map_to_list. rewrite <- Hp. by apply list_elem_of_In.
Qed.

(** In [diffAgents(current, desired)], Old is the entry of [current] and
    New the entry of [desired] under the change's key. *)
Lemma diffAgents_values cur des o x :
  valid_order cur des o -> In x (diffAgents cur des o) ->
  (ChangeType x <> AgentDiffAdded -> agent_map cur !! Key x = Some (ad_Old x)) /\
  (ChangeType x <> AgentDiffRemoved -> agent_map des !! Key x = Some (ad_New x)).
Proof.
  intros [Hd Hc] H. unfold diffAgents, diffAgents_loops in H.
  apply in_app_or in H as [H|H]; apply in_flat_map in H as ([k v] & Hin & H).
  - destruct (agent_map cur !! k) as [e|] eqn:E.
    + destruct (diffAgentsFields e v).2; simpl in H; [|contradiction].
      destruct H as [<-|[]]. simpl. split; [auto|]. intros _. exact (go_range_lookup _ _ _ _ Hd Hin).
    + simpl in H. destruct H as [<-|[]]. simpl. split; [congruence|].
      intros _. exact (go_range_lookup _ _ _ _ Hd Hin).
  - destruct (agent_map des !! k); simpl in H; [contradiction|].
    destruct H as [<-|[]]. simpl. split; [|congruence].
    intros _. exact (go_range_lookup _ _ _ _ Hc Hin).
Qed.

(** ** C10 *)

(** C10: in a non-dry-run restore against an existing engine, the preview
    diff ([DiffSnapshots(snapshot, live)]) takes Old from the desired
    snapshot and New from the live engine (metadata, engine fields,
    features and agents), while [Result.FeatureChanges]
    ([diffFeatures(live, desired)]) takes Old from the live pre-apply
    features and New from the snapshot: the two lists are each other with
    Old and New exchanged. *)
Theorem restore_diff_orientation c fmt snap opts op os eng ags r d tr :
  resolveTarget c opts = Ok (Some eng, ags) -> DryRun opts = false ->
  valid_order (Agents snap) (cloneAgents ags) op ->
  RestoreEngineSnapshot c fmt (Some snap) opts op os = (Returned (Some r) d None, tr) ->
  let live := liveSnapshot c eng ags in
  let desiredF := ec_Features (EngineCfg snap) in
  let liveF := e_Features eng in
  (forall x, In x (MetadataChanges d) ->
     fd_Old x = metadata_field (Field x) (Metadata snap) /\
     fd_New x = metadata_field (Field x) (Metadata live)) /\
  (forall x, In x (EngineChanges d) ->
     fd_Old x = engine_field (Field x) (EngineCfg snap) /\
     fd_New x = engine_field (Field x) (EngineCfg live)) /\
  (forall x, In x (FeatureChanges d) ->
     ft_Old x = lookup_str desiredF (Feature x) /\ ft_New x = lookup_str liveF (Feature x)) /\
  (forall x, In x (AgentChanges d) ->
     (ChangeType x <> AgentDiffAdded -> agent_map (Agents snap) !! Key x = Some (ad_Old x)) /\
     (ChangeType x <> AgentDiffRemoved -> agent_map (Agents live) !! Key x = Some (ad_New x))) /\
  (forall x, In x (r_FeatureChanges r) ->
     ft_Old x = lookup_str liveF (Feature x) /\ ft_New x = lookup_str desiredF (Feature x)) /\
  r_FeatureChanges r = map swapFeature (FeatureChanges d).
Proof.
  intros HR HD Ho H. simpl.
  destruct (restore_existing_inv _ _ _ _ _ _ _ _ _ _ _ _ HR HD H) as (-> & _ & HA).
  destruct (applySnapshot_existing _ _ _ _ _ _ _ _ HA) as (_ & _ & HF & _).
  unfold previewDiff, DiffSnapshots. simpl. rewrite HF.
  split; [intros x Hx; exact (diffMetadata_values _ _ _ Hx)|].
  split; [intros x Hx; exact (diffEngineConfig_values _ _ _ _ Hx)|].
  split; [intros x Hx; exact (diffFeatures_values _ _ _ Hx)|].
  split; [intros x Hx; exact (diffAgents_values _ _ _ _ Ho Hx)|].
  split; [intros x Hx; exact (diffFeatures_values _ _ _ Hx)|].
  apply diffFeatures_swap.
Qed.

Lemma restore_diff_orientation_witness :
  let out := RestoreEngineSnapshot client0 fmt0 (Some snapshot_off) (opts0 false true false) no_order no_order in
  out = (Returned (Some {| EngineName := engineName0; Created := false; EnginePatched := true;
                           r_FeatureChanges := [{| Feature := "agent-gallery"; ft_Old := "ON"; ft_New := "OFF" |}];
                           r_AgentChanges := [] |})
                  {| MetadataChanges := []; EngineChanges := [];
                     FeatureChanges := [{| Feature := "agent-gallery"; ft_Old := "OFF"; ft_New := "ON" |}];
                     AgentChanges := [] |} None,
         [WUpdateFeatures engineName0 {["agent-gallery" := "OFF"]}]) /\
  ([{| Feature := "agent-gallery"; ft_Old := "ON"; ft_New := "OFF" |}] =
    map swapFeature [{| Feature := "agent-gallery"; ft_Old := "OFF"; ft_New := "ON" |}]).
Proof.
  intros out.
  assert (HR : resolveTarget client0 (opts0 false true false) = Ok (Some engine0, None)) by reflexivity.
  assert (HO : valid_order (Agents snapshot_off) (cloneAgents None) no_order) by (split; vm_compute; reflexivity).
  assert (HX : out =
    (Returned (Some {| EngineName := engineName0; Created := false; EnginePatched := true;
                       r_FeatureChanges := [{| Feature := "agent-gallery"; ft_Old := "ON"; ft_New := "OFF" |}];
                       r_AgentChanges := [] |})
              {| MetadataChanges := []; EngineChanges := [];
                 FeatureChanges := [{| Feature := "agent-gallery"; ft_Old := "OFF"; ft_New := "ON" |}];
                 AgentChanges := [] |} None,
     [WUpdateFeatures engineName0 {["agent-gallery" := "OFF"]}])) by (vm_compute; reflexivity).
  split; [exact HX|].
  exact (proj2 (proj2 (proj2 (proj2 (proj2
    (restore_diff_orientation _ _ _ _ _ _ _ _ _ _ _ HR eq_refl HO HX)))))).
Defined.

(** ** C9 *)

Lemma IsEmpty_features d : IsEmpty d = true -> FeatureChanges d = [].
Proof. unfold IsEmpty. destruct (MetadataChanges d), (EngineChanges d), (FeatureChanges d), (AgentChanges d); done. Qed.

Lemma forallb_no_engine_call ws : Forall agent_call ws -> forallb (fun w => negb (engine_call w)) ws = true.
Proof.
  induction 1 as [|w ws Hw _ IH]; [done|]. simpl. rewrite IH.
  destruct w; simpl in *; done.
Qed.

(** C9: a non-dry-run restore onto an existing engine with
    [UpdateExisting = true] that returns a Result reports
    [EnginePatched = true], also when no tracked engine field differs, the
    update mask is empty and no patch call is issued. *)
Theorem restore_update_existing_marks_patched c fmt snap opts op os eng ags r d tr :
  resolveTarget c opts = Ok (Some eng, ags) -> DryRun opts = false -> UpdateExisting opts = true ->
  RestoreEngineSnapshot c fmt (Some snap) opts op os = (Returned (Some r) d None, tr) ->
  EnginePatched r = true /\
  (engineUpdateMask eng (EngineCfg snap) = [] ->
   forallb (fun w => negb (engine_call w)) tr = true).
Proof.
  intros HR HD HU H.
  destruct (restore_existing_inv _ _ _ _ _ _ _ _ _ _ _ _ HR HD H) as (_ & _ & HA).
  destruct (applySnapshot_existing _ _ _ _ _ _ _ _ HA) as (_ & HP & _ & ws & Htr & F).
  rewrite HU in HP, Htr. split; [exact HP|].
  intros HM. rewrite Htr. unfold patch_calls. rewrite HM. simpl.
  unfold feature_calls. destruct (ec_Features (EngineCfg snap)); simpl;
    apply forallb_no_engine_call, F.
Qed.

Lemma restore_update_existing_marks_patched_witness :
  let out := RestoreEngineSnapshot client0 fmt0 (Some snapshot0) (opts0 false true false) no_order no_order in
  engineUpdateMask engine0 (EngineCfg snapshot0) = [] /\
  out = (Returned (Some {| EngineName := engineName0; Created := false; EnginePatched := true;
                           r_FeatureChanges := []; r_AgentChanges := [] |}) emptyDiff None,
         [WUpdateFeatures engineName0 {["agent-gallery" := "ON"]}]) /\
  EnginePatched {| EngineName := engineName0; Created := false; EnginePatched := true;
                   r_FeatureChanges := []; r_AgentChanges := [] |} = true.
Proof.
  intros out.
  assert (HX : out = (Returned (Some {| EngineName := engineName0; Created := false; EnginePatched := true;
                           r_FeatureChanges := []; r_AgentChanges := [] |}) emptyDiff None,
         [WUpdateFeatures engineName0 {["agent-gallery" := "ON"]}])) by (vm_compute; reflexivity).
  split; [vm_compute; reflexivity|]. split; [exact HX|].
  exact (proj1 (restore_update_existing_marks_patched client0 fmt0 snapshot0 (opts0 false true false)
                  no_order no_order engine0 None _ _ _ eq_refl eq_refl eq_refl HX)).
Defined.

(** ** C1 *)

(** C1 (counterexample): [snapshot0] restored onto [engine0], which it
    matches exactly, has an empty preview diff, yet the restore issues the
    feature-update write call. *)
Lemma restore_idempotent_counterexample :
  IsEmpty (previewDiff client0 fmt0 snapshot0 (Some engine0) None no_order) = true /\
  snd (RestoreEngineSnapshot client0 fmt0 (Some snapshot0) (opts0 false false false) no_order no_order)
    = [WUpdateFeatures engineName0 {["agent-gallery" := "ON"]}] /\
  ~ restore_idempotent_claim.
Proof.
  assert (HE : IsEmpty (previewDiff client0 fmt0 snapshot0 (Some engine0) None no_order) = true)
    by (vm_compute; reflexivity).
  assert (HT : snd (RestoreEngineSnapshot client0 fmt0 (Some snapshot0) (opts0 false false false) no_order no_order)
    = [WUpdateFeatures engineName0 {["agent-gallery" := "ON"]}]) by (vm_compute; reflexivity).
  split; [exact HE|]. split; [exact HT|].
  intros Hc. specialize (Hc client0 fmt0 snapshot0 (opts0 false false false) no_order no_order engine0 None
                           eq_refl eq_refl eq_refl eq_refl HE).
  rewrite HT in Hc. discriminate.
Qed.

(** A non-dry-run apply against an existing engine with [UpdateExisting]
    off, whatever its outcome: the feature-update call first (when the
    feature map is non-nil), then agent calls only. *)
Lemma applySnapshot_kept_trace c snap opts eng ags os o tr :
  UpdateExisting opts = false ->
  applySnapshot c snap opts (Some eng) ags os [] = (o, tr) ->
  exists ws, tr = (feature_calls (TargetEngineName opts) (ec_Features (EngineCfg snap)) ++ ws)%list /\
             Forall agent_call ws.
Proof.
  intros Hu H. unfold applySnapshot in H. rewrite Hu in H.
  assert (Hk : forall u : unit, writes_only agent_call
     (fun tr0 => bind (wrap "failed to sync agents"
                   (syncAgentsWithSnapshot c (TargetEngineName opts) ags (Agents snap) os))
                   (fun ch => ret {| EngineName := TargetEngineName opts; Created := false; EnginePatched := false;
         r_FeatureChanges := diffFeatures (existingEngineFeatures (Some eng)) (ec_Features (EngineCfg snap));
         r_AgentChanges := ch |}) tr0)).
  { intros u. apply wo_bind; [apply wo_wrap, syncAgents_writes|intros; apply wo_ret]. }
  unfold bind at 1, ret at 1 in H. cbv beta iota in H.
  unfold bind at 1 in H.
  assert (Hf : snd (wrap "failed to apply feature snapshot"
            (applyFeatureSnapshot c (TargetEngineName opts) (ec_Features (EngineCfg snap))) [])
            = feature_calls (TargetEngineName opts) (ec_Features (EngineCfg snap))).
  { unfold wrap, applyFeatureSnapshot, feature_calls, call.
    destruct (ec_Features (EngineCfg snap)); simpl; [|done].
    destruct (write_resp c _); reflexivity. }
  destruct (wrap _ (applyFeatureSnapshot _ _ _) []) as [[u|e|] tr1] eqn:E; simpl in Hf; subst tr1.
  - destruct (Hk u _ _ _ H) as (ws & -> & F). eauto.
  - inversion H; subst. exists []. rewrite app_nil_r. auto.
  - inversion H; subst. exists []. rewrite app_nil_r. auto.
Qed.

(** C1 (amended): against an existing target (non-empty name) whose
    preview diff is empty, a non-dry-run restore with [CreateIfMissing]
    and [UpdateExisting] left false, whatever its outcome, issues no engine
    create or patch call and issues the feature-update call first whenever
    the snapshot's feature map is non-nil; when it returns a Result, that
    Result reports [Created = false], [EnginePatched = false] and no
    feature change. *)
Theorem restore_converged_no_engine_write c fmt snap opts op os eng ags :
  TargetEngineName opts <> "" ->
  resolveTarget c opts = Ok (Some eng, ags) -> DryRun opts = false ->
  UpdateExisting opts = false ->
  IsEmpty (previewDiff c fmt snap (Some eng) ags op) = true ->
  forallb (fun w => negb (engine_call w)) (snd (RestoreEngineSnapshot c fmt (Some snap) opts op os)) = true /\
  (forall m, ec_Features (EngineCfg snap) = Some m ->
     head (snd (RestoreEngineSnapshot c fmt (Some snap) opts op os)) =
       Some (WUpdateFeatures (TargetEngineName opts) m)) /\
  (forall r d, fst (RestoreEngineSnapshot c fmt (Some snap) opts op os) = Returned (Some r) d None ->
     Created r = false /\ EnginePatched r = false /\ r_FeatureChanges r = []).
Proof.
  intros HT HR HD HU HE.
  assert (Hout : exists o ws, RestoreEngineSnapshot c fmt (Some snap) opts op os =
            (o, (feature_calls (TargetEngineName opts) (ec_Features (EngineCfg snap)) ++ ws)%list) /\
            Forall agent_call ws).
  { unfold RestoreEngineSnapshot. apply String.eqb_neq in HT. rewrite HT, HR, HD.
    destruct (applySnapshot c snap opts (Some eng) ags os []) as [o tr] eqn:EA.
    destruct (applySnapshot_kept_trace _ _ _ _ _ _ _ _ HU EA) as (ws & -> & F).
    destruct o; eexists _, ws; split; eauto. }
  destruct Hout as (o & ws & Hr & F). rewrite Hr. simpl.
  split; [|split].
  - rewrite forallb_app, (forallb_no_engine_call ws F), andb_true_r.
    unfold feature_calls. by destruct (ec_Features (EngineCfg snap)).
  - intros m Hm. unfold feature_calls. rewrite Hm. reflexivity.
  - intros r d Ho. subst o.
    destruct (restore_existing_inv _ _ _ _ _ _ _ _ _ _ _ _ HR HD Hr) as (_ & _ & HA).
    destruct (applySnapshot_existing _ _ _ _ _ _ _ _ HA) as (HC & HP & HF & _).
    rewrite HU in HP. split; [exact HC|]. split; [exact HP|].
    rewrite HF. apply diffFeatures_nil_swap. apply IsEmpty_features in HE. exact HE.
Qed.

Lemma restore_converged_no_engine_write_witness :
  TargetEngineName (opts0 false false false) <> "" /\
  IsEmpty (previewDiff client0 fmt0 snapshot0 (Some engine0) None no_order) = true /\
  head (snd (RestoreEngineSnapshot client0 fmt0 (Some snapshot0) (opts0 false false false) no_order no_order)) =
    Some (WUpdateFeatures engineName0 {["agent-gallery" := "ON"]}).
Proof.
  assert (HT : TargetEngineName (opts0 false false false) <> "") by discriminate.
  assert (HE : IsEmpty (previewDiff client0 fmt0 snapshot0 (Some engine0) None no_order) = true)
    by (vm_compute; reflexivity).
  split; [exact HT|]. split; [exact HE|].
  exact (proj1 (proj2 (restore_converged_no_engine_write client0 fmt0 snapshot0
           (opts0 false false false) no_order no_order engine0 None HT eq_refl eq_refl eq_refl HE))
           _ eq_refl).
Defined.

(** ** C6 *)

(** C6: when the target engine lookup reports not-found and
    [CreateIfMissing = false], [RestoreEngineSnapshot] returns a nil Result
    and a PreconditionFailed-class error, and issues no write call. *)
Theorem restore_missing_target_no_create c fmt snap opts op os e :
  GetEngineDetails c (TargetEngineName opts) = Err e -> isNotFound e = true ->
  CreateIfMissing opts = false ->
  exists err, RestoreEngineSnapshot c fmt snap opts op os = (Returned None emptyDiff (Some err), []) /\
              error_class err = PreconditionFailedClass.
Proof.
  intros HG HN HC. unfold RestoreEngineSnapshot.
  destruct snap as [snap|]; [|eexists; split; reflexivity].
  destruct (String.eqb (TargetEngineName opts) ""); [eexists; split; reflexivity|].
  unfold resolveTarget. rewrite HG, HN, HC. simpl.
  eexists; split; reflexivity.
Qed.

Lemma restore_missing_target_no_create_witness :
  RestoreEngineSnapshot client_missing fmt0 (Some snapshot0) (opts0 false true false) no_order no_order =
    (Returned None emptyDiff
       (Some (Errorf ("engine " ++ engineName0 ++ " not found and create option disabled")%string)), []) /\
  exists err, RestoreEngineSnapshot client_missing fmt0 (Some snapshot0) (opts0 false true false) no_order no_order =
                (Returned None emptyDiff (Some err), []) /\ error_class err = PreconditionFailedClass.
Proof.
  split; [reflexivity|].
  exact (restore_missing_target_no_create client_missing fmt0 (Some snapshot0) (opts0 false true false)
           no_order no_order (ApiError 404 "not found") eq_refl eq_refl eq_refl).
Defined.

(** ** C4 *)

(** C4 (counterexample): a dry run against a missing target with
    [CreateIfMissing = false] writes nothing but returns an error and an
    empty diff instead of the preview (which would report the engine as
    to be created). *)
Lemma restore_dry_run_counterexample :
  RestoreEngineSnapshot client_missing fmt0 (Some snapshot0) (opts0 false false true) no_order no_order =
    (Returned None emptyDiff
       (Some (Errorf ("engine " ++ engineName0 ++ " not found and create option disabled")%string)), []) /\
  IsEmpty (previewDiff client_missing fmt0 snapshot0 None None no_order) = false /\
  ~ restore_dry_run_claim.
Proof.
  split; [reflexivity|]. split; [vm_compute; reflexivity|].
  intros Hc. destruct (Hc client_missing fmt0 (Some snapshot0) (opts0 false false true) no_order no_order eq_refl)
    as [_ [d Hd]].
  vm_compute in Hd. discriminate.
Qed.

(** C4 (amended): with [DryRun = true], whatever [CreateIfMissing] and
    [UpdateExisting] are, no write call is issued; when the target resolves
    (found with its agents, or not found with [CreateIfMissing = true]) the
    preview diff is returned with no Result and no error, and otherwise the
    resolution error is returned with an empty diff; a nil snapshot or an
    empty target name also gives an error with an empty diff. *)
Theorem restore_dry_run_no_writes c fmt snap opts op os :
  DryRun opts = true ->
  snd (RestoreEngineSnapshot c fmt snap opts op os) = [] /\
  (forall s, snap = Some s -> TargetEngineName opts <> "" ->
     (forall eng ags, resolveTarget c opts = Ok (eng, ags) ->
        fst (RestoreEngineSnapshot c fmt snap opts op os) = Returned None (previewDiff c fmt s eng ags op) None) /\
     (forall e, resolveTarget c opts = Err e ->
        fst (RestoreEngineSnapshot c fmt snap opts op os) = Returned None emptyDiff (Some e))) /\
  (snap = None \/ TargetEngineName opts = "" ->
     exists e, fst (RestoreEngineSnapshot c fmt snap opts op os) = Returned None emptyDiff (Some e)).
Proof.
  intros HD. unfold RestoreEngineSnapshot. split; [|split].
  - destruct snap as [s|]; [|reflexivity].
    destruct (String.eqb (TargetEngineName opts) ""); [reflexivity|].
    destruct (resolveTarget c opts) as [[eng ags]|e]; [|reflexivity].
    rewrite HD. reflexivity.
  - intros s -> HT. apply String.eqb_neq in HT. rewrite HT. split.
    + intros eng ags HR. rewrite HR, HD. reflexivity.
    + intros e HR. rewrite HR. reflexivity.
  - intros [->|HT]; [eexists; reflexivity|].
    destruct snap as [s|]; [|eexists; reflexivity].
    rewrite HT. eexists; reflexivity.
Qed.

Lemma restore_dry_run_no_writes_witness :
  RestoreEngineSnapshot client_missing fmt0 (Some snapshot0) (opts0 true false true) no_order no_order =
    (Returned None (previewDiff client_missing fmt0 snapshot0 None None no_order) None, []) /\
  snd (RestoreEngineSnapshot client_missing fmt0 (Some snapshot0) (opts0 true false true) no_order no_order) = [].
Proof.
  split; [reflexivity|].
  exact (proj1 (restore_dry_run_no_writes client_missing fmt0 (Some snapshot0) (opts0 true false true)
                  no_order no_order eq_refl)).
Defined.

(** ** C8 *)

(** C8: the identity key of an agent is the lowercase of the first
    non-empty of external-agent link, display name and server name, and
    the empty string when all three are empty or the agent is nil; it is a
    total function. *)
Theorem agentSnapshotKey_precedence (agent : option Agent) :
  agentSnapshotKey agent = agent_key_spec agent.
Proof.
  destruct agent as [a|]; [|reflexivity].
  unfold agentSnapshotKey, agent_key_spec, key_candidates. simpl.
  destruct (String.eqb (match a_DialogflowAgentDefinition a with
                        | Some d => DialogflowAgent d | None => "" end) ""); simpl;
    [|reflexivity].
  destruct (String.eqb (a_DisplayName a) ""); simpl; [|reflexivity].
  destruct (String.eqb_spec (a_Name a) "") as [->|_]; reflexivity.
Qed.

(** ** C2 *)

(** C2 (failing input): comparing a snapshot without agents to one with
    agents "Alpha" and "Beta" reports two "added" changes whose order is the
    order in which the runtime iterates [desiredMap]: both orders are
    possible, and the diffs differ. *)
Lemma DiffSnapshots_agent_order_varies :
  let A := snapshot0 in
  let B := with_agents snapshot0 two_agents in
  let o1 := canonical_order (Agents A) (Agents B) in
  let o2 := {| ord_desired := rev (ord_desired o1); ord_current := ord_current o1 |} in
  valid_order (Agents A) (Agents B) o1 /\ valid_order (Agents A) (Agents B) o2 /\
  map Key (AgentChanges (DiffSnapshots fmt0 A B o1)) = ["alpha"; "beta"] /\
  map Key (AgentChanges (DiffSnapshots fmt0 A B o2)) = ["beta"; "alpha"] /\
  ~ diff_deterministic_claim.
Proof.
  intros A B o1 o2.
  assert (H1 : valid_order (Agents A) (Agents B) o1) by (split; unfold go_range; reflexivity).
  assert (H2 : valid_order (Agents A) (Agents B) o2).
  { split; unfold go_range; [|reflexivity].
    change (rev (map_to_list (agent_map (Agents B))) ≡ₚ map_to_list (agent_map (Agents B))).
    symmetry; apply Permutation_rev. }
  assert (K1 : map Key (AgentChanges (DiffSnapshots fmt0 A B o1)) = ["alpha"; "beta"])
    by (vm_compute; reflexivity).
  assert (K2 : map Key (AgentChanges (DiffSnapshots fmt0 A B o2)) = ["beta"; "alpha"])
    by (vm_compute; reflexivity).
  split; [exact H1|]. split; [exact H2|]. split; [exact K1|]. split; [exact K2|].
  clearbody o2 o1 B A.
  intros Hc. specialize (Hc fmt0 A B o1 o2 H1 H2).
  rewrite Hc, K2 in K1. discriminate.
Qed.

(** ** C5 *)

Lemma diffMetadata_swap a b : diffMetadata b a = map swapField (diffMetadata a b).
Proof.
  unfold diffMetadata. rewrite !map_app.
  rewrite (String.eqb_sym (md_DisplayName b)), (String.eqb_sym (md_Description b)),
    (String.eqb_sym (md_Notes b)).
  by destruct (String.eqb (md_DisplayName a) _), (String.eqb (md_Description a) _),
    (String.eqb (md_Notes a) _).
Qed.

Lemma stringSlicesEqual_sym a b : stringSlicesEqual a b = stringSlicesEqual b a.
Proof. unfold stringSlicesEqual. apply bool_decide_ext. split; auto. Qed.

Lemma compareSearchConfigs_sym a b : compareSearchConfigs a b = compareSearchConfigs b a.
Proof.
  destruct a as [a|], b as [b|]; simpl; auto.
  by rewrite String.eqb_sym, stringSlicesEqual_sym.
Qed.

(** [mapsEqual] holds iff the sizes agree and every entry of [a] has a
    counterpart in [b] printing the same way. *)
Lemma mapsEqual_spec fmt a b :
  mapsEqual fmt a b = true <->
  size (mentries a) = size (mentries b) /\
  forall k v, mentries a !! k = Some v ->
    exists bv, mentries b !! k = Some bv /\ fmt v = fmt bv.
Proof.
  unfold mapsEqual. rewrite andb_true_iff, Nat.eqb_eq, forallb_forall.
  split; intros [Hs H]; split; auto.
  - intros k v Hk. apply elem_of_map_to_list, list_elem_of_In in Hk.
    specialize (H _ Hk). simpl in H.
    destruct (mentries b !! k) as [bv|]; [|discriminate].
    apply String.eqb_eq in H. eauto.
  - intros [k v] Hk. apply list_elem_of_In, elem_of_map_to_list in Hk.
    destruct (H _ _ Hk) as (bv & Hb & E). simpl. rewrite Hb. by apply String.eqb_eq.
Qed.

Lemma mapsEqual_sym_true fmt a b : mapsEqual fmt a b = true -> mapsEqual fmt b a = true.
Proof.
  rewrite !mapsEqual_spec. intros [Hs H]. split; [done|].
  assert (Hd : dom (mentries a) = dom (mentries b)).
  { apply set_subseteq_size_eq.
    - intros k Hk. apply elem_of_dom in Hk as [v Hv].
      destruct (H _ _ Hv) as (bv & Hb & _). apply elem_of_dom. eauto.
    - rewrite !size_dom. lia. }
  intros k v Hk.
  assert (Ha : k ∈ dom (mentries a)) by (rewrite Hd; apply elem_of_dom; eauto).
  apply elem_of_dom in Ha as [av Hav].
  destruct (H _ _ Hav) as (bv & Hb & E). rewrite Hk in Hb. inversion Hb; subst.
  eauto.
Qed.

Lemma mapsEqual_sym fmt a b : mapsEqual fmt a b = mapsEqual fmt b a.
Proof.
  destruct (mapsEqual fmt a b) eqn:E1, (mapsEqual fmt b a) eqn:E2; auto.
  - apply mapsEqual_sym_true in E1. congruence.
  - apply mapsEqual_sym_true in E2. congruence.
Qed.

Lemma diffEngineConfig_swap fmt a b :
  diffEngineConfig fmt b a = map swapField (diffEngineConfig fmt a b).
Proof.
  unfold diffEngineConfig. rewrite !map_app.
  rewrite (String.eqb_sym (ec_DisplayName b)), (String.eqb_sym (ec_SolutionType b)),
    (String.eqb_sym (ec_IndustryVertical b)), (String.eqb_sym (ec_AppType b)),
    (stringSlicesEqual_sym (ec_DataStoreIds b)), (mapsEqual_sym fmt (ec_CommonConfig b)),
    (compareSearchConfigs_sym (ec_SearchConfig b)).
  by destruct (String.eqb (ec_DisplayName a) _), (String.eqb (ec_SolutionType a) _),
    (String.eqb (ec_IndustryVertical a) _), (String.eqb (ec_AppType a) _),
    (stringSlicesEqual _ _), (mapsEqual _ _ _), (compareSearchConfigs _ _).
Qed.

Lemma go_range_in {V} (m : gmap string V) l k v :
  go_range m l -> m !! k = Some v -> In (k, v) l.
Proof.
  intros Hp Hk. apply list_elem_of_In. rewrite Hp. by apply elem_of_map_to_list.
Qed.

(** An agent is reported added exactly when its key is in [desired] only. *)
Lemma diffAgents_added cur des o k ag :
  valid_order cur des o ->
  In (added k ag) (diffAgents cur des o) <->
  agent_map des !! k = Some ag /\ agent_map cur !! k = None.
Proof.
  intros [Hd Hc]. unfold diffAgents, diffAgents_loops. rewrite in_app_iff, !in_flat_map.
  split.
  - intros [([k' v] & Hin & H)|([k' v] & Hin & H)].
    + destruct (agent_map cur !! k') as [e|] eqn:E.
      * destruct (diffAgentsFields e v).2; simpl in H; [|contradiction].
        destruct H as [H|[]]. inversion H.
      * simpl in H. destruct H as [H|[]]. inversion H; subst.
        split; [exact (go_range_lookup _ _ _ _ Hd Hin)|exact E].
    + destruct (agent_map des !! k'); simpl in H; [contradiction|].
      destruct H as [H|[]]. inversion H.
  - intros [Hk Hn]. left. exists (k, ag). split; [exact (go_range_in _ _ _ _ Hd Hk)|].
    simpl. rewrite Hn. by left.
Qed.

(** An agent is reported removed exactly when its key is in [current] only. *)
Lemma diffAgents_removed cur des o k ag :
  valid_order cur des o ->
  In (removed k ag) (diffAgents cur des o) <->
  agent_map cur !! k = Some ag /\ agent_map des !! k = None.
Proof.
  intros [Hd Hc]. unfold diffAgents, diffAgents_loops. rewrite in_app_iff, !in_flat_map.
  split.
  - intros [([k' v] & Hin & H)|([k' v] & Hin & H)].
    + destruct (agent_map cur !! k') as [e|] eqn:E.
      * destruct (diffAgentsFields e v).2; simpl in H; [|contradiction].
        destruct H as [H|[]]. inversion H.
      * simpl in H. destruct H as [H|[]]. inversion H.
    + destruct (agent_map des !! k') eqn:E; simpl in H; [contradiction|].
      destruct H as [H|[]]. inversion H; subst.
      split; [exact (go_range_lookup _ _ _ _ Hc Hin)|exact E].
  - intros [Hk Hn]. right. exists (k, ag). split; [exact (go_range_in _ _ _ _ Hc Hk)|].
    simpl. rewrite Hn. by left.
Qed.


(** C5 (counterexample): the same agent "Helper", bound to a reasoning
    engine in A and to none in B. [diffAgentsFields] flags reasoningEngine
    only when the desired value is non-empty, so DiffSnapshots(A, B) has no
    agent change while DiffSnapshots(B, A) has one update. *)
Lemma diff_symmetric_counterexample :
  let A := helper_with reasoningEngine1 in
  let B := helper_with "" in
  AgentChanges (DiffSnapshots fmt0 A B (canonical_order (Agents A) (Agents B))) = [] /\
  map Key (AgentChanges (DiffSnapshots fmt0 B A (canonical_order (Agents B) (Agents A)))) = ["helper"] /\
  ~ diff_symmetric_claim.
Proof.
  intros A B.
  assert (E1 : AgentChanges (DiffSnapshots fmt0 A B (canonical_order (Agents A) (Agents B))) = [])
    by (vm_compute; reflexivity).
  assert (E2 : length (AgentChanges (DiffSnapshots fmt0 B A (canonical_order (Agents B) (Agents A)))) = 1)
    by (vm_compute; reflexivity).
  assert (E3 : map Key (AgentChanges (DiffSnapshots fmt0 B A (canonical_order (Agents B) (Agents A)))) = ["helper"])
    by (vm_compute; reflexivity).
  clearbody A B.
  split; [exact E1|]. split; [exact E3|].
  intros Hc.
  destruct (Hc fmt0 A B (canonical_order (Agents A) (Agents B)) (canonical_order (Agents B) (Agents A)))
    as (_ & _ & _ & P);
    [split; unfold go_range; reflexivity|split; unfold go_range; reflexivity|].
  apply Permutation_length in P. rewrite E1, E2 in P. discriminate.
Qed.

(** C5 (amended): with Old and New exchanged, DiffSnapshots(B, A) has the
    metadata, engine and feature changes of DiffSnapshots(A, B), in the same
    order, and its added agents are the removed agents of DiffSnapshots(A, B)
    and the other way round, whatever order the runtime iterates the agent
    maps in. *)
Theorem DiffSnapshots_swap fmt A B o o' :
  valid_order (Agents A) (Agents B) o -> valid_order (Agents B) (Agents A) o' ->
  MetadataChanges (DiffSnapshots fmt B A o') = map swapField (MetadataChanges (DiffSnapshots fmt A B o)) /\
  EngineChanges (DiffSnapshots fmt B A o') = map swapField (EngineChanges (DiffSnapshots fmt A B o)) /\
  FeatureChanges (DiffSnapshots fmt B A o') = map swapFeature (FeatureChanges (DiffSnapshots fmt A B o)) /\
  (forall k ag, In (added k ag) (AgentChanges (DiffSnapshots fmt A B o)) <->
                In (removed k ag) (AgentChanges (DiffSnapshots fmt B A o'))) /\
  (forall k ag, In (removed k ag) (AgentChanges (DiffSnapshots fmt A B o)) <->
                In (added k ag) (AgentChanges (DiffSnapshots fmt B A o'))).
Proof.
  intros Ho Ho'. simpl.
  split; [apply diffMetadata_swap|].
  split; [apply diffEngineConfig_swap|].
  split; [apply diffFeatures_swap|].
  split; intros k ag.
  - rewrite (diffAgents_added _ _ _ _ _ Ho), (diffAgents_removed _ _ _ _ _ Ho'). tauto.
  - rewrite (diffAgents_removed _ _ _ _ _ Ho), (diffAgents_added _ _ _ _ _ Ho'). tauto.
Qed.

Lemma DiffSnapshots_swap_witness :
  valid_order (Agents (helper_with reasoningEngine1)) (Agents (helper_with ""))
    (canonical_order (Agents (helper_with reasoningEngine1)) (Agents (helper_with ""))) /\
  valid_order (Agents (helper_with "")) (Agents (helper_with reasoningEngine1))
    (canonical_order (Agents (helper_with "")) (Agents (helper_with reasoningEngine1))) /\
  MetadataChanges (DiffSnapshots fmt0 (helper_with "") (helper_with reasoningEngine1)
      (canonical_order (Agents (helper_with "")) (Agents (helper_with reasoningEngine1)))) =
    map swapField (MetadataChanges (DiffSnapshots fmt0 (helper_with reasoningEngine1) (helper_with "")
      (canonical_order (Agents (helper_with reasoningEngine1)) (Agents (helper_with ""))))).
Proof.
  assert (H1 : valid_order (Agents (helper_with reasoningEngine1)) (Agents (helper_with ""))
    (canonical_order (Agents (helper_with reasoningEngine1)) (Agents (helper_with ""))))
    by (split; unfold go_range; reflexivity).
  assert (H2 : valid_order (Agents (helper_with "")) (Agents (helper_with reasoningEngine1))
    (canonical_order (Agents (helper_with "")) (Agents (helper_with reasoningEngine1))))
    by (split; unfold go_range; reflexivity).
  split; [exact H1|]. split; [exact H2|].
  exact (proj1 (DiffSnapshots_swap fmt0 _ _ _ _ H1 H2)).
Defined.

(** ** C3 *)

Section HeapFacts.
Import Heap.

Lemma alloc_fresh h c : (alloc h c).2 ∉ dom h.
Proof. apply is_fresh. Qed.

Lemma alloc_grows h c : dom h ⊆ dom (alloc h c).1.
Proof. unfold alloc. simpl. rewrite dom_insert_L. set_solver. Qed.

Lemma alloc_keeps h c k v : h !! k = Some v -> (alloc h c).1 !! k = Some v.
Proof.
  intros Hk. unfold alloc. simpl. rewrite lookup_insert_ne; [done|].
  intros E. apply (alloc_fresh h c). unfold alloc. simpl. rewrite E. by apply elem_of_dom.
Qed.

Lemma alloc_allocates c : allocates (fun h => let '(h', l) := alloc h (c h) in (h', Some l)).
Proof.
  intros h. pose proof (alloc_grows h (c h)) as G. pose proof (alloc_keeps h (c h)) as K.
  pose proof (alloc_fresh h (c h)) as F. unfold alloc in *. simpl in *.
  split; [exact G|]. split; [exact K|].
  intros l [= <-]. split; [exact F|]. rewrite dom_insert_L. set_solver.
Qed.

Lemma append_strings_allocates src : allocates (fun h => append_strings h src).
Proof. apply (alloc_allocates (fun h => CStrSlice (read_slice h src))). Qed.

Lemma cloneStringMap_allocates src : allocates (fun h => cloneStringMap h src).
Proof.
  destruct src as [l|].
  - apply (alloc_allocates (fun h => CStrMap match h !! l with Some (CStrMap m) => m | _ => ∅ end)).
  - intros h. simpl. split; [done|]. split; [done|]. discriminate.
Qed.

Lemma cloneStringInterfaceMap_allocates src : allocates (fun h => cloneStringInterfaceMap h src).
Proof.
  destruct src as [l|].
  - apply (alloc_allocates (fun h => CIfaceMap match h !! l with Some (CIfaceMap m) => m | _ => ∅ end)).
  - intros h. simpl. split; [done|]. split; [done|]. discriminate.
Qed.

(** The slice and the two maps of the snapshot live at locations that
    were not in use when [CreateEngineSnapshot] started, and every cell
    of the heap is left as it was. *)
Lemma configSnapshot_fresh h e h' c :
  configSnapshot h e = (h', c) ->
  (forall k v, h !! k = Some v -> h' !! k = Some v) /\
  (forall l, hc_DataStoreIds c = Some l \/ hc_CommonConfig c = Some l \/ hc_Features c = Some l ->
             l ∉ dom h).
Proof.
  unfold configSnapshot.
  destruct (append_strings h (he_DataStoreIds e)) as [h1 ds] eqn:E1.
  destruct (cloneStringInterfaceMap h1 (he_CommonConfig e)) as [h2 cc] eqn:E2.
  destruct (cloneStringMap h2 (he_Features e)) as [h3 fs] eqn:E3.
  intros [= <- <-]. simpl.
  destruct (append_strings_allocates (he_DataStoreIds e) h) as (D1 & K1 & F1).
  destruct (cloneStringInterfaceMap_allocates (he_CommonConfig e) h1) as (D2 & K2 & F2).
  destruct (cloneStringMap_allocates (he_Features e) h2) as (D3 & K3 & F3).
  rewrite E1 in D1, K1, F1. rewrite E2 in D2, K2, F2. rewrite E3 in D3, K3, F3. simpl in *.
  split; [auto|].
  intros l [H|[H|H]].
  - by apply F1.
  - intros Hl. apply (proj1 (F2 l H)). by apply D1.
  - intros Hl. apply (proj1 (F3 l H)). by apply D2, D1.
Qed.
End HeapFacts.

(** The data-store slice, the common-config map and the features map of a
    snapshot are copies: storing to any location the engine could reach
    before the snapshot was taken leaves them as they were. *)
Lemma configSnapshot_copies_frame h e h' c l x :
  Heap.configSnapshot h e = (h', c) -> l ∈ dom h ->
  ec_DataStoreIds (Heap.view_config (<[l := x]> h') c) = ec_DataStoreIds (Heap.view_config h' c) /\
  ec_CommonConfig (Heap.view_config (<[l := x]> h') c) = ec_CommonConfig (Heap.view_config h' c) /\
  ec_Features (Heap.view_config (<[l := x]> h') c) = ec_Features (Heap.view_config h' c).
Proof.
  intros Hc Hl. destruct (configSnapshot_fresh _ _ _ _ Hc) as [_ F].
  simpl. unfold Heap.read_slice_go.
  split; [|split].
  - destruct (Heap.hc_DataStoreIds c) as [l'|] eqn:E; [|done].
    rewrite lookup_insert_ne; [done|]. intros <-. by apply (F l); auto.
  - destruct (Heap.hc_CommonConfig c) as [l'|] eqn:E; [|done].
    rewrite lookup_insert_ne; [done|]. intros <-. by apply (F l); auto.
  - destruct (Heap.hc_Features c) as [l'|] eqn:E; [|done].
    rewrite lookup_insert_ne; [done|]. intros <-. by apply (F l); auto.
Qed.

(** C3 (code bug): [CreateEngineSnapshot] copies the [SearchEngineConfig]
    pointer of the engine into the snapshot. Setting the search tier
    through the engine after the snapshot was taken changes the search
    config the snapshot holds. *)
Theorem CreateEngineSnapshot_search_config_aliased h e h' c l s t :
  Heap.configSnapshot h e = (h', c) ->
  Heap.he_SearchEngineConfig e = Some l -> h !! l = Some (Heap.CSearch s) ->
  Heap.hs_SearchTier s <> t ->
  Heap.hc_SearchConfig c = Some l /\
  option_map SearchTier (ec_SearchConfig (Heap.view_config h' c)) = Some (Heap.hs_SearchTier s) /\
  option_map SearchTier
    (ec_SearchConfig (Heap.view_config (Heap.setSearchTier h' (Heap.he_SearchEngineConfig e) t) c)) = Some t /\
  ec_SearchConfig (Heap.view_config (Heap.setSearchTier h' (Heap.he_SearchEngineConfig e) t) c) <>
    ec_SearchConfig (Heap.view_config h' c).
Proof.
  intros Hc Hl Hs Ht.
  destruct (configSnapshot_fresh _ _ _ _ Hc) as [K _].
  assert (Hsc : Heap.hc_SearchConfig c = Some l).
  { unfold Heap.configSnapshot in Hc.
    destruct (Heap.append_strings _ _), (Heap.cloneStringInterfaceMap _ _), (Heap.cloneStringMap _ _).
    injection Hc as <- <-. exact Hl. }
  pose proof (K _ _ Hs) as Hs'.
  simpl. rewrite Hsc, Hl. simpl. rewrite Hs'. simpl. rewrite lookup_insert_eq. simpl.
  split; [done|]. split; [done|]. split; [done|].
  intros E. injection E as E _. apply Ht. by symmetry.
Qed.

Lemma CreateEngineSnapshot_search_config_aliased_witness :
  Heap.configSnapshot Heap.heap0 Heap.engine_h0 =
    ((Heap.configSnapshot Heap.heap0 Heap.engine_h0).1, (Heap.configSnapshot Heap.heap0 Heap.engine_h0).2) /\
  option_map SearchTier (ec_SearchConfig (Heap.view_config
    (Heap.configSnapshot Heap.heap0 Heap.engine_h0).1 (Heap.configSnapshot Heap.heap0 Heap.engine_h0).2)) =
    Some "SEARCH_TIER_STANDARD" /\
  option_map SearchTier (ec_SearchConfig (Heap.view_config
    (Heap.setSearchTier (Heap.configSnapshot Heap.heap0 Heap.engine_h0).1
       (Heap.he_SearchEngineConfig Heap.engine_h0) "SEARCH_TIER_ENTERPRISE")
    (Heap.configSnapshot Heap.heap0 Heap.engine_h0).2)) = Some "SEARCH_TIER_ENTERPRISE".
Proof.
  assert (Hc : Heap.configSnapshot Heap.heap0 Heap.engine_h0 =
    ((Heap.configSnapshot Heap.heap0 Heap.engine_h0).1, (Heap.configSnapshot Heap.heap0 Heap.engine_h0).2))
    by (vm_compute; reflexivity).
  destruct (CreateEngineSnapshot_search_config_aliased Heap.heap0 Heap.engine_h0 _ _ 3%positive
              {| Heap.hs_SearchTier := "SEARCH_TIER_STANDARD"; Heap.hs_SearchAddOns := None |}
              "SEARCH_TIER_ENTERPRISE" Hc)
    as (_ & A & B & _); [reflexivity|vm_compute; reflexivity|discriminate|].
  split; [exact Hc|]. split; [exact A|exact B].
Defined.

(** ** C7 *)

Section JsonFacts.
Import Json.

Lemma str_take_drop n s : (str_take n s ++ str_drop n s)%string = s.
Proof.
revert s. induction n as [|n IH]; intros [|c s]; try reflexivity.
change (String c (str_take n s ++ str_drop n s) = String c s). f_equal. apply IH.
Qed.

Lemma str_drop_length n s : String.length (str_drop n s) = (String.length s - n)%nat.
Proof. revert s. induction n as [|n IH]; intros [|c s]; simpl; try lia. apply IH. Qed.

Lemma decodeRune_size s : s <> "" -> (1 <= snd (decodeRune s))%nat.
Proof.
destruct s as [|b r]; [done|]. intros _. unfold decodeRune.
repeat match goal with
       | |- context [if ?c then _ else _] => destruct c
       | |- context [match ?x with _ => _ end] => destruct x
       end; simpl; lia.
Qed.

Lemma coerce_fuel_valid n s :
(String.length s <= n)%nat -> validUTF8_fuel n s = true -> coerceUTF8_fuel n s = s.
Proof.
revert s. induction n as [|n IH]; intros s Hl Hv.
- destruct s; simpl in *; [done|lia].
- destruct s as [|b r]; [done|]. cbn [coerceUTF8_fuel validUTF8_fuel] in Hv |- *.
  pose proof (decodeRune_size (String b r) ltac:(discriminate)) as Hs.
  destruct (decodeRune (String b r)) as [c size]. simpl in Hs.
  apply andb_prop in Hv as [Hv1 Hv2]. apply negb_true_iff in Hv1. rewrite Hv1.
  rewrite IH; [apply str_take_drop| |exact Hv2].
  rewrite str_drop_length. simpl in Hl |- *. lia.
Qed.

Lemma coerceUTF8_valid s : ValidString s = true -> coerceUTF8 s = s.
Proof. apply coerce_fuel_valid. lia. Qed.

Lemma string_compare_refl x : String.compare x x = Eq.
Proof.
pose proof (String.compare_antisym x x) as A. destruct (String.compare x x); simpl in A; congruence.
Qed.

Lemma ltb_leb x y : String.ltb x y = true -> String.leb x y = true.
Proof. unfold String.ltb, String.leb. by destruct (String.compare x y). Qed.

Lemma ltb_irrefl x : String.ltb x x = false.
Proof. unfold String.ltb. by rewrite string_compare_refl. Qed.

Lemma ltb_asym x y : String.ltb x y = true -> String.ltb y x = false.
Proof.
unfold String.ltb. rewrite (String.compare_antisym y x).
by destruct (String.compare x y).
Qed.

Lemma map_fst_pairs {V W} (h : V -> W) (l : list (string * V)) :
map fst (map (fun kv => (kv.1, h kv.2)) l) = map fst l.
Proof. induction l as [|kv l IH]; simpl; [done|]. by rewrite IH. Qed.

Lemma insert_by_key_head {V} (kv : string * V) l :
forallb (String.ltb kv.1) (map fst l) = true -> insert_by_key kv l = kv :: l.
Proof.
destruct l as [|kv' l]; [done|]. simpl. intros H. apply andb_prop in H as [H _].
by rewrite (ltb_leb _ _ H).
Qed.

Lemma sort_by_key_sorted {V} (l : list (string * V)) :
sorted_keys (map fst l) = true -> sort_by_key l = l.
Proof.
unfold sort_by_key. induction l as [|kv l IH]; [done|]. simpl. intros H.
apply andb_prop in H as [H1 H2]. rewrite IH by done. by apply insert_by_key_head.
Qed.

Lemma insert_by_key_map {V W} (h : V -> W) (kv : string * V) l :
insert_by_key (kv.1, h kv.2) (map (fun kv => (kv.1, h kv.2)) l) =
map (fun kv => (kv.1, h kv.2)) (insert_by_key kv l).
Proof.
induction l as [|kv' l IH]; simpl; [done|].
destruct (String.leb kv.1 kv'.1); simpl; [done|]. by rewrite IH.
Qed.

Lemma sort_by_key_map {V W} (h : V -> W) (l : list (string * V)) :
sort_by_key (map (fun kv => (kv.1, h kv.2)) l) = map (fun kv => (kv.1, h kv.2)) (sort_by_key l).
Proof.
unfold sort_by_key. induction l as [|kv l IH]; simpl; [done|].
rewrite IH. apply (insert_by_key_map h kv).
Qed.

Lemma insert_by_key_perm {V} (kv : string * V) l : insert_by_key kv l ≡ₚ kv :: l.
Proof.
induction l as [|kv' l IH]; simpl; [done|].
destruct (String.leb kv.1 kv'.1); [done|]. rewrite IH. apply perm_swap.
Qed.

Lemma sort_by_key_perm {V} (l : list (string * V)) : sort_by_key l ≡ₚ l.
Proof.
unfold sort_by_key. induction l as [|kv l IH]; simpl; [done|].
rewrite insert_by_key_perm. by rewrite IH.
Qed.

Lemma sorted_keys_app l1 l2 x y :
sorted_keys (l1 ++ l2) = true -> In x l1 -> In y l2 -> String.ltb x y = true.
Proof.
induction l1 as [|z l1 IH]; simpl; [done|]. intros H Hx Hy.
apply andb_prop in H as [H1 H2]. destruct Hx as [<-|Hx]; [|by apply IH].
rewrite forallb_forall in H1. apply H1. apply in_or_app. by right.
Qed.

Lemma sorted_keys_app_r l1 l2 : sorted_keys (l1 ++ l2) = true -> sorted_keys l2 = true.
Proof.
induction l1 as [|z l1 IH]; simpl; [done|]. intros H. apply andb_prop in H as [_ H]. by apply IH.
Qed.

Lemma assoc_insert_last k v acc :
Forall (fun k' => String.ltb k' k = true) (map fst acc) -> assoc_insert k v acc = acc ++ [(k, v)].
Proof.
induction acc as [|[k' v'] acc IH]; simpl; [done|]. intros H.
inversion H as [|? ? Hk Hr]; subst.
destruct (String.eqb_spec k k') as [->|Hne]; [by rewrite ltb_irrefl in Hk|].
rewrite (ltb_asym _ _ Hk). f_equal. by apply IH.
Qed.

Lemma assoc_fold (key : string -> string) l acc :
(forall kv, In kv l -> key kv.1 = kv.1) ->
sorted_keys (map fst (acc ++ l)) = true ->
fold_left (fun acc kv => assoc_insert (key kv.1) kv.2 acc) l acc = acc ++ l.
Proof.
revert acc. induction l as [|[k v] l IH]; intros acc Hk Hs; simpl.
- by rewrite app_nil_r.
- pose proof (Hk (k, v) (or_introl eq_refl)) as Hkv. simpl in Hkv |- *. rewrite Hkv.
  rewrite assoc_insert_last.
  + rewrite IH; [by rewrite <- app_assoc| |].
    * intros kv Hin. apply Hk. by right.
    * by rewrite <- app_assoc.
  + apply Forall_forall. intros k' Hin.
    rewrite map_app in Hs. apply (sorted_keys_app _ _ _ _ Hs); [by apply list_elem_of_In|]. simpl. by left.
Qed.

Lemma float64_of_safe z : (Z.abs z <= 2 ^ 53)%Z -> float64_of z = Some z.
Proof. intros H. unfold float64_of. apply Z.leb_le in H. by rewrite H. Qed.

Lemma traverse_map {A B C} (f : B -> option C) (g : A -> B) (h : A -> C) l :
(forall x, In x l -> f (g x) = Some (h x)) -> traverse f (map g l) = Some (map h l).
Proof.
induction l as [|x l IH]; intros H; [done|]. simpl.
rewrite (H x (or_introl eq_refl)), IH; [done|]. intros y Hy. apply H. by right.
Qed.

Lemma decodeValue_encode v : wfValue v = true -> decodeValue (encodeValue v) = Some (loadedValue v).
Proof.
induction v as [z|z|s|b| |l IH|kvs IH] using goval_ind'; simpl; intros Hs; try done.
- apply Z.leb_le in Hs. by rewrite float64_of_safe.
- apply Z.leb_le in Hs. by rewrite float64_of_safe.
- by rewrite !(coerceUTF8_valid s Hs).
- rewrite (traverse_map _ _ loadedValue); [done|].
  intros x Hx. rewrite Forall_forall in IH. apply IH; [by apply list_elem_of_In|].
  rewrite forallb_forall in Hs. by apply Hs.
- apply andb_prop in Hs as [Hsort Hall]. rewrite forallb_forall in Hall.
  rewrite Forall_forall in IH.
  rewrite sort_by_key_sorted by (by rewrite map_fst_pairs).
  rewrite map_map. simpl.
  rewrite (map_ext_in _ (fun kv => (kv.1, encodeValue kv.2))).
  2:{ intros [k x] Hin. simpl. specialize (Hall _ Hin). apply andb_prop in Hall as [Hk _].
      by rewrite coerceUTF8_valid. }
  rewrite (traverse_map _ _ (fun kv => (kv.1, loadedValue kv.2))).
  2:{ intros [k x] Hin. simpl. specialize (Hall _ Hin). apply andb_prop in Hall as [_ Hx].
      pose proof (IH (k, x)) as Ih. simpl in Ih.
      rewrite Ih; [done|by apply list_elem_of_In|exact Hx]. }
  simpl. f_equal. f_equal. apply (assoc_fold coerceUTF8 _ []).
  + intros kv Hin. apply in_map_iff in Hin as [[k x] [<- Hin]]. simpl.
    specialize (Hall _ Hin). apply andb_prop in Hall as [Hk _]. by apply coerceUTF8_valid.
  + simpl. by rewrite map_fst_pairs.
Qed.


Lemma foldl_insert_coerce {V} (l : list (string * V)) (m0 : gmap string V) :
(forall kv, In kv l -> ValidString kv.1 = true) ->
foldl (fun m kv => <[coerceUTF8 kv.1 := kv.2]> m) m0 l = foldl (fun m kv => <[kv.1 := kv.2]> m) m0 l.
Proof.
revert m0. induction l as [|kv l IH]; intros m0 H; simpl; [done|].
rewrite coerceUTF8_valid by (apply H; by left). apply IH. intros kv' Hin. apply H. by right.
Qed.

Lemma foldl_insert_union {V} (l : list (string * V)) (m0 : gmap string V) :
NoDup l.*1 -> foldl (fun m kv => <[kv.1 := kv.2]> m) m0 l = list_to_map l ∪ m0.
Proof.
revert m0. induction l as [|[k v] l IH]; intros m0 Hnd; simpl.
- by rewrite map_empty_union.
- inversion Hnd as [|? ? Hk Hnd']; subst.
  rewrite IH by done. simpl.
  rewrite <- insert_union_l.
  rewrite insert_union_r; [done|]. by apply not_elem_of_list_to_map_1.
Qed.

Lemma dec_map_enc {V W} (zero : W) (f : W -> json -> option W) (g : V -> json) (h : V -> W)
  (m : gmap string V) :
(forall k v, m !! k = Some v -> ValidString k = true /\ f zero (g v) = Some (h v)) ->
dec_map zero f None (enc_map g (Some m)) = Some (Some (h <$> m)).
Proof.
intros H. unfold enc_map, dec_map.
assert (HL : forall k v, In (k, v) (sort_by_key (map_to_list m)) -> m !! k = Some v).
{ intros k v Hin. apply elem_of_map_to_list. rewrite <- (sort_by_key_perm (map_to_list m)).
  by apply list_elem_of_In. }
rewrite (traverse_map _ _ (fun kv => (kv.1, h kv.2))).
2:{ intros [k v] Hin. simpl. destruct (H k v (HL k v Hin)) as [Hk ->]. simpl.
    by rewrite coerceUTF8_valid. }
simpl. f_equal. f_equal.
rewrite foldl_insert_coerce.
2:{ intros kv Hin. apply in_map_iff in Hin as [[k v] [<- Hin]]. simpl.
    exact (proj1 (H k v (HL k v Hin))). }
change (map (fun kv => (kv.1, h kv.2)) (sort_by_key (map_to_list m)))
  with (prod_map id h <$> sort_by_key (map_to_list m)).
assert (Hnd : NoDup (sort_by_key (map_to_list m)).*1).
{ rewrite sort_by_key_perm. apply NoDup_fst_map_to_list. }
rewrite foldl_insert_union, map_union_empty.
- rewrite list_to_map_fmap. f_equal.
  rewrite (list_to_map_proper _ (map_to_list m)) by (done || apply sort_by_key_perm).
  apply list_to_map_to_list.
- rewrite <- list_fmap_compose.
  change (fst ∘ prod_map id h) with (@fst string V). exact Hnd.
Qed.

Lemma members_app names n l1 l2 :
members names n (l1 ++ l2) = members names n l1 ++ members names n l2.
Proof.
unfold members. induction l1 as [|kv l1 IH]; simpl; [done|].
destruct (bool_decide _); simpl; [|done]. by rewrite IH.
Qed.

Lemma members_member names n k o :
fieldFor names (coerceUTF8 k) = Some k ->
members names n (member k o) = if String.eqb k n then opt_list o else [].
Proof.
intros H. destruct o as [j|]; unfold members; simpl.
- rewrite H. destruct (String.eqb_spec k n) as [->|Hne].
  + by rewrite bool_decide_true.
  + rewrite bool_decide_false; [done|]. by intros [= ->].
- by destruct (String.eqb k n).
Qed.

Lemma field_of_notin n fs : ~ In n (map fst fs) -> field_of n fs = None.
Proof.
induction fs as [|[k o] fs IH]; intros Hn; [done|]. simpl in *.
destruct (String.eqb_spec k n) as [->|]; [tauto|]. apply IH. tauto.
Qed.

Lemma members_obj_fields_gen names fs n :
NoDup (map fst fs) -> (forall k, In k (map fst fs) -> fieldFor names (coerceUTF8 k) = Some k) ->
members names n (obj_fields fs) = opt_list (field_of n fs).
Proof.
induction fs as [|[k o] fs IH]; intros Hnd Hk; [done|].
inversion Hnd as [|? ? Hnotin Hnd']; subst.
unfold obj_fields. simpl flat_map. rewrite members_app. fold (obj_fields fs).
rewrite IH; [|done|intros k' Hin; apply Hk; by right].
rewrite members_member by (apply Hk; by left). simpl.
destruct (String.eqb_spec k n) as [->|].
- rewrite field_of_notin by (by rewrite <- list_elem_of_In). simpl. by rewrite app_nil_r.
- done.
Qed.

Lemma members_obj_fields names fs n :
map fst fs = names -> exact_names names = true ->
members names n (obj_fields fs) = opt_list (field_of n fs).
Proof.
intros <- Hex. unfold exact_names in Hex. apply andb_prop in Hex as [Hnd Hk].
apply members_obj_fields_gen.
- exact (proj1 (bool_decide_eq_true _) Hnd).
- intros k Hin. rewrite forallb_forall in Hk. exact (proj1 (bool_decide_eq_true _) (Hk k Hin)).
Qed.

Lemma dec_all_opt {A} (f : A -> json -> option A) cur o :
dec_all f cur (opt_list o) = match o with Some j => f cur j | None => Some cur end.
Proof. destruct o as [j|]; simpl; [destruct (f cur j)|]; done. Qed.

Lemma dec_str_enc cur s : ValidString s = true -> dec_str cur (enc_str s) = Some s.
Proof. intros H. unfold dec_str, enc_str. by rewrite !(coerceUTF8_valid s H). Qed.

Lemma dec_omit_str cur s : ValidString s = true -> cur = "" ->
dec_all dec_str cur (opt_list (omit_str s)) = Some s.
Proof.
intros H ->. rewrite dec_all_opt. unfold omit_str.
destruct (String.eqb_spec s "") as [->|]; [done|]. by apply dec_str_enc.
Qed.

Lemma dec_omit_ptr {A B} (zero : A) (f : A -> json -> option A) (g : B -> json) (view : A -> B)
  (h : B -> B) (p : option B) :
(forall x, p = Some x -> g x <> JNull /\ exists y, f zero (g x) = Some y /\ view y = h x) ->
exists q, dec_all (dec_ptr zero f) None (opt_list (omit_ptr g p)) = Some q /\
          option_map view q = option_map h p.
Proof.
intros H. destruct p as [x|]; [|by exists None].
destruct (H x eq_refl) as [Hn (y & Hy & Hv)]. exists (Some y). simpl.
split; [|by rewrite Hv]. unfold dec_ptr.
destruct (g x); try (rewrite Hy; reflexivity). contradiction.
Qed.

Lemma dec_omit_ptr_eq {A} (zero : A) (f : A -> json -> option A) (g : A -> json) (p : option A) :
(forall x, p = Some x -> g x <> JNull /\ f zero (g x) = Some x) ->
dec_all (dec_ptr zero f) None (opt_list (omit_ptr g p)) = Some p.
Proof.
intros H. destruct (dec_omit_ptr zero f g id id p) as (q & E & V).
- intros x Hx. destruct (H x Hx) as [Hn Hf]. split; [done|]. by exists x.
- rewrite E. f_equal. destruct q, p; simpl in V; congruence.
Qed.

Lemma dec_omit_map {V} (zero : V) (f : V -> json -> option V) (g : V -> json) (h : V -> V) (m : gomap V) :
(forall k v, mentries m !! k = Some v -> ValidString k = true /\ f zero (g v) = Some (h v)) ->
dec_all (dec_map zero f) None (opt_list (omit_map g m)) = Some (loaded_map h m).
Proof.
intros H. unfold omit_map, loaded_map. destruct (Nat.eqb _ 0); [done|].
destruct m as [m|]; [|done]. rewrite dec_all_opt. exact (dec_map_enc zero f g h m H).
Qed.

Lemma grow_backing {A} grow size (zero : A) xs r :
exists r1,
(if Nat.ltb (length xs) (length (xs ++ replicate r zero)) then xs ++ replicate r zero
 else (xs ++ replicate r zero) ++
      replicate (grown grow size (length (xs ++ replicate r zero)) - length (xs ++ replicate r zero)) zero) =
xs ++ replicate (S r1) zero.
Proof.
destruct r as [|r]; simpl replicate.
- rewrite app_nil_r, Nat.ltb_irrefl. exists (grown grow size (length xs) - length xs - 1).
  f_equal. change (zero :: replicate (grown grow size (length xs) - length xs - 1) zero) with (replicate (S (grown grow size (length xs) - length xs - 1)) zero). f_equal. unfold grown. lia.
- exists r. replace (Nat.ltb _ _) with true; [done|].
  symmetry. apply Nat.ltb_lt. rewrite length_app. simpl. lia.
Qed.

Lemma dec_elems_fresh {A B} grow size (zero : A) (f : A -> json -> option A) (g : B -> json)
  (P : B -> A -> Prop) (l : list B) :
forall xs r, (forall x, In x l -> exists y, f zero (g x) = Some y /\ P x y) ->
exists ys r', dec_elems grow size zero f (length xs) (xs ++ replicate r zero) (map g l) =
              Some (xs ++ ys ++ replicate r' zero) /\ Forall2 P l ys.
Proof.
induction l as [|x l IH]; intros xs r H.
- exists [], r. split; [done|constructor].
- destruct (H x (or_introl eq_refl)) as (y & Hy & Hp).
  simpl. destruct (grow_backing grow size zero xs r) as [r1 Hb]. rewrite Hb.
  rewrite lookup_app_r, Nat.sub_diag by lia. simpl. rewrite Hy.
  rewrite insert_app_r_alt, Nat.sub_diag by lia. simpl.
  destruct (IH (xs ++ [y]) r1) as (ys & r' & E & HF).
  { intros x' Hin. apply H. by right. }
  rewrite <- app_assoc in E. rewrite length_app in E. simpl in E.
  rewrite Nat.add_1_r in E. rewrite E.
  exists (y :: ys), r'. split; [by rewrite <- app_assoc|by constructor].
Qed.

Lemma Forall2_map_eq {A B} (view : A -> B) (h : B -> B) l ys :
Forall2 (fun x y => view y = h x) l ys -> map view ys = map h l.
Proof. induction 1; simpl; congruence. Qed.

Lemma dec_omit_slice {A B} grow size (zero : A) (f : A -> json -> option A) (g : B -> json)
  (view : A -> B) (h : B -> B) (s : goslice B) :
(forall x, In x (elems s) -> exists y, f zero (g x) = Some y /\ view y = h x) ->
exists st, dec_all (dec_slice grow size zero f) (mk_slice None []) (opt_list (omit_slice g s)) = Some st /\
           option_map (map view) (sl st) = loaded_slice h s.
Proof.
intros H. unfold omit_slice, loaded_slice.
destruct (Nat.eqb (length (elems s)) 0) eqn:E; [by eexists|].
destruct s as [[|x l]|]; [done| |done]. simpl.
destruct (dec_elems_fresh grow size zero f g (fun x y => view y = h x) (x :: l) [] 0 H)
  as (ys & r' & Ed & HF).
simpl in Ed. rewrite Ed. eexists. split; [reflexivity|]. simpl.
rewrite take_app_length' by (apply Forall2_length in HF; simpl in *; rewrite length_map; lia).
f_equal. exact (Forall2_map_eq view h (x :: l) ys HF).
Qed.

Lemma dec_omit_slice_id {A} grow size (zero : A) (f : A -> json -> option A) (g : A -> json)
  (h : A -> A) (s : goslice A) :
(forall x, In x (elems s) -> f zero (g x) = Some (h x)) ->
exists st, dec_all (dec_slice grow size zero f) (mk_slice None []) (opt_list (omit_slice g s)) = Some st /\
           sl st = loaded_slice h s.
Proof.
intros H. destruct (dec_omit_slice grow size zero f g id h s) as (st & E & V).
- intros x Hx. exists (h x). by rewrite H.
- exists st. split; [done|]. rewrite <- V. destruct (sl st); simpl; [by rewrite list_fmap_id|done].
Qed.


Ltac split_bools :=
  repeat match goal with H : _ && _ = true |- _ => apply andb_prop in H as [? ?] end.

Ltac rewrite_valid :=
  repeat match goal with
         | H : ValidString ?s = true |- context [coerceUTF8 ?s] => rewrite (coerceUTF8_valid s H)
         end.

Ltac resolve_fields names :=
  rewrite !(members_obj_fields names) by (reflexivity || (vm_compute; reflexivity)); simpl.

Lemma decodeIcon_encode i :
ValidString (URI i) = true -> ValidString (Content i) = true ->
decodeIconInto iconZero (encodeIcon i) = Some i.
Proof.
intros H1 H2. unfold decodeIconInto, encodeIcon. resolve_fields iconFields.
rewrite !dec_omit_str by (assumption || reflexivity). by destruct i.
Qed.


Lemma decodeDialogflow_encode d :
ValidString (DialogflowAgent d) = true -> decodeDialogflowInto dialogflowZero (encodeDialogflow d) = Some d.
Proof.
intros H. unfold decodeDialogflowInto, encodeDialogflow. resolve_fields dialogflowFields.
rewrite !dec_omit_str by (assumption || reflexivity). by destruct d.
Qed.

Lemma dec_icon p :
match p with Some i => ValidString (URI i) && ValidString (Content i) | None => true end = true ->
dec_all (dec_ptr iconZero decodeIconInto) None (opt_list (omit_ptr encodeIcon p)) = Some p.
Proof.
intros H. apply dec_omit_ptr_eq. intros i ->. apply andb_prop in H as [H1 H2].
split; [discriminate|]. by apply decodeIcon_encode.
Qed.

Lemma dec_dialogflow p :
match p with Some d => ValidString (DialogflowAgent d) | None => true end = true ->
dec_all (dec_ptr dialogflowZero decodeDialogflowInto) None (opt_list (omit_ptr encodeDialogflow p)) = Some p.
Proof.
intros H. apply dec_omit_ptr_eq. intros d ->.
split; [discriminate|]. by apply decodeDialogflow_encode.
Qed.

Lemma wf_value_map_lookup m k v :
wf_value_map m = true -> mentries m !! k = Some v -> ValidString k = true /\ wfValue v = true.
Proof.
unfold wf_value_map. rewrite forallb_forall. intros H Hk.
apply andb_prop. apply (H (k, v)). apply list_elem_of_In. by apply elem_of_map_to_list.
Qed.

Lemma wf_str_map_lookup m k v :
wf_str_map m = true -> mentries m !! k = Some v -> ValidString k = true /\ ValidString v = true.
Proof.
unfold wf_str_map. rewrite forallb_forall. intros H Hk.
apply andb_prop. apply (H (k, v)). apply list_elem_of_In. by apply elem_of_map_to_list.
Qed.

Lemma dec_value_map m : wf_value_map m = true ->
dec_all (dec_map GNil dec_iface) None (opt_list (omit_map encodeValue m)) = Some (loaded_map loadedValue m).
Proof.
intros H. apply dec_omit_map. intros k v Hk.
destruct (wf_value_map_lookup m k v H Hk) as [Hk' Hv]. split; [done|].
by apply decodeValue_encode.
Qed.

Lemma dec_str_map m : wf_str_map m = true ->
dec_all (dec_map "" dec_str) None (opt_list (omit_map enc_str m)) = Some (loaded_map id m).
Proof.
intros H. apply dec_omit_map. intros k v Hk.
destruct (wf_str_map_lookup m k v H Hk) as [Hk' Hv]. split; [done|].
by apply dec_str_enc.
Qed.

Lemma dec_env_elem m : wf_value_map m = true ->
dec_map GNil dec_iface None (enc_map encodeValue m) = Some (option_map (fmap loadedValue) m).
Proof.
intros H. destruct m as [m|]; [|done]. apply dec_map_enc. intros k v Hk.
destruct (wf_value_map_lookup (Some m) k v H Hk) as [Hk' Hv]. split; [done|].
by apply decodeValue_encode.
Qed.

Lemma decodeAgent_encode grow a : wfAgent a = true ->
exists st, decodeAgentInto grow agentZero (encodeAgent a) = Some st /\ ag st = loadedAgent a.
Proof.
intros Hwf. unfold wfAgent in Hwf. simpl forallb in Hwf. split_bools.
destruct (dec_omit_slice_id grow 16 "" dec_str enc_str id (a_Capabilities a)) as (cp & Ecp & Vcp).
{ intros x Hx. apply dec_str_enc. rewrite forallb_forall in *. auto. }
destruct (dec_omit_slice_id grow 8 None (dec_map GNil dec_iface) (enc_map encodeValue)
            (option_map (fmap loadedValue)) (a_EnvironmentConfigurations a)) as (ev & Eev & Vev).
{ intros x Hx. apply dec_env_elem. rewrite forallb_forall in *. auto. }
unfold decodeAgentInto, encodeAgent. resolve_fields agentFields.
rewrite !dec_omit_str by (assumption || reflexivity).
rewrite dec_icon, dec_dialogflow by assumption.
rewrite !dec_value_map, !dec_str_map by assumption.
rewrite Ecp, Eev. eexists. split; [reflexivity|]. simpl.
rewrite Vcp, Vev. reflexivity.
Qed.

Lemma decodeMetadata_encode m :
forallb ValidString [md_Version m; md_OriginalEngineName m; md_OriginalEngineID m;
                     md_SourceProjectID m; md_SourceLocation m; md_SourceCollection m;
                     md_TakenAt m; md_DisplayName m; md_Description m; md_Notes m] = true ->
decodeMetadataInto metadataZero (encodeMetadata m) = Some m.
Proof.
intros Hwf. simpl in Hwf. split_bools.
unfold decodeMetadataInto, encodeMetadata. resolve_fields metadataFields.
rewrite !dec_omit_str by (assumption || reflexivity). rewrite_valid. by destruct m.
Qed.

Lemma search_reload_ok c sc : search_ok c sc ->
exists st, decodeSearchInto c (search_zero c) (encodeSearch c sc) = Some st /\
           search_view c st = search_reload c sc.
Proof.
intros (_ & st & E & _). exists st. split; [done|]. unfold search_reload. by rewrite E.
Qed.

Lemma decodeEngine_encode c grow e :
forallb ValidString [ec_DisplayName e; ec_SolutionType e; ec_IndustryVertical e; ec_AppType e] = true ->
forallb ValidString (elems (ec_DataStoreIds e)) = true -> wf_value_map (ec_CommonConfig e) = true ->
wf_str_map (ec_Features e) = true ->
(forall sc, ec_SearchConfig e = Some sc -> search_ok c sc) ->
exists st, decodeEngineInto c grow (engineZero c) (encodeEngineConfig c e) = Some st /\
           viewEngine c st = loadedEngineCfg c e.
Proof.
intros Hs Hds Hcc Hft Hsc. simpl in Hs. split_bools.
destruct (dec_omit_slice_id grow 16 "" dec_str enc_str id (ec_DataStoreIds e)) as (ds & Eds & Vds).
{ intros x Hx. apply dec_str_enc. rewrite forallb_forall in *. auto. }
destruct (dec_omit_ptr (search_zero c) (decodeSearchInto c) (encodeSearch c) (search_view c)
            (search_reload c) (ec_SearchConfig e)) as (sc & Esc & Vsc).
{ intros x Hx. destruct (Hsc x Hx) as [Hn Hok]. split; [exact Hn|].
  apply search_reload_ok. exact (Hsc x Hx). }
unfold decodeEngineInto, encodeEngineConfig. resolve_fields engineFields.
rewrite dec_value_map, dec_str_map by assumption.
rewrite Eds. simpl in Esc. rewrite Esc. eexists. split; [reflexivity|].
unfold viewEngine, loadedEngineCfg. simpl. rewrite_valid. rewrite Vds, Vsc. reflexivity.
Qed.


Lemma LoadEngineSnapshot_Marshal c grow s :
wf_snapshot s = true -> (forall sc, ec_SearchConfig (EngineCfg s) = Some sc -> search_ok c sc) ->
LoadEngineSnapshot c grow (MarshalJSONBytes c s) = Some (loadedSnapshot c s).
Proof.
intros Hwf Hsc. unfold wf_snapshot in Hwf. apply andb_prop in Hwf as [Hwf Hag]. split_bools.
destruct (decodeEngine_encode c grow (EngineCfg s)) as (est & Ee & Ve); try assumption.
destruct (dec_omit_slice grow 8 None (dec_ptr agentZero (decodeAgentInto grow)) encodeAgentPtr
            (option_map ag) (option_map loadedAgent) (Agents s)) as (ags & Eags & Vags).
{ intros [a|] Hin; [|by exists None].
  rewrite forallb_forall in Hag. specialize (Hag _ Hin). simpl in Hag.
  destruct (decodeAgent_encode grow a Hag) as (st & Est & Vst).
  exists (Some st). split; [|simpl; by rewrite Vst].
  unfold encodeAgentPtr, encodeAgent, dec_ptr. fold (encodeAgent a). by rewrite Est. }
unfold LoadEngineSnapshot, decodeSnapshotInto, MarshalJSONBytes.
rewrite !(members_obj_fields snapshotFields) by (reflexivity || (vm_compute; reflexivity)).
cbn [field_of String.eqb Ascii.eqb Bool.eqb ss_Metadata ss_Engine ss_Agents].
rewrite Eags, !dec_all_opt. rewrite decodeMetadata_encode by assumption. rewrite Ee. simpl.
unfold viewSnapshot, loadedSnapshot. simpl. by rewrite Ve, Vags.
Qed.

Lemma encodeValue_loaded v : encodeValue (loadedValue v) = encodeValue v.
Proof.
induction v as [z|z|s|b| |l IH|kvs IH] using goval_ind'; simpl; try done.
- f_equal. rewrite map_map. apply map_ext_in. intros x Hx.
  rewrite Forall_forall in IH. apply IH. by apply list_elem_of_In.
- do 3 f_equal. rewrite map_map. apply map_ext_in. intros [k x] Hx. simpl.
  rewrite Forall_forall in IH. f_equal. apply (IH (k, x)). by apply list_elem_of_In.
Qed.

Lemma enc_map_fmap {V} (g : V -> json) (h : V -> V) (m : gmap string V) :
(forall v, g (h v) = g v) -> enc_map g (Some (h <$> m)) = enc_map g (Some m).
Proof.
intros H. simpl. f_equal. rewrite map_to_list_fmap.
change (prod_map id h <$> map_to_list m) with (map (fun kv => (kv.1, h kv.2)) (map_to_list m)).
rewrite sort_by_key_map, map_map. apply map_ext. intros [k v]. simpl. by rewrite H.
Qed.

Lemma omit_map_loaded {V} (g : V -> json) (h : V -> V) (m : gomap V) :
(forall v, g (h v) = g v) -> omit_map g (loaded_map h m) = omit_map g m.
Proof.
intros H. unfold omit_map, loaded_map.
destruct (Nat.eqb (size (mentries m)) 0) eqn:E; [done|].
destruct m as [m|]; [|done]. simpl in *. rewrite map_size_fmap, E.
f_equal. by apply enc_map_fmap.
Qed.

Lemma omit_slice_loaded {A} (g : A -> json) (h : A -> A) (s : goslice A) :
(forall x, g (h x) = g x) -> omit_slice g (loaded_slice h s) = omit_slice g s.
Proof.
intros H. unfold omit_slice, loaded_slice.
destruct (Nat.eqb (length (elems s)) 0) eqn:E; [done|].
destruct s as [l|]; [|done]. simpl in *. rewrite length_map, E.
f_equal. f_equal. rewrite map_map. apply map_ext. exact H.
Qed.

Lemma encodeAgent_loaded a : encodeAgent (loadedAgent a) = encodeAgent a.
Proof.
unfold encodeAgent, loadedAgent. simpl.
rewrite !omit_map_loaded by (intros; try apply encodeValue_loaded; reflexivity).
rewrite !omit_slice_loaded; [reflexivity|reflexivity|].
intros [m|]; [|reflexivity]. simpl. apply enc_map_fmap. apply encodeValue_loaded.
Qed.

Lemma Marshal_loaded c s :
(forall sc, ec_SearchConfig (EngineCfg s) = Some sc -> search_ok c sc) ->
MarshalJSONBytes c (loadedSnapshot c s) = MarshalJSONBytes c s.
Proof.
intros Hsc. unfold MarshalJSONBytes, loadedSnapshot. simpl.
unfold encodeEngineConfig, loadedEngineCfg. simpl.
rewrite !omit_map_loaded by (intros; try apply encodeValue_loaded; reflexivity).
rewrite !omit_slice_loaded; [|intros [a|]; simpl; [apply encodeAgent_loaded|reflexivity]|reflexivity].
destruct (ec_SearchConfig (EngineCfg s)) as [sc|] eqn:E; [|reflexivity]. simpl.
destruct (Hsc sc eq_refl) as (_ & st & Est & Vst). unfold search_reload. by rewrite Est, Vst.
Qed.

End JsonFacts.

Section JsonClaims.
Import Json.




End JsonClaims.


(** ** Further properties of the snapshot code *)

Lemma insert_sorted_perm s l : insert_sorted s l ≡ₚ s :: l.
Proof.
induction l as [|t r IH]; simpl; [done|].
destruct (String.leb s t); [done|]. rewrite IH. constructor.
Qed.

Lemma sortStrings_perm l : sortStrings l ≡ₚ l.
Proof. induction l as [|s r IH]; simpl; [done|]. by rewrite insert_sorted_perm, IH. Qed.

Lemma insert_sorted_sorted s l :
  StronglySorted String.le l -> StronglySorted String.le (insert_sorted s l).
Proof.
induction 1 as [|t r Hr IH Ht]; simpl.
- repeat constructor.
- destruct (String.leb s t) eqn:E.
  + constructor; [constructor; assumption|].
    constructor; [unfold String.le; by rewrite E|].
    eapply List.Forall_impl; [|exact Ht]. intros y Hy.
    etrans; [|exact Hy]. unfold String.le. by rewrite E.
  + constructor; [exact IH|].
    apply List.Forall_forall. intros y Hy.
    apply (list_elem_of_In) in Hy. rewrite insert_sorted_perm in Hy.
    apply elem_of_cons in Hy as [->|Hy].
    * destruct (String.leb_total s t) as [H|H]; [congruence|]. unfold String.le. by rewrite H.
    * apply List.Forall_forall with (x := y) in Ht; [exact Ht|]. by apply list_elem_of_In.
Qed.

Lemma sortStrings_sorted l : StronglySorted String.le (sortStrings l).
Proof. induction l; simpl; [constructor|]. by apply insert_sorted_sorted. Qed.

Lemma le_neq_ltb x y : String.le x y -> x <> y -> String.ltb x y = true.
Proof.
unfold String.le, String.leb, String.ltb. intros H Hne.
destruct (String.compare x y) eqn:E; try done.
apply String.compare_eq_iff in E. contradiction.
Qed.

Lemma StronglySorted_flat_map {A B} (R : B -> B -> Prop) (Q : A -> A -> Prop) (f : A -> list B) (l : list A) :
  (forall x, length (f x) <= 1) ->
  (forall x y u v, Q x y -> In u (f x) -> In v (f y) -> R u v) ->
  StronglySorted Q l -> StronglySorted R (flat_map f l).
Proof.
intros Hlen HR. induction 1 as [|x r Hr IH Hx]; simpl; [constructor|].
specialize (Hlen x). destruct (f x) as [|u [|w t]] eqn:E; simpl in *; [exact IH| |lia].
constructor; [exact IH|]. apply List.Forall_forall. intros v Hv.
apply in_flat_map in Hv as (y & Hy & Hv).
apply List.Forall_forall with (x := y) in Hx; [|exact Hy].
eapply HR; [exact Hx| |exact Hv]. rewrite E. by left.
Qed.

Lemma StronglySorted_strict l :
  StronglySorted String.le l -> NoDup l -> StronglySorted (fun x y => String.le x y /\ x <> y) l.
Proof.
induction 1 as [|x r Hr IH Hx]; intros Hnd; [constructor|].
apply NoDup_cons in Hnd as [Hn Hnd]. constructor; [by apply IH|].
apply List.Forall_forall. intros y Hy. split.
- by apply List.Forall_forall with (x := y) in Hx.
- intros ->. apply Hn. by apply list_elem_of_In.
Qed.

Lemma diffFeatures_keys_sorted a b :
  StronglySorted (fun x y => String.ltb x y = true) (map Feature (diffFeatures a b)).
Proof.
unfold diffFeatures. rewrite flat_map_concat_map, concat_map, map_map, <- flat_map_concat_map.
apply (StronglySorted_flat_map _ (fun x y => String.le x y /\ x <> y)).
- intros k. destruct (negb _); simpl; lia.
- intros x y u v [Hle Hne] Hu Hv.
  destruct (negb (String.eqb (lookup_str a x) _)); simpl in Hu; [|contradiction].
  destruct (negb (String.eqb (lookup_str a y) _)); simpl in Hv; [|contradiction].
  destruct Hu as [<-|[]], Hv as [<-|[]]. simpl. by apply le_neq_ltb.
- apply StronglySorted_strict; [apply sortStrings_sorted|].
  rewrite sortStrings_perm. apply NoDup_elements.
Qed.

Lemma StronglySorted_ltb_NoDup (l : list string) :
  StronglySorted (fun x y => String.ltb x y = true) l -> NoDup l.
Proof.
induction 1 as [|x l _ IH Hx]; constructor; [|exact IH].
intros Hin. rewrite Forall_forall in Hx. specialize (Hx x Hin).
unfold String.ltb in Hx. pose proof (String.compare_antisym x x) as A. destruct (String.compare x x); simpl in A; congruence.
Qed.

Lemma diffFeatures_mem a b fd :
  In fd (diffFeatures a b) <->
  lookup_str a (Feature fd) <> lookup_str b (Feature fd) /\
  ft_Old fd = lookup_str a (Feature fd) /\ ft_New fd = lookup_str b (Feature fd).
Proof.
unfold diffFeatures. rewrite in_flat_map. split.
- intros (k & _ & H).
  destruct (String.eqb_spec (lookup_str a k) (lookup_str b k)) as [E|E]; simpl in H; [contradiction|].
  destruct H as [<-|[]]. simpl. auto.
- destruct fd as [k o n]. simpl. intros (Hne & -> & ->). exists k. split.
  + apply list_elem_of_In. rewrite sortStrings_perm. apply elem_of_elements.
    apply elem_of_union. rewrite !elem_of_dom.
    unfold lookup_str in Hne.
    destruct (mentries a !! k) eqn:Ea; [left; by eexists|].
    destruct (mentries b !! k) eqn:Eb; [right; by eexists|]. congruence.
  + destruct (String.eqb_spec (lookup_str a k) (lookup_str b k)) as [E|E]; [contradiction|].
    simpl. by left.
Qed.

(** [diffFeatures(a, b)] has exactly one entry per key whose values
    differ in [a] and [b] (a missing key reads as [""]), with the value of
    [a] as old value and the one of [b] as new value. *)
Lemma diffFeatures_In a b :
  NoDup (map Feature (diffFeatures a b)) /\
  forall fd, In fd (diffFeatures a b) <->
  lookup_str a (Feature fd) <> lookup_str b (Feature fd) /\
  ft_Old fd = lookup_str a (Feature fd) /\ ft_New fd = lookup_str b (Feature fd).
Proof.
split; [apply StronglySorted_ltb_NoDup, diffFeatures_keys_sorted|intros fd; apply diffFeatures_mem].
Qed.

(** The keys of [diffFeatures(a, b)] come in strictly increasing byte order
    (sorted, no key twice), whatever the iteration order of the maps. *)
Lemma diffFeatures_sorted a b :
  StronglySorted (fun x y => String.ltb x y = true) (map Feature (diffFeatures a b)).
Proof. apply diffFeatures_keys_sorted. Qed.

Lemma mapsEqual_refl fmt m : mapsEqual fmt m m = true.
Proof.
unfold mapsEqual. rewrite Nat.eqb_refl. simpl. apply forallb_forall.
intros [k v] Hin. apply list_elem_of_In, elem_of_map_to_list in Hin. simpl.
rewrite Hin. apply String.eqb_refl.
Qed.

Lemma stringSlicesEqual_refl s : stringSlicesEqual s s = true.
Proof. unfold stringSlicesEqual. by apply bool_decide_eq_true. Qed.

Lemma compareSearchConfigs_refl s : compareSearchConfigs s s = true.
Proof. destruct s as [sc|]; simpl; [|done]. by rewrite String.eqb_refl, stringSlicesEqual_refl. Qed.

Lemma diffAgentsFields_refl a : diffAgentsFields a a = ([], false).
Proof. destruct a as [a|]; [|done]. simpl. by rewrite !String.eqb_refl. Qed.

Lemma flat_map_nil {A B} (f : A -> list B) l : (forall x, In x l -> f x = []) -> flat_map f l = [].
Proof.
induction l as [|x r IH]; intros H; simpl; [done|].
rewrite H by (by left). apply IH. intros y Hy. apply H. by right.
Qed.

Lemma diffAgents_refl l o : valid_order l l o -> diffAgents l l o = [].
Proof.
intros [Hd Hc]. unfold diffAgents, diffAgents_loops.
rewrite !flat_map_nil; [done| |]; intros [k v] Hin.
- by rewrite (go_range_lookup _ _ _ _ Hc Hin).
- rewrite (go_range_lookup _ _ _ _ Hd Hin). by rewrite diffAgentsFields_refl.
Qed.

Lemma diffFeatures_refl a : diffFeatures a a = [].
Proof.
destruct (diffFeatures a a) as [|fd r] eqn:E; [done|].
assert (H : In fd (diffFeatures a a)) by (rewrite E; by left).
apply diffFeatures_mem in H as [H _]. contradiction.
Qed.

(** [DiffSnapshots(S, S)] is empty: a snapshot compared with itself reports no
    metadata, engine, feature or agent change, whatever order the runtime
    chooses for the agent maps. *)
Lemma DiffSnapshots_self fmt snap o : valid_order (Agents snap) (Agents snap) o -> DiffSnapshots fmt snap snap o = emptyDiff.
Proof.
intros Ho. unfold DiffSnapshots, emptyDiff. rewrite diffAgents_refl, diffFeatures_refl by exact Ho.
unfold diffMetadata, diffEngineConfig.
by rewrite !String.eqb_refl, stringSlicesEqual_refl, mapsEqual_refl, compareSearchConfigs_refl.
Qed.

Lemma DiffSnapshots_self_witness :
  let snap := with_agents snapshot0 two_agents in
  valid_order (Agents snap) (Agents snap) (canonical_order (Agents snap) (Agents snap)) /\
  DiffSnapshots fmt0 snap snap (canonical_order (Agents snap) (Agents snap)) = emptyDiff.
Proof.
intros snap. assert (H : valid_order (Agents snap) (Agents snap) (canonical_order (Agents snap) (Agents snap))) by (split; unfold go_range; reflexivity).
split; [exact H|]. exact (DiffSnapshots_self fmt0 snap _ H).
Defined.

Lemma diffAgents_loops_perm cm dm od od' oc oc' :
  od ≡ₚ od' -> oc ≡ₚ oc' -> diffAgents_loops cm dm od oc ≡ₚ diffAgents_loops cm dm od' oc'.
Proof.
intros Hd Hc. unfold diffAgents_loops.
apply Permutation_app; apply Permutation_flat_map; assumption.
Qed.

Lemma diffAgents_valid_perm cur des o o' :
  valid_order cur des o -> valid_order cur des o' -> diffAgents cur des o ≡ₚ diffAgents cur des o'.
Proof.
intros [Hd Hc] [Hd' Hc']. unfold go_range in *. unfold diffAgents.
apply diffAgents_loops_perm; etransitivity; [exact Hd| symmetry; exact Hd'|exact Hc|symmetry; exact Hc'].
Qed.

(** When [DiffSnapshotWithEngine(snapshot, name)] succeeds, a dry-run
    [RestoreEngineSnapshot] of the same snapshot to the same engine returns
    no result, no error, issues no write, and a diff with the same metadata,
    engine and feature changes and the same agent changes up to their order,
    whatever iteration orders the runtime draws for the two calls. *)
Lemma DiffSnapshotWithEngine_matches_dry_run c fmt snap opts o op os d ags :
  TargetEngineName opts <> "" -> DryRun opts = true ->
  DiffSnapshotWithEngine c fmt snap (TargetEngineName opts) o = (d, None) ->
  ListAgents c (TargetEngineName opts) = Ok ags ->
  valid_order (Agents snap) (cloneAgents ags) o -> valid_order (Agents snap) (cloneAgents ags) op ->
  exists d', RestoreEngineSnapshot c fmt (Some snap) opts op os = (Returned None d' None, []) /\
    MetadataChanges d' = MetadataChanges d /\ EngineChanges d' = EngineChanges d /\
    FeatureChanges d' = FeatureChanges d /\ AgentChanges d' ≡ₚ AgentChanges d.
Proof.
intros Hn Hd H Ha Ho Hop. unfold DiffSnapshotWithEngine in H. unfold RestoreEngineSnapshot, resolveTarget, previewDiff.
apply String.eqb_neq in Hn. rewrite Hn, Hd.
destruct (GetEngineDetails c (TargetEngineName opts)) as [eng|e]; [|discriminate].
rewrite Ha in H |- *. inversion H; subst d. simpl.
eexists. split; [reflexivity|]. unfold DiffSnapshots. simpl.
split; [done|]. split; [done|]. split; [done|].
apply diffAgents_valid_perm; assumption.
Qed.

Lemma DiffSnapshotWithEngine_matches_dry_run_witness :
  TargetEngineName (opts0 false false true) <> "" /\ DryRun (opts0 false false true) = true /\
  DiffSnapshotWithEngine client0 fmt0 two_agent_snapshot engineName0 order_fwd
    = (DiffSnapshots fmt0 two_agent_snapshot (liveSnapshot client0 engine0 None) order_fwd, None) /\
  ListAgents client0 engineName0 = Ok None /\
  valid_order (Agents two_agent_snapshot) (cloneAgents None) order_fwd /\
  valid_order (Agents two_agent_snapshot) (cloneAgents None) order_rev /\
  map Key (AgentChanges (DiffSnapshots fmt0 two_agent_snapshot (liveSnapshot client0 engine0 None) order_fwd))
    = ["alpha"; "beta"] /\
  exists d', RestoreEngineSnapshot client0 fmt0 (Some two_agent_snapshot) (opts0 false false true) order_rev no_order
      = (Returned None d' None, []) /\
    MetadataChanges d' = MetadataChanges (DiffSnapshots fmt0 two_agent_snapshot (liveSnapshot client0 engine0 None) order_fwd) /\
    EngineChanges d' = EngineChanges (DiffSnapshots fmt0 two_agent_snapshot (liveSnapshot client0 engine0 None) order_fwd) /\
    FeatureChanges d' = FeatureChanges (DiffSnapshots fmt0 two_agent_snapshot (liveSnapshot client0 engine0 None) order_fwd) /\
    AgentChanges d' ≡ₚ AgentChanges (DiffSnapshots fmt0 two_agent_snapshot (liveSnapshot client0 engine0 None) order_fwd).
Proof.
assert (H1 : TargetEngineName (opts0 false false true) <> "") by discriminate.
assert (H2 : DryRun (opts0 false false true) = true) by reflexivity.
assert (H3 : DiffSnapshotWithEngine client0 fmt0 two_agent_snapshot engineName0 order_fwd
    = (DiffSnapshots fmt0 two_agent_snapshot (liveSnapshot client0 engine0 None) order_fwd, None)) by reflexivity.
assert (H4 : ListAgents client0 engineName0 = Ok None) by reflexivity.
assert (H5 : valid_order (Agents two_agent_snapshot) (cloneAgents None) order_fwd)
  by (split; unfold go_range; reflexivity).
assert (H6 : valid_order (Agents two_agent_snapshot) (cloneAgents None) order_rev).
{ split; unfold go_range; [reflexivity|].
  change (rev (map_to_list (agent_map (Agents two_agent_snapshot))) ≡ₚ
          map_to_list (agent_map (Agents two_agent_snapshot))).
  symmetry; apply Permutation_rev. }
assert (H7 : map Key (AgentChanges (DiffSnapshots fmt0 two_agent_snapshot (liveSnapshot client0 engine0 None) order_fwd))
    = ["alpha"; "beta"]) by (vm_compute; reflexivity).
split; [exact H1|]. split; [exact H2|]. split; [exact H3|]. split; [exact H4|].
split; [exact H5|]. split; [exact H6|]. split; [exact H7|].
exact (DiffSnapshotWithEngine_matches_dry_run client0 fmt0 two_agent_snapshot (opts0 false false true)
  order_fwd order_rev no_order _ None H1 H2 H3 H4 H5 H6).
Defined.

(** When [DiffSnapshotWithEngine] fails, the diff it returns is empty, and the
    error is a 404 for [isNotFound] exactly when the failed read's error is. *)
Lemma DiffSnapshotWithEngine_error c fmt snap name o d e :
  DiffSnapshotWithEngine c fmt snap name o = (d, Some e) ->
  d = emptyDiff /\
  ((exists e0, GetEngineDetails c name = Err e0 /\ isNotFound e = isNotFound e0) \/
   (exists eng e0, GetEngineDetails c name = Ok eng /\ ListAgents c name = Err e0 /\
                   isNotFound e = isNotFound e0)).
Proof.
unfold DiffSnapshotWithEngine.
destruct (GetEngineDetails c name) as [eng|e0]; [destruct (ListAgents c name) as [ags|e0]|];
  intros H; inversion H; subst; split; eauto 8.
Qed.

Lemma DiffSnapshotWithEngine_error_witness :
  DiffSnapshotWithEngine client_missing fmt0 snapshot0 engineName0 no_order
    = (emptyDiff, Some (Wrapf "failed to get engine details" (ApiError 404 "not found"))) /\
  emptyDiff = emptyDiff /\
  ((exists e0, GetEngineDetails client_missing engineName0 = Err e0 /\
     isNotFound (Wrapf "failed to get engine details" (ApiError 404 "not found")) = isNotFound e0) \/
   (exists eng e0, GetEngineDetails client_missing engineName0 = Ok eng /\ ListAgents client_missing engineName0 = Err e0 /\
     isNotFound (Wrapf "failed to get engine details" (ApiError 404 "not found")) = isNotFound e0)).
Proof.
assert (H : DiffSnapshotWithEngine client_missing fmt0 snapshot0 engineName0 no_order
    = (emptyDiff, Some (Wrapf "failed to get engine details" (ApiError 404 "not found")))) by reflexivity.
split; [exact H|]. exact (DiffSnapshotWithEngine_error client_missing fmt0 snapshot0 engineName0 no_order _ _ H).
Defined.

(** The update mask of [patchEngineFromSnapshot] names only displayName,
    industryVertical, appType, dataStoreIds and searchEngineConfig, each at
    most once: the solution type is never patched. *)
Lemma engineUpdateMask_fields cur cfg :
  incl (engineUpdateMask cur cfg) ["displayName"; "industryVertical"; "appType"; "dataStoreIds"; "searchEngineConfig"] /\
  NoDup (engineUpdateMask cur cfg).
Proof.
unfold engineUpdateMask.
repeat case_match; simpl; (split; [intros x Hx; simpl in *; tauto|repeat constructor; set_solver]).
Qed.

(** An empty display name, industry vertical or app type in the snapshot, or
    a nil search config, is never put in the update mask: these fields of
    the live engine are never blanked by a patch. *)
Lemma engineUpdateMask_keeps_empty cur cfg :
  (ec_DisplayName cfg = "" -> ~ In "displayName" (engineUpdateMask cur cfg)) /\
  (ec_IndustryVertical cfg = "" -> ~ In "industryVertical" (engineUpdateMask cur cfg)) /\
  (ec_AppType cfg = "" -> ~ In "appType" (engineUpdateMask cur cfg)) /\
  (ec_SearchConfig cfg = None -> ~ In "searchEngineConfig" (engineUpdateMask cur cfg)).
Proof.
unfold engineUpdateMask. repeat split; intros E; rewrite E; simpl;
repeat case_match; simpl; intuition discriminate.
Qed.

(** Patching an engine with the configuration read from that same engine
    (as [RestoreEngineSnapshot] and [DiffSnapshotWithEngine] read it) issues
    no call and succeeds. *)
Lemma patchEngine_live_noop c name eng ags tr :
  patchEngineFromSnapshot c name (Some eng) (EngineCfg (liveSnapshot c eng ags)) tr = (Done tt, tr).
Proof.
unfold patchEngineFromSnapshot.
assert (E : engineUpdateMask eng (EngineCfg (liveSnapshot c eng ags)) = []).
{ unfold engineUpdateMask. simpl. rewrite !String.eqb_refl, !andb_false_r.
  assert (Hs : stringSlicesEqual (Some (elems (e_DataStoreIds eng))) (e_DataStoreIds eng) = true)
    by (unfold stringSlicesEqual; by apply bool_decide_eq_true).
  rewrite Hs. simpl. destruct (e_SearchEngineConfig eng) as [sc|]; [|done].
  by rewrite String.eqb_refl, stringSlicesEqual_refl. }
by rewrite E.
Qed.

(** Unlike the string fields, the data-store list is patched even when the
    snapshot's list is empty or nil: against a non-empty live list the patch
    call carries dataStoreIds in its mask and an empty list in its body. *)
Lemma patchEngine_clears_dataStoreIds c name cur cfg tr :
  elems (ec_DataStoreIds cfg) = [] -> elems (e_DataStoreIds cur) <> [] ->
  snd (patchEngineFromSnapshot c name (Some cur) cfg tr)
    = tr ++ [WPatchEngine name (enginePatch cur cfg) (engineUpdateMask cur cfg)] /\
  In "dataStoreIds" (engineUpdateMask cur cfg) /\
  p_DataStoreIds (enginePatch cur cfg) = Some [].
Proof.
intros Hc Hl.
assert (Hm : In "dataStoreIds" (engineUpdateMask cur cfg)).
{ unfold engineUpdateMask. rewrite !in_app_iff.
  assert (Hs : stringSlicesEqual (ec_DataStoreIds cfg) (e_DataStoreIds cur) = false).
  { unfold stringSlicesEqual. apply bool_decide_eq_false. rewrite Hc. congruence. }
  rewrite Hs. simpl. tauto. }
split; [|split; [exact Hm|]].
- unfold patchEngineFromSnapshot. destruct (engineUpdateMask cur cfg) as [|f fs] eqn:E; [contradiction|].
  unfold wrap, call. rewrite <- E. by destruct (write_resp c _).
- assert (Hb : bool_decide ("dataStoreIds" ∈ engineUpdateMask cur cfg) = true)
    by (apply bool_decide_eq_true_2; by apply list_elem_of_In).
  unfold enginePatch. simpl. rewrite Hb. by rewrite Hc.
Qed.

Lemma patchEngine_clears_dataStoreIds_witness :
  let cur := {| e_Name := engineName0; e_DisplayName := "Support"; e_SolutionType := "SOLUTION_TYPE_SEARCH";
                e_IndustryVertical := "GENERIC"; e_AppType := ""; e_DataStoreIds := Some ["ds1"];
                e_CommonConfig := None; e_Features := None; e_SearchEngineConfig := None |} in
  let cfg := EngineCfg snapshot0 in
  elems (ec_DataStoreIds cfg) = [] /\ elems (e_DataStoreIds cur) <> [] /\
  snd (patchEngineFromSnapshot client0 engineName0 (Some cur) cfg [])
    = [] ++ [WPatchEngine engineName0 (enginePatch cur cfg) (engineUpdateMask cur cfg)] /\
  In "dataStoreIds" (engineUpdateMask cur cfg) /\
  p_DataStoreIds (enginePatch cur cfg) = Some [].
Proof.
intros cur cfg.
assert (H1 : elems (ec_DataStoreIds cfg) = []) by reflexivity.
assert (H2 : elems (e_DataStoreIds cur) <> []) by discriminate.
split; [exact H1|]. split; [exact H2|].
exact (patchEngine_clears_dataStoreIds client0 engineName0 cur cfg [] H1 H2).
Defined.

(** [createAgentFromSnapshot] issues at most one call, a create on the given
    engine whose reasoning engine is never empty (it defaults to the engine
    name) and whose Dialogflow definition, if any, has a non-empty agent
    link (an empty one is refused before any call). *)
Lemma createAgent_calls c name a tr :
  name <> "" ->
  exists ws, snd (createAgentFromSnapshot c name a tr) = tr ++ ws /\
    (ws = [] \/
     exists inp, ws = [WCreateAgent name inp] /\ in_ReasoningEngine inp <> "" /\
       forall d, in_DialogflowAgentDefinition inp = Some d -> DialogflowAgent d <> "").
Proof.
intros Hn. destruct a as [a|]; [|exists []; split; [simpl; by rewrite app_nil_r|by left]].
unfold createAgentFromSnapshot.
destruct (a_DialogflowAgentDefinition a) as [d|] eqn:Ed;
  [destruct (String.eqb_spec (DialogflowAgent d) "") as [Hd|Hd]|]; simpl;
  [exists []; split; [simpl; by rewrite app_nil_r|by left]| |];
  (eexists; split; [unfold wrap, call; destruct (write_resp c _); reflexivity|]);
  (right; eexists; split; [reflexivity|]); simpl; rewrite ?Ed;
  (split; [destruct (String.eqb_spec (a_ReasoningEngine a) ""); assumption|]);
  intros d' Hd'; congruence.
Qed.

Lemma createAgent_calls_witness :
  engineName0 <> "" /\
  exists ws, snd (createAgentFromSnapshot client0 engineName0 (Some (agent_with "" "Helper" "" "")) []) = [] ++ ws /\
    (ws = [] \/
     exists inp, ws = [WCreateAgent engineName0 inp] /\ in_ReasoningEngine inp <> "" /\
       forall d, in_DialogflowAgentDefinition inp = Some d -> DialogflowAgent d <> "").
Proof.
assert (H : engineName0 <> "") by discriminate.
split; [exact H|]. exact (createAgent_calls client0 engineName0 _ [] H).
Defined.

Lemma syncDesired_changes c n cm dm od acc tr ch tr' :
  syncDesired c n cm od acc tr = (Done ch, tr') -> ch = acc ++ diffAgents_loops cm dm od [].
Proof.
revert acc tr. induction od as [|[k v] od IH]; intros acc tr H.
- inversion H. unfold diffAgents_loops. simpl. by rewrite app_nil_r.
- simpl in H. unfold diffAgents_loops in *. simpl.
  destruct (cm !! k) as [e|] eqn:Ek.
  + destruct (diffAgentsFields e v) as [mask b] eqn:Ef. simpl. destruct b.
    * apply bind_Done_inv in H as (u & tr1 & _ & H). apply IH in H. rewrite H, <- app_assoc. reflexivity.
    * apply IH in H. exact H.
  + apply bind_Done_inv in H as (u & tr1 & _ & H). apply IH in H. rewrite H, <- app_assoc. reflexivity.
Qed.

Lemma syncCurrent_changes c cm dm oc acc tr ch tr' :
  syncCurrent c dm oc acc tr = (Done ch, tr') -> ch = acc ++ diffAgents_loops cm dm [] oc.
Proof.
revert acc tr. induction oc as [|[k v] oc IH]; intros acc tr H.
- inversion H. unfold diffAgents_loops. simpl. by rewrite app_nil_r.
- simpl in H. unfold diffAgents_loops in *. simpl.
  destruct (dm !! k) as [x|] eqn:Ek.
  + apply IH in H. exact H.
  + destruct v as [e|]; [|discriminate].
    apply bind_Done_inv in H as (u & tr1 & _ & H). apply IH in H. rewrite H, <- app_assoc. reflexivity.
Qed.

(** When [syncAgentsWithSnapshot(current, desired)] succeeds, the changes it
    reports are exactly [diffAgents(current, desired)] under the same
    iteration order. *)
Lemma syncAgents_reports_diff c name cur des o tr ch tr' :
  syncAgentsWithSnapshot c name cur des o tr = (Done ch, tr') -> ch = diffAgents cur des o.
Proof.
unfold syncAgentsWithSnapshot. intros H.
apply bind_Done_inv in H as (ch1 & tr1 & H1 & H2).
apply (syncDesired_changes _ _ _ (agent_map des)) in H1.
apply (syncCurrent_changes _ (agent_map cur)) in H2. subst. simpl.
unfold diffAgents, diffAgents_loops. simpl. by rewrite !app_nil_r.
Qed.

Lemma syncAgents_reports_diff_witness :
  let o := canonical_order cur1 two_agents in
  syncAgentsWithSnapshot client0 engineName0 cur1 two_agents o []
    = (Done (diffAgents cur1 two_agents o), snd (syncAgentsWithSnapshot client0 engineName0 cur1 two_agents o [])) /\
  diffAgents cur1 two_agents o = diffAgents cur1 two_agents o.
Proof.
intros o.
assert (H : syncAgentsWithSnapshot client0 engineName0 cur1 two_agents o []
    = (Done (diffAgents cur1 two_agents o), snd (syncAgentsWithSnapshot client0 engineName0 cur1 two_agents o [])))
  by (vm_compute; reflexivity).
split; [exact H|]. exact (syncAgents_reports_diff client0 engineName0 cur1 two_agents o [] _ _ H).
Defined.

Lemma diffAgentsFields_true_some e d mask :
  diffAgentsFields e d = (mask, true) -> exists x y, e = Some x /\ d = Some y.
Proof. destruct e, d; simpl; try discriminate. eauto. Qed.

Lemma syncDesired_no_crash c n cm od acc tr : fst (syncDesired c n cm od acc tr) <> Crashed.
Proof.
revert acc tr. induction od as [|[k v] od IH]; intros acc tr; simpl; [discriminate|].
destruct (cm !! k) as [e|].
- destruct (diffAgentsFields e v) as [mask b] eqn:Ef. destruct b; [|apply IH].
  apply diffAgentsFields_true_some in Ef as (x & y & -> & ->).
  unfold bind, updateAgentFromSnapshot. destruct mask as [|m ms]; [apply IH|].
  unfold wrap, call. destruct (write_resp c _); simpl; [discriminate|apply IH].
- unfold bind, createAgentFromSnapshot. destruct v as [a|]; [|apply IH].
  destruct (match a_DialogflowAgentDefinition a with Some d => _ | None => false end); [discriminate|].
  unfold wrap, call. destruct (write_resp c _); simpl; [discriminate|apply IH].
Qed.

Lemma foldl_agent_values (P : option Agent -> Prop) (m : gmap string (option Agent)) xs :
  (forall k v, m !! k = Some v -> P v) -> Forall P xs ->
  forall k v, foldl (fun m agent => <[agentSnapshotKey agent := agent]> m) m xs !! k = Some v -> P v.
Proof.
revert m. induction xs as [|x xs IH]; intros m Hm Hx; simpl; [exact Hm|].
apply List.Forall_cons_iff in Hx as [Px Hx]. apply IH; [|exact Hx].
intros k' v'. rewrite lookup_insert_Some. intros [[_ <-]|[_ H]]; [exact Px|exact (Hm _ _ H)].
Qed.

Lemma agent_map_values (P : option Agent -> Prop) l k v :
  Forall P (elems l) -> agent_map l !! k = Some v -> P v.
Proof.
intros Hl. apply (foldl_agent_values P ∅ (elems l)); [|exact Hl].
intros k' v'. by rewrite lookup_empty.
Qed.

Lemma syncCurrent_no_crash c dm oc acc tr :
  Forall (fun kv => kv.2 <> None) oc -> fst (syncCurrent c dm oc acc tr) <> Crashed.
Proof.
revert acc tr. induction oc as [|[k v] oc IH]; intros acc tr Hoc; simpl; [discriminate|].
apply List.Forall_cons_iff in Hoc as [Hv Hoc]. simpl in Hv.
destruct (dm !! k); [by apply IH|].
destruct v as [e|]; [|contradiction].
unfold bind, wrap, call. destruct (write_resp c _); simpl; [discriminate|by apply IH].
Qed.

(** If the current agent list holds no nil agent, [syncAgentsWithSnapshot]
    never panics (nil agents in the snapshot are harmless). *)
Lemma syncAgents_no_panic c name cur des o tr :
  valid_order cur des o -> Forall (fun a => a <> None) (elems cur) ->
  fst (syncAgentsWithSnapshot c name cur des o tr) <> Crashed.
Proof.
intros [_ Hc] Hn. unfold syncAgentsWithSnapshot, bind.
pose proof (syncDesired_no_crash c name (agent_map cur) (ord_desired o) [] tr) as H1.
destruct (syncDesired c name (agent_map cur) (ord_desired o) [] tr) as [[ch|e|] tr1]; simpl in *; try done.
apply syncCurrent_no_crash. apply List.Forall_forall. intros [k v] Hin. simpl.
apply (agent_map_values (fun a => a <> None) cur k); [exact Hn|].
exact (go_range_lookup _ _ _ _ Hc Hin).
Qed.

Lemma syncAgents_no_panic_witness :
  let o := canonical_order cur1 two_agents in
  valid_order cur1 two_agents o /\ Forall (fun a => a <> None) (elems cur1) /\
  fst (syncAgentsWithSnapshot client0 engineName0 cur1 two_agents o []) <> Crashed.
Proof.
intros o.
assert (H1 : valid_order cur1 two_agents o) by (split; unfold go_range; reflexivity).
assert (H2 : Forall (fun a => a <> None) (elems cur1)) by (repeat constructor; discriminate).
split; [exact H1|]. split; [exact H2|]. exact (syncAgents_no_panic client0 engineName0 cur1 two_agents o [] H1 H2).
Defined.

Lemma syncDesired_sync_write c n cm dm od acc :
  (forall k v, In (k, v) od -> dm !! k = Some v) -> writes_only (sync_write n cm dm) (syncDesired c n cm od acc).
Proof.
revert acc. induction od as [|[k v] od IH]; intros acc Hod; simpl; [auto with writes|].
assert (Hk : dm !! k = Some v) by (apply Hod; by left).
assert (Hr : forall k v, In (k, v) od -> dm !! k = Some v) by (intros; apply Hod; by right).
destruct (cm !! k) as [e|] eqn:Ek.
- destruct (diffAgentsFields e v) as [mask b] eqn:Ef. destruct b; [|by apply IH].
  apply wo_bind; [|intros; by apply IH].
  pose proof Ef as Es. apply diffAgentsFields_true_some in Es as (x & y & -> & ->).
  unfold updateAgentFromSnapshot. destruct mask as [|m ms]; [apply wo_ret|].
  apply wo_wrap, wo_call. unfold sync_write. exists k, x, y. rewrite Ef. cbn [fst]. repeat split; auto; discriminate.
- apply wo_bind; [|intros; by apply IH].
  unfold createAgentFromSnapshot. destruct v as [a|]; [|apply wo_ret].
  destruct (match a_DialogflowAgentDefinition a with Some d => _ | None => false end); [apply wo_fail|].
  apply wo_wrap, wo_call. simpl. split; [done|]. exists k, a. auto.
Qed.

Lemma syncCurrent_sync_write c n cm dm oc acc :
  (forall k v, In (k, v) oc -> cm !! k = Some v) -> writes_only (sync_write n cm dm) (syncCurrent c dm oc acc).
Proof.
revert acc. induction oc as [|[k v] oc IH]; intros acc Hoc; simpl; [auto with writes|].
assert (Hk : cm !! k = Some v) by (apply Hoc; by left).
assert (Hr : forall k v, In (k, v) oc -> cm !! k = Some v) by (intros; apply Hoc; by right).
destruct (dm !! k) eqn:Ek; [by apply IH|]. destruct v as [e|]; [|apply wo_crash].
apply wo_bind; [|intros; by apply IH].
apply wo_wrap, wo_call. simpl. exists k, e. auto.
Qed.

(** Every write of [syncAgentsWithSnapshot] is an agent call: a create only
    for a key present in the snapshot and absent from the engine, an update
    only of an engine agent whose key is in both, with the non-empty mask
    of [diffAgentsFields], and a delete only of an engine agent whose key is
    absent from the snapshot. *)
Lemma syncAgents_write_sources c name cur des o tr r ws :
  valid_order cur des o ->
  syncAgentsWithSnapshot c name cur des o tr = (r, tr ++ ws) ->
  (forall en inp, In (WCreateAgent en inp) ws ->
     en = name /\ exists k a, agent_map des !! k = Some (Some a) /\ agent_map cur !! k = None /\
                              in_DisplayName inp = a_DisplayName a) /\
  (forall n inp mask, In (WUpdateAgent n inp mask) ws ->
     exists k e d, agent_map cur !! k = Some (Some e) /\ agent_map des !! k = Some (Some d) /\
                   n = a_Name e /\ mask = (diffAgentsFields (Some e) (Some d)).1 /\ mask <> []) /\
  (forall n, In (WDeleteAgent n) ws ->
     exists k e, agent_map cur !! k = Some (Some e) /\ agent_map des !! k = None /\ n = a_Name e) /\
  Forall agent_call ws.
Proof.
intros [Hd Hc] H.
assert (Hw : writes_only (sync_write name (agent_map cur) (agent_map des)) (syncAgentsWithSnapshot c name cur des o)).
{ unfold syncAgentsWithSnapshot. apply wo_bind.
  - apply syncDesired_sync_write. intros k v Hin. exact (go_range_lookup _ _ _ _ Hd Hin).
  - intros. apply syncCurrent_sync_write. intros k v Hin. exact (go_range_lookup _ _ _ _ Hc Hin). }
destruct (Hw _ _ _ H) as (ws' & E & F). apply app_inv_head in E. subst ws'.
rewrite List.Forall_forall in F.
split; [intros en inp Hin; exact (F _ Hin)|].
split; [intros n inp mask Hin; exact (F _ Hin)|].
split; [intros n Hin; exact (F _ Hin)|].
apply List.Forall_forall. intros w Hin. specialize (F _ Hin). destruct w; simpl in *; tauto.
Qed.

Lemma syncAgents_write_sources_witness :
  let o := canonical_order cur1 two_agents in
  let r := syncAgentsWithSnapshot client0 engineName0 cur1 two_agents o [] in
  valid_order cur1 two_agents o /\ r = (fst r, [] ++ snd r) /\
  (forall en inp, In (WCreateAgent en inp) (snd r) ->
     en = engineName0 /\ exists k a, agent_map two_agents !! k = Some (Some a) /\ agent_map cur1 !! k = None /\
                              in_DisplayName inp = a_DisplayName a) /\
  (forall n inp mask, In (WUpdateAgent n inp mask) (snd r) ->
     exists k e d, agent_map cur1 !! k = Some (Some e) /\ agent_map two_agents !! k = Some (Some d) /\
                   n = a_Name e /\ mask = (diffAgentsFields (Some e) (Some d)).1 /\ mask <> []) /\
  (forall n, In (WDeleteAgent n) (snd r) ->
     exists k e, agent_map cur1 !! k = Some (Some e) /\ agent_map two_agents !! k = None /\ n = a_Name e) /\
  Forall agent_call (snd r).
Proof.
intros o r.
assert (H1 : valid_order cur1 two_agents o) by (split; unfold go_range; reflexivity).
assert (H2 : r = (fst r, [] ++ snd r)) by (destruct r; reflexivity).
split; [exact H1|]. split; [exact H2|].
exact (syncAgents_write_sources client0 engineName0 cur1 two_agents o [] (fst r) (snd r) H1 H2).
Defined.

Lemma string_app_cons ch (x y : string) : (String ch x ++ y)%string = String ch (x ++ y).
Proof. reflexivity. Qed.

Lemma string_app_assoc (x y z : string) : ((x ++ y) ++ z)%string = (x ++ (y ++ z))%string.
Proof. induction x as [|ch x IH]; [reflexivity|]. rewrite !string_app_cons. by rewrite IH. Qed.

Lemma string_app_nil_r (x : string) : (x ++ "")%string = x.
Proof. induction x as [|ch x IH]; [reflexivity|]. rewrite string_app_cons. by rewrite IH. Qed.

Lemma list_ascii_app (x y : string) : list_ascii_of_string (x ++ y) = list_ascii_of_string x ++ list_ascii_of_string y.
Proof. induction x as [|ch x IH]; [reflexivity|]. rewrite string_app_cons. simpl. by rewrite IH. Qed.

Lemma last_segment_spec s acc :
  ~ In "/"%char (list_ascii_of_string acc) ->
  ~ In "/"%char (list_ascii_of_string (last_segment s acc)) /\
  exists p, (acc ++ s)%string = (p ++ last_segment s acc)%string /\
            (p = "" \/ exists q, p = (q ++ "/")%string).
Proof.
revert acc. induction s as [|ch s IH]; intros acc Hacc; simpl.
- split; [exact Hacc|]. exists "". rewrite string_app_nil_r. auto.
- destruct (Ascii.eqb_spec ch "/"%char) as [->|Hne].
  + destruct (IH "" (fun H => H)) as [Hn (p & Ep & Hp)]. split; [exact Hn|].
    change (("" ++ s)%string) with s in Ep. exists (acc ++ String "/" p)%string. split.
    * rewrite string_app_assoc, string_app_cons, <- Ep. reflexivity.
    * right. destruct Hp as [->|(q & ->)].
      -- exists acc. reflexivity.
      -- exists (acc ++ String "/" q)%string. rewrite !string_app_assoc. reflexivity.
  + assert (Ha : ~ In "/"%char (list_ascii_of_string (acc ++ String ch ""))).
    { rewrite list_ascii_app, in_app_iff. simpl. intros [H|[H|[]]]; [exact (Hacc H)|exact (Hne H)]. }
    destruct (IH _ Ha) as [Hn (p & Ep & Hp)]. split; [exact Hn|].
    exists p. split; [|exact Hp]. rewrite <- Ep, string_app_assoc. reflexivity.
Qed.

(** [extractResourceID(s)] is the part of [s] after its last '/': it contains
    no '/', and [s] is it preceded by nothing or by a prefix ending in '/'. *)
Lemma extractResourceID_last_segment s :
  ~ In "/"%char (list_ascii_of_string (extractResourceID s)) /\
  exists p, s = (p ++ extractResourceID s)%string /\ (p = "" \/ exists q, p = (q ++ "/")%string).
Proof.
unfold extractResourceID. destruct (String.eqb_spec s "") as [->|Hs].
- split; [simpl; tauto|]. exists "". auto.
- exact (last_segment_spec s "" (fun H => H)).
Qed.

Lemma encodeRune_nonempty r : encodeRune r <> "".
Proof.
unfold encodeRune. cbv zeta.
repeat match goal with |- context [if ?b then _ else _] => destruct b end; discriminate.
Qed.

Lemma decodeRune_nonneg s : (0 <= fst (decodeRune s))%Z.
Proof.
unfold decodeRune, RuneError, byte_val.
repeat match goal with
       | |- context [if ?c then _ else _] => destruct c
       | |- context [match ?x with _ => _ end] => destruct x
       end; simpl fst;
repeat first [apply Z.lor_nonneg; split | apply Z.shiftl_nonneg | apply Z.land_nonneg; right; lia | lia].
Qed.

Lemma findCaseRange_in r l lo hi d :
  findCaseRange r l = Some (lo, hi, d) -> In (lo, hi, d) l /\ (lo <= r)%Z.
Proof.
induction l as [|[[lo' hi'] d'] l IH]; simpl; [discriminate|].
destruct ((lo' <=? r)%Z && (r <=? hi')%Z) eqn:E.
- intros H. inversion H; subst. apply andb_prop in E as [E _]. apply Z.leb_le in E. auto.
- intros H. destruct (IH H). auto.
Qed.

Lemma LowerRanges_nonneg :
  forallb (fun e => match e with
                    | (lo, _, Delta d) => (0 <=? lo)%Z && (0 <=? lo + d)%Z
                    | (lo, _, UpperLower) => (0 <=? lo)%Z
                    end) LowerRanges = true.
Proof. vm_compute. reflexivity. Qed.

Lemma unicode_ToLower_nonneg r : (0 <= r)%Z -> (0 <= unicode_ToLower r)%Z.
Proof.
intros Hr. unfold unicode_ToLower.
destruct (r <=? 0x7F)%Z; [destruct ((65 <=? r)%Z && (r <=? 90)%Z); lia|].
destruct (findCaseRange r LowerRanges) as [[[lo hi] d]|] eqn:E; [|exact Hr].
apply findCaseRange_in in E as [Hin Hlo].
pose proof LowerRanges_nonneg as F. rewrite forallb_forall in F.
specialize (F _ Hin). destruct d as [d|].
- apply andb_prop in F as [F1 F2]. apply Z.leb_le in F1, F2. lia.
- apply Z.leb_le in F.
  assert (0 <= Z.lor (Z.land (r - lo) (Z.lnot 1)) 1)%Z
    by (apply Z.lor_nonneg; split; [apply Z.land_nonneg; left; lia|lia]).
  lia.
Qed.

Lemma ToLower_empty s : ToLower s = "" -> s = "".
Proof.
destruct s as [|b r]; [done|]. unfold ToLower. destruct (isASCII _); [discriminate|].
unfold Map, runes. simpl String.length. cbn [runes_fuel].
pose proof (decodeRune_nonneg (String b r)) as Hc.
destruct (decodeRune (String b r)) as [c size]. simpl in Hc |- *.
apply unicode_ToLower_nonneg in Hc. apply Z.leb_le in Hc. rewrite Hc.
intros H. destruct (encodeRune (unicode_ToLower c)) eqn:E; [exfalso; exact (encodeRune_nonempty _ E)|].
discriminate.
Qed.

Lemma agent_map_one a : agent_map (Some [a]) = {[agentSnapshotKey a := a]}.
Proof. reflexivity. Qed.

Lemma go_range_one {V} k (v : V) l : go_range {[k := v]} l -> l = [(k, v)].
Proof.
unfold go_range. rewrite map_to_list_singleton. intros H.
apply Permutation_length_1_inv. by symmetry.
Qed.

(** Agent keys ignore letter case: renaming an agent (without Dialogflow link)
    to a display name that differs only in case is reported as one update
    of that agent, not as a removal and an addition. *)
Lemma diffAgents_case_rename a d o :
  a_DialogflowAgentDefinition a = None -> a_DisplayName a <> "" ->
  ToLower d = ToLower (a_DisplayName a) -> d <> a_DisplayName a ->
  valid_order (Some [Some a]) (Some [Some (with_display a d)]) o ->
  diffAgents (Some [Some a]) (Some [Some (with_display a d)]) o =
    [{| Key := ToLower (a_DisplayName a); ChangeType := AgentDiffUpdated;
        ad_Old := Some a; ad_New := Some (with_display a d) |}].
Proof.
intros Hl Hn Hd Hne [Ho Hc].
assert (Hd0 : d <> "") by (intros ->; apply Hn, ToLower_empty; by rewrite <- Hd).
assert (Ka : agentSnapshotKey (Some a) = ToLower (a_DisplayName a)).
{ simpl. rewrite Hl. simpl. apply String.eqb_neq in Hn. by rewrite Hn. }
assert (Kd : agentSnapshotKey (Some (with_display a d)) = ToLower (a_DisplayName a)).
{ simpl. rewrite Hl. simpl. apply String.eqb_neq in Hd0. by rewrite Hd0. }
rewrite agent_map_one, Kd in Ho. rewrite agent_map_one, Ka in Hc.
apply go_range_one in Ho, Hc.
unfold diffAgents, diffAgents_loops. rewrite Ho, Hc, !agent_map_one, Ka, Kd. cbn [flat_map].
rewrite !lookup_singleton. simpl.
repeat (destruct (decide _) as [_|Hf]; [|congruence]). simpl.
rewrite (proj2 (String.eqb_neq _ _) (not_eq_sym Hne)). reflexivity.
Qed.

Lemma diffAgents_case_rename_witness :
  let a := agent_with "agents/7" Apfel "" "" in
  let o := canonical_order (Some [Some a]) (Some [Some (with_display a aPFEL)]) in
  a_DialogflowAgentDefinition a = None /\ a_DisplayName a <> "" /\
  ToLower aPFEL = ToLower (a_DisplayName a) /\ aPFEL <> a_DisplayName a /\
  valid_order (Some [Some a]) (Some [Some (with_display a aPFEL)]) o /\
  diffAgents (Some [Some a]) (Some [Some (with_display a aPFEL)]) o =
    [{| Key := ToLower (a_DisplayName a); ChangeType := AgentDiffUpdated;
        ad_Old := Some a; ad_New := Some (with_display a aPFEL) |}].
Proof.
intros a o.
assert (H1 : a_DialogflowAgentDefinition a = None) by reflexivity.
assert (H2 : a_DisplayName a <> "") by (vm_compute; discriminate).
assert (H3 : ToLower aPFEL = ToLower (a_DisplayName a)) by (vm_compute; reflexivity).
assert (H4 : aPFEL <> a_DisplayName a) by (vm_compute; discriminate).
assert (H5 : valid_order (Some [Some a]) (Some [Some (with_display a aPFEL)]) o)
  by (split; unfold go_range; reflexivity).
split; [exact H1|]. split; [exact H2|]. split; [exact H3|]. split; [exact H4|]. split; [exact H5|].
exact (diffAgents_case_rename a aPFEL o H1 H2 H3 H4 H5).
Defined.


Lemma DiffSnapshots_same_content fmt A B o :
  md_DisplayName (Metadata A) = md_DisplayName (Metadata B) ->
  md_Description (Metadata A) = md_Description (Metadata B) ->
  md_Notes (Metadata A) = md_Notes (Metadata B) ->
  EngineCfg A = EngineCfg B -> Agents A = Agents B ->
  valid_order (Agents A) (Agents B) o -> DiffSnapshots fmt A B o = emptyDiff.
Proof.
intros H1 H2 H3 H4 H5 Ho. unfold DiffSnapshots, emptyDiff.
rewrite <- H4, <- H5. rewrite <- H5 in Ho. rewrite diffAgents_refl, diffFeatures_refl by exact Ho.
unfold diffMetadata, diffEngineConfig. rewrite H1, H2, H3.
by rewrite !String.eqb_refl, stringSlicesEqual_refl, mapsEqual_refl, compareSearchConfigs_refl.
Qed.

(** A snapshot just taken by [CreateEngineSnapshot], compared with the same
    (unchanged) engine by [DiffSnapshotWithEngine], gives an empty diff and
    no error. *)
Lemma fresh_snapshot_no_diff c fmt name snap o :
  CreateEngineSnapshot c name = Ok snap -> valid_order (Agents snap) (Agents snap) o ->
  DiffSnapshotWithEngine c fmt snap name o = (emptyDiff, None).
Proof.
unfold CreateEngineSnapshot, DiffSnapshotWithEngine.
destruct (GetEngineDetails c name) as [eng|e]; [|discriminate].
destruct (ListAgents c name) as [ags|e]; [|discriminate].
intros H Ho. inversion H; subst. f_equal.
apply DiffSnapshots_same_content; try reflexivity. exact Ho.
Qed.

Lemma fresh_snapshot_no_diff_witness :
  let c := {| GetEngineDetails := fun _ => Ok engine0; ListAgents := fun _ => Ok two_agents;
              write_resp := fun _ => None; ProjectID := "p"; Location := "global";
              Collection := "default_collection"; clock_now := "2025-01-02T00:00:00Z" |} in
  let snap := match CreateEngineSnapshot c engineName0 with Ok s => s | Err _ => snapshot0 end in
  let o := canonical_order (Agents snap) (Agents snap) in
  CreateEngineSnapshot c engineName0 = Ok snap /\ valid_order (Agents snap) (Agents snap) o /\
  DiffSnapshotWithEngine c fmt0 snap engineName0 o = (emptyDiff, None).
Proof.
intros c snap o.
assert (H1 : CreateEngineSnapshot c engineName0 = Ok snap) by reflexivity.
assert (H2 : valid_order (Agents snap) (Agents snap) o) by (split; unfold go_range; reflexivity).
split; [exact H1|]. split; [exact H2|]. exact (fresh_snapshot_no_diff c fmt0 engineName0 snap o H1 H2).
Defined.

(** A snapshot with a description or notes (which the CLI sets with --notes)
    never gives an empty restore preview: the live side of the preview has
    neither, so the CLI's no-change shortcut is never taken for it. *)
Lemma restore_preview_annotated c fmt snap opts op os t :
  TargetEngineName opts <> "" -> DryRun opts = true -> resolveTarget c opts = Ok t ->
  md_Description (Metadata snap) <> "" \/ md_Notes (Metadata snap) <> "" ->
  exists d, RestoreEngineSnapshot c fmt (Some snap) opts op os = (Returned None d None, []) /\
            IsEmpty d = false.
Proof.
intros Hn Hd Hr Ha. unfold RestoreEngineSnapshot.
apply String.eqb_neq in Hn. rewrite Hn, Hr, Hd. destruct t as [[eng|] ags].
- eexists. split; [reflexivity|]. unfold previewDiff, DiffSnapshots, IsEmpty. cbn [MetadataChanges].
  unfold diffMetadata. simpl.
  destruct Ha as [Ha|Ha]; apply String.eqb_neq in Ha; rewrite Ha; simpl;
    [by destruct (negb (String.eqb _ _))|].
  destruct (negb (String.eqb _ _)), (negb (String.eqb _ _)); reflexivity.
- eexists. split; [reflexivity|]. unfold previewDiff, IsEmpty. simpl. reflexivity.
Qed.

Lemma restore_preview_annotated_witness :
  TargetEngineName (opts0 false true true) <> "" /\ DryRun (opts0 false true true) = true /\
  resolveTarget client0 (opts0 false true true) = Ok (Some engine0, None) /\
  (md_Description (Metadata annotated0) <> "" \/ md_Notes (Metadata annotated0) <> "") /\
  exists d, RestoreEngineSnapshot client0 fmt0 (Some annotated0) (opts0 false true true) no_order no_order
              = (Returned None d None, []) /\ IsEmpty d = false.
Proof.
assert (H1 : TargetEngineName (opts0 false true true) <> "") by discriminate.
assert (H2 : DryRun (opts0 false true true) = true) by reflexivity.
assert (H3 : resolveTarget client0 (opts0 false true true) = Ok (Some engine0, None)) by reflexivity.
assert (H4 : md_Description (Metadata annotated0) <> "" \/ md_Notes (Metadata annotated0) <> "")
  by (right; discriminate).
split; [exact H1|]. split; [exact H2|]. split; [exact H3|]. split; [exact H4|].
exact (restore_preview_annotated client0 fmt0 annotated0 (opts0 false true true) no_order no_order _ H1 H2 H3 H4).
Defined.

Lemma wo_weaken (P Q : WriteCall -> Prop) {A} (m : M A) :
  (forall w, P w -> Q w) -> writes_only P m -> writes_only Q m.
Proof.
intros HPQ Hm tr o tr' H. destruct (Hm _ _ _ H) as (ws & -> & F).
exists ws. split; [done|]. eapply List.Forall_impl; [exact HPQ|exact F].
Qed.

(** A restore onto an existing engine with UpdateExisting off never creates
    or patches the engine, whatever the outcome (only feature and agent
    calls are issued). *)
Lemma restore_keeps_engine c fmt snap opts op os eng ags :
  resolveTarget c opts = Ok (Some eng, ags) -> UpdateExisting opts = false ->
  Forall (fun w => engine_call w = false) (snd (RestoreEngineSnapshot c fmt (Some snap) opts op os)).
Proof.
intros Hr Hu. unfold RestoreEngineSnapshot.
destruct (String.eqb (TargetEngineName opts) ""); [constructor|]. rewrite Hr.
destruct (DryRun opts); [constructor|].
assert (Hw : writes_only (fun w => engine_call w = false) (applySnapshot c snap opts (Some eng) ags os)).
{ unfold applySnapshot. rewrite Hu. apply wo_bind; [apply wo_ret|intros fl].
  apply wo_bind; [|intros u; apply wo_bind; [|intros ch; apply wo_ret]].
  - apply wo_wrap. unfold applyFeatureSnapshot. destruct (ec_Features (EngineCfg snap)); [|apply wo_ret].
    apply wo_call. reflexivity.
  - apply wo_wrap. eapply wo_weaken; [|apply syncAgents_writes]. intros [] H; simpl in *; tauto. }
destruct (applySnapshot c snap opts (Some eng) ags os []) as [o tr] eqn:E.
destruct (Hw _ _ _ E) as (ws & -> & F). destruct o; exact F.
Qed.

Lemma restore_keeps_engine_witness :
  resolveTarget client0 (opts0 false false false) = Ok (Some engine0, None) /\
  UpdateExisting (opts0 false false false) = false /\
  Forall (fun w => engine_call w = false)
    (snd (RestoreEngineSnapshot client0 fmt0 (Some snapshot_off) (opts0 false false false) no_order no_order)).
Proof.
assert (H1 : resolveTarget client0 (opts0 false false false) = Ok (Some engine0, None)) by reflexivity.
assert (H2 : UpdateExisting (opts0 false false false) = false) by reflexivity.
split; [exact H1|]. split; [exact H2|].
exact (restore_keeps_engine client0 fmt0 snapshot_off (opts0 false false false) no_order no_order engine0 None H1 H2).
Defined.

(** A failure of the target engine lookup that is not a 404 aborts the
    restore with that error wrapped, an empty diff and no write, even when
    creation is allowed. *)
Lemma restore_lookup_error_aborts c fmt snap opts op os e0 :
  TargetEngineName opts <> "" -> GetEngineDetails c (TargetEngineName opts) = Err e0 -> isNotFound e0 = false ->
  RestoreEngineSnapshot c fmt (Some snap) opts op os
    = (Returned None emptyDiff (Some (Wrapf "failed to get target engine" e0)), []).
Proof.
intros Hn He Hf. unfold RestoreEngineSnapshot, resolveTarget.
apply String.eqb_neq in Hn. by rewrite Hn, He, Hf.
Qed.

Lemma restore_lookup_error_aborts_witness :
  let c := {| GetEngineDetails := fun _ => Err (Wrapf "transport" (ApiError 503 "unavailable"));
              ListAgents := fun _ => Ok None; write_resp := fun _ => None; ProjectID := "p";
              Location := "global"; Collection := "default_collection"; clock_now := "" |} in
  TargetEngineName (opts0 true true false) <> "" /\
  GetEngineDetails c (TargetEngineName (opts0 true true false)) = Err (Wrapf "transport" (ApiError 503 "unavailable")) /\
  isNotFound (Wrapf "transport" (ApiError 503 "unavailable")) = false /\
  RestoreEngineSnapshot c fmt0 (Some snapshot0) (opts0 true true false) no_order no_order
    = (Returned None emptyDiff (Some (Wrapf "failed to get target engine" (Wrapf "transport" (ApiError 503 "unavailable")))), []).
Proof.
intros c.
assert (H1 : TargetEngineName (opts0 true true false) <> "") by discriminate.
assert (H2 : GetEngineDetails c (TargetEngineName (opts0 true true false)) = Err (Wrapf "transport" (ApiError 503 "unavailable"))) by reflexivity.
assert (H3 : isNotFound (Wrapf "transport" (ApiError 503 "unavailable")) = false) by reflexivity.
split; [exact H1|]. split; [exact H2|]. split; [exact H3|].
exact (restore_lookup_error_aborts c fmt0 snapshot0 (opts0 true true false) no_order no_order _ H1 H2 H3).
Defined.
